(** * serviced: volume driver registry, path resolver and NFS export synchronizer

    A shallow embedding of two Go packages of serviced:

    - package [volume] (driver registry, [InitDriver], [GetDriver],
      [SplitPath], [DetectDriverType], [Mount]);
    - package [nfs] ([Server] and its reconciliation cycle [Sync]:
      [hostsDeny], [hostsAllow], [writeExports], [bindMountImp],
      [cleanupBindMounts], and the accessor [Clients]).

    Go strings are byte strings and are modelled by [string]; Go maps used
    as sets are [gset string], maps with values are [gmap].  The functions of
    the Go standard library that the code calls ([path.Clean],
    [filepath.Dir], [filepath.Rel], [strings.Index], [strings.TrimSpace],
    [strings.Fields], [bufio.Scanner], [sort.Strings]) are modelled in the
    modules [GoStrings] and [GoPath] after their documented behaviour. *)

From Stdlib Require Import ZArith Ascii String.
From stdpp Require Import base list strings gmap sorting.

Local Open Scope Z_scope.

(** ** The Go standard library on byte strings *)

Module GoStrings.

(** [s[n:]] and [s[:n]]. *)
Fixpoint str_drop (n : nat) (s : string) : string :=
  match n, s with
  | O, _ => s
  | S n', String _ r => str_drop n' r
  | S _, EmptyString => EmptyString
  end.

Fixpoint str_take (n : nat) (s : string) : string :=
  match n, s with
  | O, _ => EmptyString
  | S n', String c r => String c (str_take n' r)
  | S _, EmptyString => EmptyString
  end.

Definition slice_from (s : string) (i : Z) : string := str_drop (Z.to_nat i) s.
Definition slice_to (s : string) (i : Z) : string := str_take (Z.to_nat i) s.

Definition len (s : string) : Z := Z.of_nat (String.length s).

(** [strings.HasPrefix]. *)
Definition HasPrefix (s p : string) : bool := String.prefix p s.

(** [strings.IndexByte(s, c) >= 0]. *)
Fixpoint has_byte (c : ascii) (s : string) : bool :=
  match s with
  | EmptyString => false
  | String d r => Ascii.eqb d c || has_byte c r
  end.

(** [strings.Index]: byte offset of the first occurrence, [-1] if none. *)
Fixpoint index_nat (s sub : string) : option nat :=
  if String.prefix sub s then Some O
  else match s with
       | EmptyString => None
       | String _ r => S <$> index_nat r sub
       end.

Definition Index (s sub : string) : Z :=
  match index_nat s sub with
  | Some n => Z.of_nat n
  | None => -1
  end.

Definition Contains (s sub : string) : bool := 0 <=? Index s sub.

(** [strings.Join]. *)
Definition Join (l : list string) (sep : string) : string := String.concat sep l.

(** White space as [unicode.IsSpace] sees it in a UTF-8 byte string: the
    width in bytes of the white-space rune at the head of [s], or [0].
    The runes are U+0009..U+000D, U+0020, U+0085, U+00A0, U+1680,
    U+2000..U+200A, U+2028, U+2029, U+202F, U+205F and U+3000. *)
Definition space_width (s : string) : nat :=
  match s with
  | String c r =>
      if Ascii.is_space c then 1%nat
      else match N_of_ascii c, r with
           | 194%N, String d _ =>
               match N_of_ascii d with 133%N | 160%N => 2%nat | _ => 0%nat end
           | 225%N, String d (String e _) =>
               match N_of_ascii d, N_of_ascii e with
               | 154%N, 128%N => 3%nat
               | _, _ => 0%nat
               end
           | 226%N, String d (String e _) =>
               match N_of_ascii d with
               | 128%N =>
                   let x := N_of_ascii e in
                   if ((128 <=? x) && (x <=? 138))%N then 3%nat
                   else match x with
                        | 168%N | 169%N | 175%N => 3%nat
                        | _ => 0%nat
                        end
               | 129%N => match N_of_ascii e with 159%N => 3%nat | _ => 0%nat end
               | _ => 0%nat
               end
           | 227%N, String d (String e _) =>
               match N_of_ascii d, N_of_ascii e with
               | 128%N, 128%N => 3%nat
               | _, _ => 0%nat
               end
           | _, _ => 0%nat
           end
  | EmptyString => 0%nat
  end.

(** The same test on the last rune of a string given in reverse. *)
Definition space_width_rev (rs : string) : nat :=
  match rs with
  | String c r =>
      if Ascii.is_space c then 1%nat
      else match r with
           | String d r' =>
               if (space_width (String d (String c EmptyString)) =? 2)%nat then 2%nat
               else match r' with
                    | String e _ =>
                        if (space_width
                              (String e (String d (String c EmptyString))) =? 3)%nat
                        then 3%nat else 0%nat
                    | EmptyString => 0%nat
                    end
           | EmptyString => 0%nat
           end
  | EmptyString => 0%nat
  end.

Fixpoint trim_with (width : string -> nat) (fuel : nat) (s : string) : string :=
  match fuel with
  | O => s
  | S f =>
      match width s with
      | O => s
      | w => trim_with width f (str_drop w s)
      end
  end.

(** [strings.TrimSpace]. *)
Definition TrimSpace (s : string) : string :=
  let l := trim_with space_width (String.length s) s in
  String.rev (trim_with space_width_rev (String.length l) (String.rev l)).

(** [strings.Fields]: the maximal runs of bytes that are not white space. *)
Fixpoint fields_go (fuel : nat) (cur : option string) (s : string) : list string :=
  match fuel with
  | O => option_list (String.rev <$> cur)
  | S f =>
      match s with
      | EmptyString => option_list (String.rev <$> cur)
      | String c r =>
          match space_width s with
          | O => fields_go f (Some (String c (default EmptyString cur))) r
          | w => option_list (String.rev <$> cur) ++ fields_go f None (str_drop w s)
          end
      end
  end.

Definition Fields (s : string) : list string :=
  fields_go (S (String.length s)) None s.

(** [bufio.Scanner] with the [ScanLines] split function, read until [Scan]
    returns false.  A line is what precedes a newline, or what is left at
    the end of the input when that is not empty; one trailing carriage
    return is dropped.  The scanner gives up (and the caller, which does
    not look at [Err], sees the end of the input) at the first line that
    does not fit its buffer of [MaxScanTokenSize] bytes. *)
Definition MaxScanTokenSize : Z := 65536.

Fixpoint raw_lines (s : string) : list string :=
  match s with
  | EmptyString => []
  | String c r =>
      if Ascii.eqb c "010" then EmptyString :: raw_lines r
      else match raw_lines r with
           | h :: t => String c h :: t
           | [] => [String c EmptyString]
           end
  end.

Definition dropCR (s : string) : string :=
  match String.rev s with
  | String c r => if Ascii.eqb c "013" then String.rev r else s
  | EmptyString => s
  end.

Fixpoint take_fitting (ls : list string) : list string :=
  match ls with
  | [] => []
  | l :: rest =>
      if len l <? MaxScanTokenSize then l :: take_fitting rest
      else []
  end.

Definition scanLines (s : string) : list string :=
  dropCR <$> take_fitting (raw_lines s).

(** [sort.Strings]: ascending byte-wise order. *)
Definition sort_Strings (l : list string) : list string :=
  merge_sort String.le l.

End GoStrings.

Module GoPath.
Import GoStrings.

(** The elements of a path: what lies between its slashes. *)
Fixpoint splitSlash (s : string) : list string :=
  match s with
  | EmptyString => [EmptyString]
  | String c r =>
      if Ascii.eqb c "/" then EmptyString :: splitSlash r
      else match splitSlash r with
           | h :: t => String c h :: t
           | [] => [String c EmptyString]
           end
  end.

(** One element of the input seen by [Clean]; [st] holds the elements kept
    so far, the last one first. *)
Definition clean_step (rooted : bool) (st : list string) (seg : string)
  : list string :=
  if decide (seg = "" ∨ seg = ".") then st
  else if decide (seg = "..") then
    match st with
    | top :: rest => if decide (top = "..") then seg :: st else rest
    | [] => if rooted then [] else [seg]
    end
  else seg :: st.

Definition clean_elems (rooted : bool) (segs : list string) : list string :=
  rev (fold_left (clean_step rooted) segs []).

(** [path.Clean] (and [filepath.Clean], the separator being a slash). *)
Definition Clean (p : string) : string :=
  let rooted := HasPrefix p "/" in
  let body := Join (clean_elems rooted (splitSlash p)) "/" in
  if rooted then "/" +:+ body
  else if decide (body = "") then "." else body.

(** [path.IsAbs], [filepath.IsAbs]. *)
Definition IsAbs (p : string) : bool := HasPrefix p "/".

(** [path.Split]: the path up to and with its last slash, and the rest. *)
Fixpoint Split (p : string) : string * string :=
  match p with
  | EmptyString => (EmptyString, EmptyString)
  | String c r =>
      let '(d, f) := Split r in
      match d with
      | EmptyString =>
          if Ascii.eqb c "/" then (String c EmptyString, f)
          else (EmptyString, String c f)
      | _ => (String c d, f)
      end
  end.

(** [filepath.Dir]. *)
Definition Dir (p : string) : string := Clean (fst (Split p)).

(** [path.Join] of two elements. *)
Definition Join2 (a b : string) : string :=
  if decide (a = "") then
    if decide (b = "") then "" else Clean b
  else Clean (a +:+ "/" +:+ b).

Fixpoint strip_common (bs ts : list string) : list string * list string :=
  match bs, ts with
  | b :: bs', t :: ts' =>
      if decide (b = t) then strip_common bs' ts' else (bs, ts)
  | _, _ => (bs, ts)
  end.

(** The elements [filepath.Rel] walks over in a cleaned path: nothing for
    the empty string, the one empty element in front of the slash for the
    root. *)
Definition rel_elems (p : string) : list string :=
  if decide (p = "") then []
  else if decide (p = "/") then [EmptyString]
  else splitSlash p.

(** [filepath.Rel]; [None] stands for its error "Rel: can't make ...
    relative to ...". *)
Definition Rel (basepath targpath : string) : option string :=
  let base := Clean basepath in
  let targ := Clean targpath in
  if decide (targ = base) then Some "."
  else
    let base := if decide (base = ".") then "" else base in
    if negb (Bool.eqb (HasPrefix base "/") (HasPrefix targ "/")) then None
    else
      let '(br, tr) := strip_common (rel_elems base) (rel_elems targ) in
      match br with
      | [] => Some (Join tr "/")
      | b :: _ =>
          if decide (b = "..") then None
          else Some (Join (replicate (length br) ".." ++ tr) "/")
      end.

End GoPath.

(** ** Clean rooted paths as lists of elements *)

Module PathSpec.
Import GoStrings GoPath.

Definition no_slash (v : string) : Prop := splitSlash v = [v].

Definition proper (v : string) : Prop :=
  no_slash v ∧ v ≠ "" ∧ v ≠ "." ∧ v ≠ "..".

Definition abs_of (segs : list string) : string := String "/" (Join segs "/").

(** All the prefixes of a list, the shortest first. *)
Fixpoint inits {A} (l : list A) : list (list A) :=
  [] :: match l with
        | [] => []
        | x :: l' => (x ::.) <$> inits l'
        end.

(** The elements of a cleaned rooted path, and the path with every
    directory above it, the root first. *)
Definition path_elems (p : string) : list string :=
  clean_elems true (splitSlash p).

Definition ancestors (p : string) : list string :=
  abs_of <$> inits (path_elems p).

(** Canonical roots: clean and absolute. *)
Definition canonical (R : string) : Prop := Clean R = R ∧ IsAbs R = true.

End PathSpec.

(** ** Package volume: the driver registry and the path resolver *)

Module Volume.
Import GoStrings GoPath PathSpec.

(** [DriverType] is a Go string type. *)
Definition DriverType := string.
Definition DRIVER_BTRFS : DriverType := "btrfs".
Definition DRIVER_RSYNC : DriverType := "rsync".
Definition DRIVER_DEVICEMAPPER : DriverType := "devicemapper".

(** Errors of the operating system, as far as the code tells them apart
    ([os.IsNotExist], [os.IsExist]). *)
Inductive os_error : Type :=
| ENOENT
| EEXIST
| EOTHER (msg : string).

Definition os_IsNotExist (e : option os_error) : bool :=
  match e with Some ENOENT => true | _ => false end.
Definition os_IsExist (e : option os_error) : bool :=
  match e with Some EEXIST => true | _ => false end.

(** The package's error values, and the errors it passes on. *)
Inductive error : Type :=
| ErrInvalidDriverInit
| ErrDriverNotInit
| ErrDriverAlreadyInit
| ErrDriverExists
| ErrDriverNotSupported
| ErrPathIsDriver
| ErrPathIsNotAbs
| ErrBadMount
| ErrInsufficientPermissions
| ErrOS (e : os_error)
| ErrRel (basepath targpath : string)
| ErrDriver (msg : string).

Global Instance os_error_eq_dec : EqDecision os_error.
Proof. solve_decision. Defined.
Global Instance error_eq_dec : EqDecision error.
Proof. solve_decision. Defined.

(** The part of the interface [Volume] that identifies a volume. *)
Record Volume : Type := mkVolume {
  vol_Name : string;
  vol_Path : string
}.

(** The interface [Driver], as far as the registry and [Mount] use it. *)
Record Driver : Type := mkDriver {
  Root : string;
  drv_DriverType : DriverType;
  Exists : string -> bool;
  Get : string -> Volume + error;
  Create : string -> Volume + error
}.

(** [DriverInit]: a constructor of drivers. *)
Definition DriverInit := string -> list string -> Driver + error.

(** The two package-level maps. *)
Record Registry : Type := mkRegistry {
  drivers : gmap string DriverInit;
  driversByRoot : gmap string Driver
}.

(** [init()]. *)
Definition init : Registry := mkRegistry ∅ ∅.

(** A call either returns, or ends the process in [glog.Fatalf]. *)
Inductive outcome (A : Type) : Type :=
| Returns (a : A)
| Fatalf (name root found : string).
Global Arguments Returns {A} a.
Global Arguments Fatalf {A} name root found.

(** [Register]; a nil initializer is [None]. *)
Definition Register (name : DriverType) (driverInit : option DriverInit)
           (reg : Registry) : option error * Registry :=
  match driverInit with
  | None => (Some ErrInvalidDriverInit, reg)
  | Some f =>
      match drivers reg !! name with
      | Some _ => (Some ErrDriverExists, reg)
      | None => (None, mkRegistry (<[name := f]> (drivers reg)) (driversByRoot reg))
      end
  end.

(** [Registered]. *)
Definition Registered (name : DriverType) (reg : Registry) : bool :=
  bool_decide (is_Some (drivers reg !! name)).

(** [Unregister]. *)
Definition Unregister (name : DriverType) (reg : Registry) : Registry :=
  mkRegistry (delete name (drivers reg))
             (filter (fun kv => drv_DriverType kv.2 ≠ name) (driversByRoot reg)).

(** What [DetectDriverType] observes of the machine. *)
Record FS : Type := mkFS {
  fs_Stat : string -> option os_error;
  fs_ReadDir : string -> list string + os_error;
  fs_GetFSMagic : string -> Z + os_error;
  fs_user_Current : string + os_error;
  fs_sudo_btrfs_help : option os_error;
  fs_btrfs_subvolume_show : bool -> string -> option os_error
}.

Definition FsMagicBtrfs : Z := 0x9123683E.

(** [DetectDriverType], the one of the registry's own file. *)
Definition DetectDriverType (fs : FS) (root : string) : DriverType * option error :=
  if os_IsNotExist (fs_Stat fs root) then ("", Some ErrDriverNotInit)
  else if os_IsExist (fs_Stat fs (Join2 root ".devicemapper"))
  then (DRIVER_DEVICEMAPPER, None)
  else
    match fs_ReadDir fs root with
    | inr e => ("", Some (ErrOS e))
    | inl fis =>
        let names := filter (fun n => n ≠ "monitor") fis in
        match names with
        | [] => ("", Some ErrDriverNotInit)
        | name0 :: _ =>
            match fs_GetFSMagic fs root with
            | inr e => ("", Some (ErrOS e))
            | inl magic =>
                if decide (magic = FsMagicBtrfs) then
                  match fs_user_Current fs with
                  | inr e => ("", Some (ErrOS e))
                  | inl uid =>
                      let probe (sudoer : bool) :=
                        match fs_btrfs_subvolume_show fs sudoer (Join2 root name0) with
                        | None => (DRIVER_BTRFS, None)
                        | Some _ => (DRIVER_RSYNC, None)
                        end in
                      if decide (uid ≠ "0") then
                        match fs_sudo_btrfs_help fs with
                        | Some _ => ("", Some ErrInsufficientPermissions)
                        | None => probe true
                        end
                      else probe false
                  end
                else (DRIVER_RSYNC, None)
            end
        end
    end.

(** [DetectDriverType] of detect.go, a later version that looks for the
    marker directory of a backend.  [os.Stat] gives a file info, of which
    [IsDir] is used, or an error.  The three constants of the loop are
    declared in a file that is not among the sources at hand; they are
    arguments here. *)
Module DetectGo.

Definition stat_err (r : bool + os_error) : option os_error :=
  match r with inl _ => None | inr e => Some e end.

Definition is_marker_dir (r : bool + os_error) : bool :=
  negb (os_IsNotExist (stat_err r)) &&
  match r with inl isDir => isDir | inr _ => false end.

Fixpoint detect_loop (os_Stat : string -> bool + os_error) (root : string)
         (types : list DriverType) : DriverType * option error :=
  match types with
  | [] => ("", Some ErrDriverNotInit)
  | drivertype :: rest =>
      let dirname := "." +:+ drivertype in
      if is_marker_dir (os_Stat (Join2 root dirname)) then (drivertype, None)
      else detect_loop os_Stat root rest
  end.

Definition DetectDriverType (os_Stat : string -> bool + os_error)
           (DriverTypeBtrFS DriverTypeRsync DriverTypeDeviceMapper : DriverType)
           (root : string) : DriverType * option error :=
  match os_Stat root with
  | inr e =>
      if os_IsNotExist (Some e) then ("", Some ErrDriverNotInit)
      else ("", Some (ErrOS e))
  | inl _ =>
      detect_loop os_Stat root
                  [DriverTypeBtrFS; DriverTypeRsync; DriverTypeDeviceMapper]
  end.

End DetectGo.

(** [InitDriver].  The package's [DetectDriverType] it calls is the
    argument [detect]: the registry's own one above, or the one of
    detect.go. *)
Definition InitDriver (detect : string -> DriverType * option error)
           (name : DriverType) (root : string)
           (args : list string) (reg : Registry)
  : outcome (option error * Registry) :=
  match drivers reg !! name with
  | Some init =>
      let root := Clean root in
      match driversByRoot reg !! root with
      | Some _ => Returns (None, reg)
      | None =>
          if negb (IsAbs root) then Returns (Some ErrPathIsNotAbs, reg)
          else
            let '(t, err) := detect root in
            if bool_decide (err ≠ None ∧ err ≠ Some ErrDriverNotInit)
            then Returns (err, reg)
            else if decide (t ≠ name) then Fatalf name root t
            else
              match init root args with
              | inr e => Returns (Some e, reg)
              | inl driver =>
                  Returns (None,
                           mkRegistry (drivers reg)
                                      (<[root := driver]> (driversByRoot reg)))
              end
      end
  | None => Returns (Some ErrDriverNotSupported, reg)
  end.

(** [GetDriver]. *)
Definition GetDriver (reg : Registry) (root : string) : Driver + error :=
  match driversByRoot reg !! Clean root with
  | Some driver => inl driver
  | None => inr ErrDriverNotInit
  end.

(** The [for] loop of [SplitPath]; [None] when [fuel] rounds do not reach a
    [return]. *)
Fixpoint SplitPath_loop (fuel : nat) (reg : Registry) (rootDir volumePath : string)
  : option (string * string * option error) :=
  match fuel with
  | O => None
  | S fuel' =>
      let rootDir := Dir rootDir in
      match driversByRoot reg !! rootDir with
      | None =>
          if decide (rootDir = "/") then Some ("", "", Some ErrDriverNotInit)
          else SplitPath_loop fuel' reg rootDir volumePath
      | Some _ =>
          match Rel rootDir volumePath with
          | None => Some ("", "", Some (ErrRel rootDir volumePath))
          | Some volumeName => Some (rootDir, volumeName, None)
          end
      end
  end.

(** [SplitPath].  The loop gets as many rounds as the cleaned path has
    bytes; [SplitPath_total] shows that this is always enough. *)
Definition SplitPath (reg : Registry) (volumePath : string)
  : option (string * string * option error) :=
  let rootDir := Clean volumePath in
  if negb (IsAbs rootDir) then Some ("", "", Some ErrPathIsNotAbs)
  else
    match driversByRoot reg !! rootDir with
    | Some _ => Some (volumePath, "", None)
    | None => SplitPath_loop (String.length rootDir) reg rootDir volumePath
    end.

(** [Mount]. *)
Definition Mount (reg : Registry) (volumeName rootDir : string)
  : option (Volume + error) :=
  match SplitPath reg (Join2 rootDir volumeName) with
  | None => None
  | Some (rDir, vName, Some err) => Some (inr err)
  | Some (rDir, vName, None) =>
      if decide (rDir ≠ rootDir) then Some (inr ErrBadMount)
      else if decide (vName = "") then Some (inr ErrPathIsDriver)
      else
        match GetDriver reg rootDir with
        | inr err => Some (inr err)
        | inl driver =>
            if Exists driver volumeName then Some (Get driver volumeName)
            else Some (Create driver volumeName)
        end
  end.

(** [FindMount]. *)
Definition FindMount (reg : Registry) (volumePath : string)
  : option (Volume + error) :=
  match SplitPath reg volumePath with
  | None => None
  | Some (rootDir, volumeName, Some err) => Some (inr err)
  | Some (rootDir, volumeName, None) =>
      if decide (rootDir = volumePath) then Some (inr ErrPathIsDriver)
      else Mount reg volumeName rootDir
  end.

(** The deepest bound root among candidate directories listed root first. *)
Definition deepest (reg : Registry) (l : list string) : option string :=
  last (filter (fun R => is_Some (driversByRoot reg !! R)) l).

(** Bound roots are canonical: the registry is filled by [InitDriver] only. *)
Definition canonical_roots (reg : Registry) : Prop :=
  ∀ R d, driversByRoot reg !! R = Some d → canonical R.

End Volume.

(** ** Package volume: shutdown, status, and runs of registry calls *)

Module VolumeOps.
Import GoStrings GoPath PathSpec Volume.

(** The calls that change the registry; a call of [InitDriver] comes with
    what [DetectDriverType] answers at that moment. *)
Inductive registry_op : Type :=
| OpRegister (name : DriverType) (driverInit : option DriverInit)
| OpUnregister (name : DriverType)
| OpInitDriver (detect : string -> DriverType * option error)
               (name : DriverType) (root : string) (args : list string).

(** One call, and a run of calls; [None] when a call ended the process. *)
Definition run_op (reg : Registry) (op : registry_op) : option Registry :=
  match op with
  | OpRegister name driverInit => Some (Register name driverInit reg).2
  | OpUnregister name => Some (Unregister name reg)
  | OpInitDriver detect name root args =>
      match InitDriver detect name root args reg with
      | Returns (_, reg') => Some reg'
      | Fatalf _ _ _ => None
      end
  end.

Definition run_ops (reg : Registry) (ops : list registry_op) : option Registry :=
  foldl (fun r op => r ≫= fun reg => run_op reg op) (Some reg) ops.

(** The error value of [ShutdownAll]. *)
Inductive shutdown_error : Type := ErrBadDriverShutdown.

(** [ShutdownAll].  [Cleanup] is the method of the drivers; [visited] is
    [driversByRoot] in the order the [range] loop goes through it.  The
    result comes with the drivers [Cleanup] was called on, in order. *)
Definition ShutdownAll (Cleanup : Driver -> option error)
           (visited : list (string * Driver))
  : option shutdown_error * list Driver :=
  let '(errs, called) :=
    foldl (fun '(errs, called) '(_, driver) =>
             match Cleanup driver with
             | Some err => (errs ++ [err], called ++ [driver])
             | None => (errs, called ++ [driver])
             end)
          (([] : list error), ([] : list Driver)) visited in
  (if (0 <? length errs)%nat then Some ErrBadDriverShutdown else None, called).

(** [driverMatches]. *)
Definition driverMatches (driver : Driver) (volumeName : string) : bool :=
  match Get driver volumeName with
  | inr _ => false
  | inl _ => true
  end.

(** [getDrivers]; [visited] as in [ShutdownAll]. *)
Definition getDrivers (visited : list (string * Driver)) (volumeNames : list string)
  : gmap string Driver :=
  foldl (fun result '(root, driver) =>
           if decide (length volumeNames = 0%nat) then <[root := driver]> result
           else
             foldl (fun result volumeName =>
                      if driverMatches driver volumeName
                      then <[volumeName := driver]> result
                      else result)
                   result volumeNames)
        ∅ visited.

(** [Status] and [Statuses]; the counters are [uint64]. *)
Record Status : Type := mkStatus {
  st_Driver : string;
  DataSpaceAvailable : Z;
  DataSpaceUsed : Z;
  DataSpaceTotal : Z;
  MetadataSpaceAvailable : Z;
  MetadataSpaceUsed : Z;
  MetadataSpaceTotal : Z;
  PoolName : string;
  DataFile : string;
  DataLoopback : string;
  MetadataFile : string;
  MetadataLoopback : string;
  SectorSize : Z;
  UdevSyncSupported : bool
}.

Record Statuses : Type := mkStatuses {
  StatusMap : gmap string Status
}.

(** [GetStatus].  [driver.Status()] returns a pointer and an error; the
    error is logged only and the pointer is dereferenced, so a nil pointer
    ends the call in a panic, which is [None] here.  The map built does not
    depend on the order of the second [range] loop. *)
Definition GetStatus (Status_of : Driver -> option Status * option error)
           (visited : list (string * Driver)) (volumeNames : list string)
  : option Statuses :=
  let driverMap := getDrivers visited volumeNames in
  mkStatuses <$>
    foldl (fun result '(path, driver) =>
             m ← result;
             status ← (Status_of driver).1;
             Some (<[path := status]> m))
          (Some ∅) (map_to_list driverMap).

End VolumeOps.

(** ** Package volume: the earlier detection kept in detect.go *)

Module OldDetect.
Import GoStrings GoPath PathSpec Volume.

(** What [OldDetectDriverType] of detect.go observes of the machine.
    [IsBtrfsFilesystem], [IsRoot], [IsSudoer] and [RunBtrFSCmd] are
    declared in files that are not among the sources; they are fields here,
    as are the three constants. *)
Record OldFS : Type := mkOldFS {
  old_Stat : string -> bool + os_error;
  old_ReadDir : string -> list (string * bool) + os_error;
  IsBtrfsFilesystem : string -> bool;
  IsRoot : bool;
  IsSudoer : bool;
  RunBtrFSCmd : bool -> list string -> option error;
  DriverTypeBtrFS : DriverType;
  DriverTypeRsync : DriverType;
  DriverTypeDeviceMapper : DriverType
}.

(** [OldDetectDriverType]; a directory entry is its name and [IsDir]. *)
Definition OldDetectDriverType (fs : OldFS) (root : string)
  : DriverType * option error :=
  match old_Stat fs root with
  | inr err =>
      if os_IsNotExist (Some err) then ("", Some ErrDriverNotInit)
      else ("", Some (ErrOS err))
  | inl _ =>
      if DetectGo.is_marker_dir (old_Stat fs (Join2 root ".devicemapper"))
      then (DriverTypeDeviceMapper fs, None)
      else
        match old_ReadDir fs root with
        | inr err => ("", Some (ErrOS err))
        | inl fis =>
            let names :=
              fst <$> filter (fun fi : string * bool =>
                                fi.2 = true ∧ fi.1 ≠ "monitor") fis in
            match names with
            | [] => ("", Some ErrDriverNotInit)
            | name0 :: _ =>
                if IsBtrfsFilesystem fs root then
                  let sudoer := if negb (IsRoot fs) then IsSudoer fs else false in
                  if negb (IsRoot fs) && negb sudoer
                  then ("", Some ErrInsufficientPermissions)
                  else
                    match RunBtrFSCmd fs sudoer
                            ["subvolume"; "show"; Join2 root name0] with
                    | None => (DriverTypeBtrFS fs, None)
                    | Some _ => (DriverTypeRsync fs, None)
                    end
                else (DriverTypeRsync fs, None)
            end
        end
  end.
End OldDetect.

(** ** Package nfs: the export synchronizer *)

Module NFS.
Import GoStrings GoPath.

(** Line feed and tab, for the constants of the package. *)
Definition nl : string := String "010" EmptyString.
Definition tab : string := String "009" EmptyString.

(** Errors: the four values of the package, errors of the operating system
    and of [atomicfile], errors of [exec.Cmd] (an exit status when the
    command ran and failed), and errors built with [fmt.Errorf]. *)
Inductive error : Type :=
| ErrInvalidExportedName
| ErrInvalidBasePath
| ErrBasePathNotDir
| ErrInvalidNetwork
| ErrOS (msg : string)
| ErrExit (msg : string) (status : Z)
| ErrExec (msg : string)
| Errorf (msg : string).

Global Instance error_eq_dec : EqDecision error.
Proof. solve_decision. Defined.

(** The method [Error()]. *)
Definition error_string (e : error) : string :=
  match e with
  | ErrInvalidExportedName => "nfs server: invalid exported name"
  | ErrInvalidBasePath => "nfs server: invalid base path"
  | ErrBasePathNotDir => "nfs server: base path not a directory"
  | ErrInvalidNetwork => "nfs server: the network value is not CIDR"
  | ErrOS msg => msg
  | ErrExit msg _ => msg
  | ErrExec msg => msg
  | Errorf msg => msg
  end.

(** [os.FileInfo], as far as it is used. *)
Record FileInfo : Type := mkFileInfo {
  fi_Name : string;
  fi_IsDir : bool
}.

(** Modelled from the spec: the type [mountInstance] and [parseMounts] are
    declared in a file that is not among the sources; the mount table is
    "parsed as whitespace-delimited records with destination as the second
    field", and only [Dst] is read here. *)
Record mountInstance : Type := mkMount {
  Src : string;
  Dst : string
}.

Inductive stat_result : Type :=
| StatInfo (isDir : bool) (mode : Z)
| StatNotExist
| StatError (msg : string).

Inductive service_action : Type := ActStart | ActReload | ActRestart | ActStop.

(** Every call that leaves the process, with what came back. *)
Inductive Event : Type :=
| EvStat (path : string) (res : stat_result)
| EvMkdirAll (path : string) (perm : Z) (res : option error)
| EvChmod (path : string) (perm : Z) (res : option error)
| EvReadFile (path : string) (res : string + error)
| EvWriteFile (path content : string) (perm : Z) (res : option error)
| EvReadMounts (res : list mountInstance + error)
| EvReadDir (path : string) (res : list FileInfo + error)
| EvRemoveAll (path : string) (res : option error)
| EvGetuid (uid : Z)
| EvExec (cmd : string) (args : list string) (out : string) (res : option error)
| EvService (act : service_action) (res : option error).

Definition Hist := list Event.

(** The machine the package runs on: the constants of the platform file
    (which is not among the sources), and for every call that leaves the
    process an answer that may depend on all that happened before.
    [env_range] is the order in which a [for ... range] visits the keys of
    a map; [env_GetExitStatus] is [utils.GetExitStatus]; [env_ParseCIDR]
    tells whether [net.ParseCIDR] accepts. *)
Record Env : Type := mkEnv {
  exportsDir : string;
  etcHostsDeny : string;
  etcHostsAllow : string;
  etcExports : string;
  env_Stat : Hist -> string -> stat_result;
  env_MkdirAll : Hist -> string -> Z -> option error;
  env_Chmod : Hist -> string -> Z -> option error;
  env_ReadFile : Hist -> string -> string + error;
  env_WriteFile : Hist -> string -> string -> Z -> option error;
  env_ReadMounts : Hist -> list mountInstance + error;
  env_ReadDir : Hist -> string -> list FileInfo + error;
  env_RemoveAll : Hist -> string -> option error;
  env_Getuid : Hist -> Z;
  env_Exec : Hist -> string -> list string -> string * option error;
  env_Service : Hist -> service_action -> option error;
  env_GetExitStatus : error -> Z * bool;
  env_ParseCIDR : string -> bool;
  env_range : Hist -> gset string -> list string;
  env_range_perm : forall h s, env_range h s ≡ₚ elements s
}.

(** A computation reads the history so far and returns a value and the
    events it adds. *)
Definition M (A : Type) : Type := Hist -> A * list Event.

Global Instance M_ret : MRet M := fun A a _ => (a, []).

Global Instance M_bind : MBind M := fun A B k m h =>
  let '(a, e1) := m h in
  let '(b, e2) := k a (h ++ e1) in
  (b, e1 ++ e2).

(** [if err := m; err != nil { return err }; k]. *)
Notation "'check!' m ; k" :=
  (mbind (fun err : option error =>
            match err with
            | Some e => mret (Some e)
            | None => k
            end) m)
  (at level 20, m at level 100, k at level 200, only parsing).

(** File modes, octal in the source: 0755, 0775 and 0664. *)
Definition defaultDirectoryPerm : Z := 0x1ED.
Definition perm0775 : Z := 0x1FD.
Definition perm0664 : Z := 0x1B4.

Definition hostDenyMarker : string := "# serviced, do not remove past this line".
Definition hostDenyDefaults : string :=
  nl +:+ "# serviced, do not remove past this line" +:+ nl +:+
  "rpcbind mountd nfsd statd lockd rquotad : ALL" +:+ nl +:+ nl.

Definition hostAllowMarker : string := "# serviced, do not remove past this line".
Definition hostAllowDefaults : string :=
  nl +:+ "# serviced, do not remove past this line" +:+ nl +:+
  "rpcbind mountd nfsd statd lockd rquotad : 127.0.0.1".

Definition etcExportsStartMarker : string :=
  nl +:+ "# --- SERVICED EXPORTS BEGIN ---" +:+ nl +:+
  "# --- Do not edit this section" +:+ nl.
Definition etcExportsEndMarker : string :=
  nl +:+ "# --- SERVICED EXPORTS END ---" +:+ nl.
Definition etcExportsRemoveComment : string := "# serviced removed: ".

(** [Server]; the mutex is left out, calls do not overlap here. *)
Record Server : Type := mkServer {
  basePath : string;
  exportedName : string;
  exportOptions : string;
  network : string;
  clients : gset string;
  volumes : gset string;
  exported : gset string
}.

Definition set_clients (c : Server) (s : gset string) : Server :=
  mkServer (basePath c) (exportedName c) (exportOptions c) (network c)
           s (volumes c) (exported c).
Definition set_volumes (c : Server) (s : gset string) : Server :=
  mkServer (basePath c) (exportedName c) (exportOptions c) (network c)
           (clients c) s (exported c).
Definition set_exported (c : Server) (s : gset string) : Server :=
  mkServer (basePath c) (exportedName c) (exportOptions c) (network c)
           (clients c) (volumes c) s.

(** [SetClients]. *)
Definition SetClients (addrs : list string) (c : Server) : Server :=
  set_clients c (foldl (fun s client => {[client]} ∪ s) ∅ addrs).

(** [AddVolume]. *)
Definition AddVolume (volumePath : string) (c : Server) : option error * Server :=
  (None, set_volumes c ({[volumePath]} ∪ volumes c)).

(** [RemoveVolume]. *)
Definition RemoveVolume (volumePath : string) (c : Server) : option error * Server :=
  (None, set_volumes c (volumes c ∖ {[volumePath]})).

(** The body of [writeExports]'s loop over the lines of the exports file,
    without the accumulation: what is appended for the scanned text. *)
Definition filterLine (mountpaths : gset string) (text : string) : string :=
  let line := TrimSpace text in
  if negb (HasPrefix line "#") then
    match Fields line with
    | mountpoint :: _ =>
        if decide (mountpoint ∈ mountpaths)
        then etcExportsRemoveComment +:+ line +:+ nl
        else line +:+ nl
    | [] => line +:+ nl
    end
  else line +:+ nl.

Definition filterContent (mountpaths : gset string) (originalContents : string)
  : string :=
  foldl (fun acc text => acc +:+ filterLine mountpaths text) ""
        (scanLines originalContents).

(** A line of the exports file that [writeExports] writes back as it is:
    no line feed inside, no carriage return at its end, no white space
    around it, short enough for the scanner, and not one that is commented
    out. *)
Definition kept_line (mountpaths : gset string) (l : string) : Prop :=
  has_byte "010" l = false ∧ dropCR l = l ∧ TrimSpace l = l ∧
  len l < MaxScanTokenSize ∧ filterLine mountpaths l = l +:+ nl.

(** The lines of a file, each followed by a line feed. *)
Definition unlines (ls : list string) : string :=
  foldr String.append "" ((fun l => l +:+ nl) <$> ls).

(** "create file content" in [writeExports]. *)
Definition fileContents (filteredContent serviced_exports : string) : string :=
  let index := Index filteredContent etcExportsStartMarker in
  let '(preamble, postamble) :=
    if 0 <=? index then
      let preamble := slice_to filteredContent index in
      let remainder := slice_from filteredContent index in
      let index' := Index remainder etcExportsEndMarker in
      if 0 <=? index'
      then (preamble, slice_from remainder (index' + len etcExportsEndMarker))
      else (preamble, "")
    else (filteredContent, "") in
  preamble +:+ etcExportsStartMarker +:+ serviced_exports +:+
  etcExportsEndMarker +:+ postamble.

(** The line [writeExports] formats for one volume. *)
Definition exportLine (exported network : string) : string :=
  exported +:+ tab +:+ network +:+
  "(rw,no_root_squash,insecure,no_subtree_check,async)" +:+ nl.

(** The loop of [hostsAllow] that copies the keys: [hosts[i] = key; i++]. *)
Definition copy_keys (n : nat) (keys : list string) : list string :=
  (foldl (fun '(hosts, i) key => (<[i := key]> hosts, S i))
         (replicate n "", O) keys).1.

(** The loop of [Clients]: [clients[i] = key] with [i] left at [0]. *)
Definition copy_keys_at_0 (n : nat) (keys : list string) : list string :=
  let i := O in
  foldl (fun clients key => <[i := key]> clients) (replicate n "") keys.

(** What [mntArgs] computes once it knows the user id. *)
Definition mount_cmdline (uid : Z) (fs dst fsType : string) (options : list string)
  : string * list string :=
  let args := if decide (uid ≠ 0) then ["sudo"] else [] in
  let args := args ++ ["mount"] in
  let args := foldl (fun args option => args ++ ["-o"; option]) args options in
  let args := if 0 <? len fsType then args ++ ["-t"; fsType] else args in
  let args := if 0 <? len fs then args ++ [fs] else args in
  let args := args ++ [dst] in
  (default "" (head args), tail args).

(** The desired-volume operations between two calls of [SetClients]. *)
Inductive volume_op : Type :=
| OpAddVolume (volumePath : string)
| OpRemoveVolume (volumePath : string).

Definition apply_volume_op (c : Server) (op : volume_op) : Server :=
  match op with
  | OpAddVolume p => (AddVolume p c).2
  | OpRemoveVolume p => (RemoveVolume p c).2
  end.

(** The failure [bindMountImp] retries: [GetExitStatus] knows the exit
    status and bit 32 of it is set. *)
Definition stale_handle (getExitStatus : error -> Z * bool) (err : error) : bool :=
  let '(exitcode, ok) := getExitStatus err in
  ok && negb (Z.land exitcode 32 =? 0).

(** The events of a given kind in a trace. *)
Definition is_stat (ev : Event) : bool :=
  match ev with EvStat _ _ => true | _ => false end.
Definition no_stat (evs : list Event) : Prop := existsb is_stat evs = false.

Section WithEnv.
Variable env : Env.

(** The calls that leave the process. *)
Definition os_Stat (path : string) : M stat_result :=
  fun h => let r := env_Stat env h path in (r, [EvStat path r]).
Definition os_MkdirAll (path : string) (perm : Z) : M (option error) :=
  fun h => let r := env_MkdirAll env h path perm in (r, [EvMkdirAll path perm r]).
Definition os_Chmod (path : string) (perm : Z) : M (option error) :=
  fun h => let r := env_Chmod env h path perm in (r, [EvChmod path perm r]).
Definition ioutil_ReadFile (path : string) : M (string + error) :=
  fun h => let r := env_ReadFile env h path in (r, [EvReadFile path r]).
Definition atomicfile_WriteFile (path content : string) (perm : Z)
  : M (option error) :=
  fun h => let r := env_WriteFile env h path content perm in
           (r, [EvWriteFile path content perm r]).
Definition readMounts : M (list mountInstance + error) :=
  fun h => let r := env_ReadMounts env h in (r, [EvReadMounts r]).
Definition ioutil_ReadDir (path : string) : M (list FileInfo + error) :=
  fun h => let r := env_ReadDir env h path in (r, [EvReadDir path r]).
Definition os_RemoveAll (path : string) : M (option error) :=
  fun h => let r := env_RemoveAll env h path in (r, [EvRemoveAll path r]).
Definition syscall_Getuid : M Z :=
  fun h => let r := env_Getuid env h in (r, [EvGetuid r]).
Definition CombinedOutput (cmd : string) (args : list string)
  : M (string * option error) :=
  fun h => let r := env_Exec env h cmd args in (r, [EvExec cmd args r.1 r.2]).
Definition service (act : service_action) : M (option error) :=
  fun h => let r := env_Service env h act in (r, [EvService act r]).

(** The platform's [start], [reload], [restart] and [stop]. *)
Definition start : M (option error) := service ActStart.
Definition reload : M (option error) := service ActReload.
Definition restart : M (option error) := service ActRestart.
Definition stop : M (option error) := service ActStop.

(** The keys of a map in the order of a [range] loop. *)
Definition range (s : gset string) : M (list string) :=
  fun h => (env_range env h s, []).

(** [doesExists]. *)
Definition doesExists (path : string) : M (bool * option error) :=
  st ← os_Stat path;
  match st with
  | StatInfo _ _ => mret (true, None)
  | StatNotExist => mret (false, None)
  | StatError msg => mret (false, Some (ErrOS msg))
  end.

(** [readFileIfExists]. *)
Definition readFileIfExists (path : string) : M (string * option error) :=
  r ← doesExists path;
  match r with
  | (_, Some err) => mret ("", Some err)
  | (false, None) => mret ("", None)
  | (true, None) =>
      bytes ← ioutil_ReadFile path;
      match bytes with
      | inr err => mret ("", Some err)
      | inl s => mret (s, None)
      end
  end.

(** [verifyExportsDir]. *)
Definition verifyExportsDir (path : string) : M (option error) :=
  st ← os_Stat path;
  match st with
  | StatError msg => mret (Some (ErrOS msg))
  | StatNotExist => os_MkdirAll path defaultDirectoryPerm
  | StatInfo isDir mode =>
      if negb isDir then mret (Some ErrBasePathNotDir)
      else if negb (Z.land mode defaultDirectoryPerm =? defaultDirectoryPerm)
      then os_Chmod path defaultDirectoryPerm
      else mret None
  end.

(** [NewServer]. *)
Definition NewServer (basePath exportedName network : string)
  : M (option Server * option error) :=
  if (len exportedName <? 2) || Contains exportedName "/"
  then mret (None, Some ErrInvalidExportedName)
  else if len basePath <? 2 then mret (None, Some ErrInvalidBasePath)
  else
    e1 ← verifyExportsDir basePath;
    match e1 with
    | Some err => mret (None, Some err)
    | None =>
        e2 ← verifyExportsDir (Join2 (exportsDir env) exportedName);
        match e2 with
        | Some err => mret (None, Some err)
        | None =>
            if negb (env_ParseCIDR env network)
            then mret (None, Some ErrInvalidNetwork)
            else
              e3 ← start;
              match e3 with
              | Some err => mret (None, Some err)
              | None =>
                  mret (Some (mkServer basePath exportedName
                                       "rw,insecure,no_subtree_check,async"
                                       network ∅ ∅ ∅), None)
              end
        end
    end.

(** [ExportPath]. *)
Definition ExportPath (c : Server) : string :=
  Join2 (exportsDir env) (exportedName c).

(** [Clients]. *)
Definition Clients (c : Server) : M (list string) :=
  keys ← range (clients c);
  mret (copy_keys_at_0 (size (clients c)) keys).

(** [hostsDeny]. *)
Definition hostsDeny (c : Server) : M (option error) :=
  r ← readFileIfExists (etcHostsDeny env);
  match r with
  | (_, Some err) => mret (Some err)
  | (s, None) =>
      if Contains s hostDenyDefaults then mret None
      else
        let index := Index s hostDenyMarker in
        let s := if 0 <? index then slice_to s (index - 1) else s in
        let s := s +:+ hostDenyDefaults in
        atomicfile_WriteFile (etcHostsDeny env) s perm0664
  end.

(** [hostsAllow]. *)
Definition hostsAllow (c : Server) : M (option error) :=
  r ← readFileIfExists (etcHostsAllow env);
  match r with
  | (_, Some err) => mret (Some err)
  | (s, None) =>
      let index := Index s hostAllowMarker in
      let s := if 0 <? index then slice_to s (index - 1) else s in
      keys ← range (clients c);
      let hosts := sort_Strings (copy_keys (size (clients c)) keys) in
      let s := s +:+ hostAllowDefaults +:+ " " +:+ Join hosts " " +:+ nl +:+ nl in
      atomicfile_WriteFile (etcHostsAllow env) s perm0664
  end.

(** [getMount]. *)
Definition getMount (dst : string) : M (option mountInstance * option error) :=
  r ← readMounts;
  match r with
  | inr err => mret (None, Some err)
  | inl mounts =>
      match List.find (fun m => bool_decide (Dst m = dst)) mounts with
      | Some m => mret (Some m, None)
      | None => mret (None, Some (Errorf "not found"))
      end
  end.

(** [isBindMounted]. *)
Definition isBindMounted (dst : string) : M (bool * option error) :=
  r ← getMount dst;
  match r with
  | (_, Some err) =>
      if decide (error_string err = "not found") then mret (false, None)
      else mret (false, Some err)
  | (_, None) => mret (true, None)
  end.

(** [mntArgs]. *)
Definition mntArgs (fs dst fsType : string) (options : list string)
  : M (string * list string) :=
  uid ← syscall_Getuid;
  mret (mount_cmdline uid fs dst fsType options).

(** The closure [runMountCommand] of [bindMountImp]. *)
Definition runMountCommand (src dst : string) (options : list string)
  : M (string * option error) :=
  '(cmd, args) ← mntArgs src dst "" options;
  CombinedOutput cmd args.

(** [bindMountImp], the value of the variable [bindMount]. *)
Definition bindMountImp (src dst : string) : M (option error) :=
  r ← isBindMounted dst;
  match r with
  | (_, Some err) => mret (Some err)
  | (true, None) => mret None
  | (false, None) =>
      check! os_MkdirAll dst perm0775;
      '(out, returnErr) ← runMountCommand src dst ["bind"];
      '(out, returnErr) ←
        match returnErr with
        | Some err =>
            if stale_handle (env_GetExitStatus env) err
            then runMountCommand src dst ["bind"; "remount"]
            else mret (out, returnErr)
        | None => mret (out, returnErr)
        end;
      match returnErr with
      | Some err => mret (Some (Errorf (out +:+ ": " +:+ error_string err)))
      | None => mret None
      end
  end.

Definition bindMount := bindMountImp.

(** The loop of [writeExports] over the volumes. *)
Fixpoint writeExports_loop (edir network : string) (vols : list string)
         (exports : gset string) (serviced_exports : string)
  : M (option error * gset string * string) :=
  match vols with
  | [] => mret (None, exports, serviced_exports)
  | volume :: vols' =>
      let volume := Clean volume in
      let volName := (Split volume).2 in
      let exports := {[volName]} ∪ exports in
      let exported := Join2 edir volName in
      err ← bindMount volume exported;
      match err with
      | Some e => mret (Some e, exports, serviced_exports)
      | None =>
          writeExports_loop edir network vols' exports
                            (serviced_exports +:+ exportLine exported network)
      end
  end.

(** [writeExports]. *)
Definition writeExports (c : Server) : M (option error * Server) :=
  let network := if decide (network c = "0.0.0.0/0") then "*" else network c in
  e1 ← os_MkdirAll (exportsDir env) perm0775;
  match e1 with
  | Some err => mret (Some err, c)
  | None =>
      let edir := Join2 (exportsDir env) (exportedName c) in
      e2 ← os_MkdirAll edir perm0775;
      match e2 with
      | Some err => mret (Some err, c)
      | None =>
          vols ← range (volumes c);
          '(e3, exports, serviced_exports) ←
            writeExports_loop edir network vols ∅ "";
          match e3 with
          | Some err => mret (Some err, c)
          | None =>
              let c := set_exported c exports in
              r ← readFileIfExists (etcExports env);
              match r with
              | (_, Some err) => mret (Some err, c)
              | (originalContents, None) =>
                  let mountpaths : gset string :=
                    {[exportsDir env; Join2 (exportsDir env) (exportedName c)]} in
                  let filteredContent := filterContent mountpaths originalContents in
                  e4 ← atomicfile_WriteFile
                         (etcExports env)
                         (fileContents filteredContent serviced_exports) perm0664;
                  mret (e4, c)
              end
          end
      end
  end.

(** [umountImp], the value of the variable [umount]. *)
Definition umountImp (localPath : string) : M (option error) :=
  '(output, err) ← CombinedOutput "umount" ["-f"; localPath];
  match err with
  | Some e => mret (Some (Errorf (output +:+ " (" +:+ error_string e +:+ ")")))
  | None => mret None
  end.

Definition umount := umountImp.

(** The loop of [cleanupBindMounts] over the directory entries. *)
Fixpoint cleanup_loop (c : Server) (edir : string) (dirContents : list FileInfo)
  : M unit :=
  match dirContents with
  | [] => mret tt
  | file :: rest =>
      if bool_decide (fi_Name file ∉ exported c) && fi_IsDir file then
        let dir := Join2 edir (fi_Name file) in
        r ← isBindMounted dir;
        match r with
        | (_, Some _) => cleanup_loop c edir rest
        | (mounted, None) =>
            e ← (if mounted : bool then umount dir else mret (M := M) None);
            match e with
            | Some _ => cleanup_loop c edir rest
            | None =>
                _ ← os_RemoveAll dir;
                cleanup_loop c edir rest
            end
        end
      else cleanup_loop c edir rest
  end.

(** [cleanupBindMounts]. *)
Definition cleanupBindMounts (c : Server) : M unit :=
  let edir := Join2 (exportsDir env) (exportedName c) in
  r ← ioutil_ReadDir edir;
  match r with
  | inr _ => mret tt
  | inl dirContents => cleanup_loop c edir dirContents
  end.

(** [Sync]. *)
Definition Sync (c : Server) : M (option error * Server) :=
  e1 ← hostsDeny c;
  match e1 with
  | Some err => mret (Some err, c)
  | None =>
      e2 ← hostsAllow c;
      match e2 with
      | Some err => mret (Some err, c)
      | None =>
          '(e3, c) ← writeExports c;
          match e3 with
          | Some err => mret (Some err, c)
          | None =>
              e4 ← start;
              match e4 with
              | Some err => mret (Some err, c)
              | None =>
                  e5 ← reload;
                  match e5 with
                  | Some err => mret (Some err, c)
                  | None =>
                      _ ← cleanupBindMounts c;
                      mret (None, c)
                  end
              end
          end
      end
  end.

(** [Restart]. *)
Definition Restart (c : Server) : M (option error * Server) :=
  e1 ← hostsDeny c;
  match e1 with
  | Some err => mret (Some err, c)
  | None =>
      e2 ← hostsAllow c;
      match e2 with
      | Some err => mret (Some err, c)
      | None =>
          '(e3, c) ← writeExports c;
          match e3 with
          | Some err => mret (Some err, c)
          | None =>
              e4 ← restart;
              match e4 with
              | Some err => mret (Some err, c)
              | None =>
                  _ ← cleanupBindMounts c;
                  mret (None, c)
              end
          end
      end
  end.

(** [Stop]. *)
Definition Stop (c : Server) : M (option error) := stop.

End WithEnv.

(** The base name [writeExports] derives from a volume path, and the lines
    it formats for the volumes in the order it visits them. *)
Definition baseName (volume : string) : string := (Split (Clean volume)).2.

Definition exportLines (edir network : string) (vols : list string) : string :=
  foldr String.append ""
        ((fun volume => exportLine (Join2 edir (baseName volume)) network) <$> vols).

(** The network as [writeExports] prints it. *)
Definition printedNetwork (c : Server) : string :=
  if decide (network c = "0.0.0.0/0") then "*" else network c.


(** What [cleanupBindMounts] does for one entry of the export directory. *)
Definition stale_entry (c : Server) (file : FileInfo) : Prop :=
  fi_Name file ∉ exported c ∧ fi_IsDir file = true.

Inductive entry_trace (env : Env) (c : Server) (edir : string) (file : FileInfo)
  : list Event -> Prop :=
| entry_left_alone :
    ¬ stale_entry c file →
    entry_trace env c edir file []
| entry_check_failed h e :
    stale_entry c file →
    env_ReadMounts env h = inr e → error_string e ≠ "not found" →
    entry_trace env c edir file [EvReadMounts (inr e)]
| entry_removed mounts r :
    stale_entry c file → Join2 edir (fi_Name file) ∉ Dst <$> mounts →
    entry_trace env c edir file
                [EvReadMounts (inl mounts); EvRemoveAll (Join2 edir (fi_Name file)) r]
| entry_removed_unknown e r :
    stale_entry c file → error_string e = "not found" →
    entry_trace env c edir file
                [EvReadMounts (inr e); EvRemoveAll (Join2 edir (fi_Name file)) r]
| entry_umount_failed h mounts out e :
    stale_entry c file → Join2 edir (fi_Name file) ∈ Dst <$> mounts →
    env_Exec env h "umount" ["-f"; Join2 edir (fi_Name file)] = (out, Some e) →
    entry_trace env c edir file
                [EvReadMounts (inl mounts);
                 EvExec "umount" ["-f"; Join2 edir (fi_Name file)] out (Some e)]
| entry_unmounted_removed mounts out r :
    stale_entry c file → Join2 edir (fi_Name file) ∈ Dst <$> mounts →
    entry_trace env c edir file
                [EvReadMounts (inl mounts);
                 EvExec "umount" ["-f"; Join2 edir (fi_Name file)] out None;
                 EvRemoveAll (Join2 edir (fi_Name file)) r].

End NFS.

(** ** Package nfs: which calls a step may make *)

Module NFSSteps.
Import GoStrings GoPath NFS.

(** A look at, a read of or a write to the file [path]. *)
Definition on_file (path : string) (ev : Event) : bool :=
  match ev with
  | EvStat p _ | EvReadFile p _ | EvWriteFile p _ _ _ => bool_decide (p = path)
  | _ => false
  end.

(** A call of the platform's [start], [reload], [restart] or [stop]. *)
Definition is_service (ev : Event) : bool :=
  match ev with EvService _ _ => true | _ => false end.

(** A call [bindMount] makes: reading the mount table, creating the
    destination, asking for the user id, running [mount] (through [sudo]
    when not root). *)
Definition bind_mount_step (ev : Event) : bool :=
  match ev with
  | EvReadMounts _ | EvGetuid _ => true
  | EvMkdirAll _ perm _ => bool_decide (perm = perm0775)
  | EvExec cmd args _ _ =>
      bool_decide (cmd = "mount" ∨ cmd = "sudo" ∧ head args = Some "mount")
  | _ => false
  end.

(** A call [cleanupBindMounts] makes. *)
Definition cleanup_step (ev : Event) : bool :=
  match ev with
  | EvReadDir _ _ | EvReadMounts _ | EvRemoveAll _ _ => true
  | EvExec cmd _ _ _ => bool_decide (cmd = "umount")
  | _ => false
  end.

(** A call that takes something away: a removal or an unmounting. *)
Definition removes (ev : Event) : bool :=
  match ev with
  | EvRemoveAll _ _ => true
  | EvExec cmd args _ _ =>
      bool_decide (cmd = "umount" ∨ cmd = "sudo" ∧ head args = Some "umount")
  | _ => false
  end.

(** A call that changes the machine. *)
Definition modifies (ev : Event) : bool :=
  match ev with
  | EvMkdirAll _ _ _ | EvChmod _ _ _ | EvWriteFile _ _ _ _ | EvRemoveAll _ _
  | EvExec _ _ _ _ | EvService _ _ => true
  | _ => false
  end.

(** The calls of [Sync] and of [Restart], one step after the other. *)
Definition phases (env : Env) (evs deny allow exports services cleanup : list Event)
  : Prop :=
  evs = deny ++ allow ++ exports ++ services ++ cleanup ∧
  Forall (fun ev => on_file (etcHostsDeny env) ev = true) deny ∧
  Forall (fun ev => on_file (etcHostsAllow env) ev = true) allow ∧
  Forall (fun ev => bind_mount_step ev || on_file (etcExports env) ev = true) exports ∧
  Forall (fun ev => cleanup_step ev = true) cleanup.

(** What [NewServer] may do: look at, create or change the mode of one of
    its two directories, and start the service. *)
Definition new_server_step (env : Env) (basePath exportedName : string) (ev : Event)
  : Prop :=
  match ev with
  | EvStat p _ => p = basePath ∨ p = Join2 (exportsDir env) exportedName
  | EvMkdirAll p perm _ | EvChmod p perm _ =>
      (p = basePath ∨ p = Join2 (exportsDir env) exportedName) ∧
      perm = defaultDirectoryPerm
  | EvService act _ => act = ActStart
  | _ => False
  end.

(** The path an operation on the desired set names. *)
Definition op_path (op : volume_op) : string :=
  match op with OpAddVolume p | OpRemoveVolume p => p end.

(** The path a removal or an unmounting of [cleanupBindMounts] names. *)
Definition cleanup_target (ev : Event) : option string :=
  match ev with
  | EvRemoveAll p _ => Some p
  | EvExec _ [_; p] _ _ => Some p
  | _ => None
  end.

End NFSSteps.

(** ** Package dfs: creating a volume and exporting it *)

Module DFS.
Import GoStrings GoPath NFS.

(** Modelled from the spec: the struct [DistributedFilesystem] is declared
    in a file that is not among the sources; its field [disk] is a volume
    driver and its field [net] is the export synchronizer, into whose
    desired set "the Creation Facade's calls push volume paths".

    [Create] of dfs/create.go.  The result is the error returned and the
    synchronizer as the call leaves it. *)
Definition Create (env : Env) (disk : Volume.Driver) (net : Server) (tenantID : string)
  : M (option Volume.error * Server) :=
  match Volume.Create disk tenantID with
  | inr err => mret (Some err, net)
  | inl vol =>
      let '(_, net) := AddVolume (Volume.vol_Path vol) net in
      '(_, net) ← Sync env net;
      mret (None, net)
  end.
End DFS.

(** ** Concrete registries and machines *)

Module Fixtures.
Import GoStrings GoPath PathSpec.

(** A driver of the plain-directory backend that holds one volume, and its
    constructor. *)
Definition rsyncDriver (root : string) : Volume.Driver :=
  Volume.mkDriver
    root Volume.DRIVER_RSYNC
    (fun name => bool_decide (name = "tenant0"))
    (fun name => inl (Volume.mkVolume name (Join2 root name)))
    (fun name => inl (Volume.mkVolume name (Join2 root name))).

Definition rsyncInit : Volume.DriverInit := fun root _ => inl (rsyncDriver root).

Definition btrfsInit : Volume.DriverInit :=
  fun root _ => inl (Volume.mkDriver root Volume.DRIVER_BTRFS (fun _ => false)
                       (fun _ => inr Volume.ErrDriverNotInit)
                       (fun name => inl (Volume.mkVolume name (Join2 root name)))).

(** The registry after both backends have been registered. *)
Definition reg_kinds : Volume.Registry :=
  (Volume.Register Volume.DRIVER_BTRFS (Some btrfsInit)
     (Volume.Register Volume.DRIVER_RSYNC (Some rsyncInit) Volume.init).2).2.

(** A machine on which every root holds the directory of one volume on a
    file system that is not btrfs: detection finds the rsync backend. *)
Definition fs_rsync_volume : Volume.FS :=
  Volume.mkFS (fun _ => None)
              (fun _ => inl ["tenant0"])
              (fun _ => inl 0xEF53)
              (inl "0")
              None
              (fun _ _ => Some (Volume.EOTHER "not a subvolume")).

(** A machine on which every root is an empty directory. *)
Definition fs_fresh : Volume.FS :=
  Volume.mkFS (fun _ => None)
              (fun _ => inl [])
              (fun _ => inl 0xEF53)
              (inl "0")
              None
              (fun _ _ => Some (Volume.EOTHER "not a subvolume")).

(** A machine on which no root exists. *)
Definition fs_absent : Volume.FS :=
  Volume.mkFS (fun _ => Some Volume.ENOENT)
              (fun _ => inr Volume.ENOENT)
              (fun _ => inr Volume.ENOENT)
              (inl "0")
              None
              (fun _ _ => Some (Volume.EOTHER "not a subvolume")).

(** The registry with the root [/a] bound, and with [/a/b] bound as well. *)
Definition reg_a : Volume.Registry :=
  Volume.mkRegistry (Volume.drivers reg_kinds) {[ "/a" := rsyncDriver "/a" ]}.

Definition reg_ab : Volume.Registry :=
  Volume.mkRegistry (Volume.drivers reg_kinds)
                    (<[ "/a/b" := rsyncDriver "/a/b" ]> {[ "/a" := rsyncDriver "/a" ]}).

(** The registry with the root [/] bound. *)
Definition reg_slash : Volume.Registry :=
  Volume.mkRegistry (Volume.drivers reg_kinds) {[ "/" := rsyncDriver "/" ]}.

(** A machine for the synchronizer whose answers do not depend on the
    history: the files it holds, its mount table, the entries of every
    directory, the outcome of commands and of writing a file, and the order
    of [range] loops. *)
Definition ascending (s : gset string) : list string := sort_Strings (elements s).

Definition ascending_perm (h : NFS.Hist) (s : gset string) :
  ascending s ≡ₚ elements s :=
  merge_sort_Permutation String.le (elements s).

Definition machine (files : gmap string string) (mounts : list NFS.mountInstance)
           (entries : list NFS.FileInfo)
           (exec : string -> list string -> string * option NFS.error)
           (write : string -> option NFS.error) : NFS.Env :=
  NFS.mkEnv
    "/exports" "/etc/hosts.deny" "/etc/hosts.allow" "/etc/exports"
    (fun _ path => match files !! path with
                   | Some _ => NFS.StatInfo false 0x1A4
                   | None => NFS.StatNotExist
                   end)
    (fun _ _ _ => None)
    (fun _ _ _ => None)
    (fun _ path => match files !! path with
                   | Some s => inl s
                   | None => inr (NFS.ErrOS "no such file or directory")
                   end)
    (fun _ path _ _ => write path)
    (fun _ => inl mounts)
    (fun _ _ => inl entries)
    (fun _ _ => None)
    (fun _ => 0)
    (fun _ => exec)
    (fun _ _ => None)
    (fun e => match e with NFS.ErrExit _ status => (status, true) | _ => (0, false) end)
    (fun _ => true)
    (fun _ => ascending)
    ascending_perm.

Definition exec_ok : string -> list string -> string * option NFS.error :=
  fun _ _ => ("", None).

Definition write_ok : string -> option NFS.error := fun _ => None.

(** The server of the spec's scenario. *)
Definition server0 : NFS.Server :=
  NFS.mkServer "/data/volumes" "shares" "rw,insecure,no_subtree_check,async"
               "10.0.0.0/24" ∅ ∅ ∅.

(** The machine on which nothing fails and nothing exists yet, and the
    server of the scenario with two clients and one volume. *)
Definition machine0 : NFS.Env := machine ∅ [] [] exec_ok write_ok.

Definition server1 : NFS.Server :=
  foldl NFS.apply_volume_op
        (NFS.SetClients ["10.0.0.7"; "10.0.0.12"; "10.0.0.7"] server0)
        [NFS.OpAddVolume "/data/volumes/tenant1"].

(** A mount command that fails with exit status 32 unless it is given the
    option [remount]; an unmount command that fails. *)
Definition exec_stale : string -> list string -> string * option NFS.error :=
  fun _ args =>
    if decide ("remount" ∈ args) then ("", None)
    else ("mount: Stale file handle", Some (NFS.ErrExit "exit status 32" 32)).

Definition exec_umount_fails : string -> list string -> string * option NFS.error :=
  fun cmd _ =>
    if decide (cmd = "umount")
    then ("umount: target is busy", Some (NFS.ErrExit "exit status 32" 32))
    else ("", None).

(** Writing the exports file fails, writing any other file succeeds. *)
Definition write_exports_fails : string -> option NFS.error :=
  fun path =>
    if decide (path = "/etc/exports")
    then Some (NFS.ErrOS "no space left on device") else None.

Definition machine_stale : NFS.Env := machine ∅ [] [] exec_stale write_ok.
Definition machine_disk_full : NFS.Env := machine ∅ [] [] exec_ok write_exports_fails.

(** The export directory holds a directory [old] that is not exported:
    once not mounted, once bind-mounted with an unmount that fails. *)
Definition machine_old_dir : NFS.Env :=
  machine ∅ [] [NFS.mkFileInfo "old" true; NFS.mkFileInfo "tenant1" true]
          exec_ok write_ok.
Definition machine_old_busy : NFS.Env :=
  machine ∅ [NFS.mkMount "/data/volumes/old" "/exports/shares/old"]
          [NFS.mkFileInfo "old" true; NFS.mkFileInfo "tenant1" true]
          exec_umount_fails write_ok.

(** The server after a reconciliation that exported [tenant1]. *)
Definition server2 : NFS.Server := NFS.set_exported server1 {["tenant1"]}.

(** An exports file with lines of the operator around a managed section. *)
Definition exports_before : string :=
  NFS.unlines ["/srv/nfs 192.168.0.0/24(ro)";
               "  /exports   *(rw)  ";
               "";
               "# --- SERVICED EXPORTS BEGIN ---";
               "# --- Do not edit this section";
               "/exports/shares/old" +:+ NFS.tab +:+ "*(rw)";
               "";
               "# --- SERVICED EXPORTS END ---";
               "/exports/shares 10.0.0.0/8(rw)"].

Definition machine_exports : NFS.Env :=
  machine {[ "/etc/exports" := exports_before ]} [] [] exec_ok write_ok.

(** An exports file of one indented line and no managed section. *)
Definition exports_indented : string := NFS.unlines ["  /srv/nfs *(ro)"].

Definition machine_indented : NFS.Env :=
  machine {[ "/etc/exports" := exports_indented ]} [] [] exec_ok write_ok.


(** An exports file whose first line is too long for the scanner, followed
    by a line for the export root. *)
Fixpoint str_repeat (n : nat) (c : ascii) : string :=
  match n with
  | O => EmptyString
  | S n' => String c (str_repeat n' c)
  end.

Definition exports_long : string :=
  str_repeat (Z.to_nat GoStrings.MaxScanTokenSize) "a" +:+ NFS.nl +:+
  "/exports *(rw)" +:+ NFS.nl.

Definition machine_long : NFS.Env :=
  machine {[ "/etc/exports" := exports_long ]} [] [] exec_ok write_ok.

(** An exports file with a line for the export root inside the managed
    section and one behind it; and a file whose managed section has no end
    marker. *)
Definition exports_inside : string :=
  NFS.unlines ["/srv/nfs *(ro)";
               "";
               "# --- SERVICED EXPORTS BEGIN ---";
               "# --- Do not edit this section";
               "/exports *(rw)";
               "";
               "# --- SERVICED EXPORTS END ---";
               "/exports 10.0.0.0/8(rw)"].

Definition machine_inside : NFS.Env :=
  machine {[ "/etc/exports" := exports_inside ]} [] [] exec_ok write_ok.

Definition exports_open : string :=
  NFS.unlines ["/srv/nfs *(ro)";
               "";
               "# --- SERVICED EXPORTS BEGIN ---";
               "# --- Do not edit this section";
               "/exports *(rw)"].

Definition machine_open : NFS.Env :=
  machine {[ "/etc/exports" := exports_open ]} [] [] exec_ok write_ok.

End Fixtures.

(** ** Concrete runs of registry calls *)

Module OpsFixtures.
Import GoStrings GoPath PathSpec Volume VolumeOps Fixtures.

(** Registering the rsync backend and binding it to [/data], the root
    being spelled with a detour. *)
Definition ops_bind_data : list registry_op :=
  [OpRegister DRIVER_RSYNC (Some rsyncInit);
   OpInitDriver (DetectDriverType fs_rsync_volume) DRIVER_RSYNC "/data//x/.." []].

Definition reg_data : Registry :=
  mkRegistry {[ DRIVER_RSYNC := rsyncInit ]} {[ "/data" := rsyncDriver "/data" ]}.

(** The registry [reg_kinds] with [/data] bound to the rsync backend. *)
Definition reg_kinds_data : Registry :=
  mkRegistry (drivers reg_kinds) {[ "/data" := rsyncDriver "/data" ]}.

(** The bound roots of [reg_ab] as a [range] loop may visit them. *)
Definition visited_ab : list (string * Driver) :=
  [("/a/b", rsyncDriver "/a/b"); ("/a", rsyncDriver "/a")].

End OpsFixtures.

(** ** Machines with access files *)

Module HostsFixtures.
Import GoStrings GoPath NFS Fixtures.

(** An access-allow file of the operator, without a managed block. *)
Definition allow_before : string := unlines ["sshd : 192.168.0."].

Definition machine_allow : Env :=
  machine {[ "/etc/hosts.allow" := allow_before ]} [] [] exec_ok write_ok.

(** An access-allow file that starts with the marker line. *)
Definition allow_marker_first : string := unlines [hostAllowMarker; "ALL : ALL"].

Definition machine_allow_first : Env :=
  machine {[ "/etc/hosts.allow" := allow_marker_first ]} [] [] exec_ok write_ok.

(** A driver whose [Create] makes the volume directory under [/data/volumes]. *)
Definition disk_data : Volume.Driver := rsyncDriver "/data/volumes".

End HostsFixtures.

(** ** The library models on the examples of the Go documentation *)

Module GoExamples.
Import GoStrings GoPath NFS.

Example Clean_doc :
  Clean <$> ["a/c"; "a//c"; "a/c/."; "a/c/b/.."; "/../a/c"; "/../a/b/../././/c"; "";
             "../../x"; "/"; "a/../.."; "/a/b/"]
  = ["a/c"; "a/c"; "a/c"; "a/c"; "/a/c"; "/a/c"; "."; "../../x"; "/"; ".."; "/a/b"].
Proof. reflexivity. Qed.

Example Split_doc :
  Split <$> ["static/myfile.css"; "myfile.css"; ""; "/a"; "/a/b/"]
  = [("static/", "myfile.css"); ("", "myfile.css"); ("", ""); ("/", "a"); ("/a/b/", "")].
Proof. reflexivity. Qed.

Example Dir_doc :
  Dir <$> ["/foo/bar/baz.js"; "/foo/bar/baz"; "/foo/bar/baz/"; "/dirty//path///";
           "dev.txt"; "../todo.txt"; ".."; "."; "/"; ""; "/a"]
  = ["/foo/bar"; "/foo/bar"; "/foo/bar/baz"; "/dirty/path"; "."; ".."; "."; "."; "/";
     "."; "/"].
Proof. reflexivity. Qed.

Example Join_doc :
  [Join2 "a" "b/c"; Join2 "a/b" "c"; Join2 "a/b" "/c"; Join2 "a/b" "../../../xyz";
   Join2 "" ""; Join2 "a" ""; Join2 "" "a"; Join2 "/exports" "shares"]
  = ["a/b/c"; "a/b/c"; "a/b/c"; "../xyz"; ""; "a"; "a"; "/exports/shares"].
Proof. reflexivity. Qed.

Example Rel_doc :
  [Rel "/a" "/a/b/c"; Rel "/a" "/b/c"; Rel "/a" "./b/c"; Rel "/a" "/a";
   Rel "/" "/a/b"; Rel "/a/b" "/a"; Rel "a/b" "a/b/c/d"; Rel "../x" "y"]
  = [Some "b/c"; Some "../b/c"; None; Some "."; Some "a/b"; Some ".."; Some "c/d";
     None].
Proof. reflexivity. Qed.

Example Index_doc :
  [Index "chicken" "ken"; Index "chicken" "dmr"; Index "chicken" ""; Index "" "a"]
  = [4; -1; 0; -1].
Proof. reflexivity. Qed.

Example TrimSpace_doc :
  TrimSpace (" " +:+ tab +:+ nl +:+ " Hello, Gophers " +:+ nl +:+ tab +:+ " ")
  = "Hello, Gophers".
Proof. reflexivity. Qed.

Example Fields_doc :
  Fields "  foo bar  baz   " = ["foo"; "bar"; "baz"] ∧
  Fields ("/exports" +:+ tab +:+ "*(rw)") = ["/exports"; "*(rw)"] ∧
  Fields "   " = [].
Proof. repeat split. Qed.

Example scanLines_doc :
  scanLines ("a" +:+ nl +:+ nl +:+ "b" +:+ String "013" nl +:+ "c")
  = ["a"; ""; "b"; "c"] ∧
  scanLines "" = [] ∧ scanLines nl = [""].
Proof. repeat split. Qed.

Example sort_Strings_doc :
  sort_Strings ["Go"; "Bravo"; "Gopher"; "Alpha"; "Grin"; "Delta"; "10.0.0.7"; "10.0.0.12"]
  = ["10.0.0.12"; "10.0.0.7"; "Alpha"; "Bravo"; "Delta"; "Go"; "Gopher"; "Grin"].
Proof. reflexivity. Qed.

Example mount_cmdline_doc :
  mount_cmdline 0 "/src" "/dst" "" ["bind"; "remount"]
  = ("mount", ["-o"; "bind"; "-o"; "remount"; "/src"; "/dst"]) ∧
  mount_cmdline 1000 "/src" "/dst" "ext4" []
  = ("sudo", ["mount"; "-t"; "ext4"; "/src"; "/dst"]).
Proof. split; reflexivity. Qed.

End GoExamples.

Module GoPathFacts.
Import GoStrings GoPath PathSpec.

Lemma append_cons c a b : String c a +:+ b = String c (a +:+ b).
Proof. reflexivity. Qed.
Lemma append_nil b : "" +:+ b = b.
Proof. reflexivity. Qed.

Lemma append_assoc (a b c : string) : (a +:+ b) +:+ c = a +:+ b +:+ c.
Proof. induction a as [|x a IH]; [done|]. rewrite !append_cons. by f_equal. Qed.

Lemma append_empty_r (a : string) : a +:+ "" = a.
Proof. induction a as [|x a IH]; [done|]. rewrite append_cons. by f_equal. Qed.

Lemma length_append (a b : string) :
  String.length (a +:+ b) = (String.length a + String.length b)%nat.
Proof. induction a as [|x a IH]; [done|]. rewrite append_cons. simpl. by f_equal. Qed.

Lemma splitSlash_nonempty s : splitSlash s ≠ [].
Proof.
  destruct s as [|c r]; [done|]. simpl.
  destruct (Ascii.eqb c "/"); [done|]. by destruct (splitSlash r).
Qed.

Lemma splitSlash_app_slash a b :
  splitSlash (a +:+ String "/" b) = splitSlash a ++ splitSlash b.
Proof.
  induction a as [|c a IH]; [done|].
  rewrite append_cons. simpl. rewrite IH.
  destruct (Ascii.eqb c "/"); [done|].
  pose proof (splitSlash_nonempty a). by destruct (splitSlash a).
Qed.

Lemma no_slash_cons c v :
  no_slash (String c v) ↔ Ascii.eqb c "/" = false ∧ no_slash v.
Proof.
  unfold no_slash. simpl. destruct (Ascii.eqb c "/") eqn:E.
  - split; [intros [=]|by intros [? _]].
  - pose proof (splitSlash_nonempty v).
    destruct (splitSlash v) as [|h t] eqn:Ev; [done|].
    split.
    + intros [= -> ->]. done.
    + intros [_ [= -> ->]]. done.
Qed.

Lemma splitSlash_no_slash s : Forall no_slash (splitSlash s).
Proof.
  induction s as [|c r IH]; [by repeat constructor|].
  simpl. destruct (Ascii.eqb c "/") eqn:E.
  - constructor; [done|done].
  - pose proof (splitSlash_nonempty r).
    destruct (splitSlash r) as [|h t]; [done|].
    inversion IH; subst. constructor; [|done].
    by apply no_slash_cons.
Qed.

Lemma Join_cons2 x y l :
  Join (x :: y :: l) "/" = x +:+ String "/" (Join (y :: l) "/").
Proof. reflexivity. Qed.

Lemma splitSlash_Join segs :
  segs ≠ [] → Forall no_slash segs → splitSlash (Join segs "/") = segs.
Proof.
  induction segs as [|x [|y l] IH]; intros Hne Hall; [done| |].
  - by inversion Hall.
  - rewrite Join_cons2, splitSlash_app_slash.
    inversion Hall as [|?? Hx Hl]; subst.
    rewrite IH by done. by rewrite Hx.
Qed.


Lemma proper_no_slash v : proper v → no_slash v.
Proof. by intros [? _]. Qed.

Lemma Forall_proper_no_slash segs : Forall proper segs → Forall no_slash segs.
Proof. intros H. eapply Forall_impl; [exact H|]. apply proper_no_slash. Qed.

Lemma splitSlash_abs_of segs :
  Forall no_slash segs →
  splitSlash (abs_of segs) = "" :: (if decide (segs = []) then [""] else segs).
Proof.
  intros Hall. unfold abs_of. simpl. f_equal.
  case_decide as Hs; [by subst|]. by apply splitSlash_Join.
Qed.

Lemma clean_step_proper rooted st v :
  proper v → clean_step rooted st v = v :: st.
Proof.
  intros (_ & ? & ? & ?). unfold clean_step.
  rewrite decide_False by (by intros [?|?]). by rewrite decide_False.
Qed.

Lemma fold_clean_proper rooted segs st :
  Forall proper segs →
  fold_left (clean_step rooted) segs st = rev segs ++ st.
Proof.
  revert st. induction segs as [|v segs IH]; intros st Hall; [done|].
  inversion Hall; subst. simpl. rewrite clean_step_proper by done.
  rewrite IH by done. by rewrite <- app_assoc.
Qed.

Lemma clean_elems_proper rooted segs :
  Forall proper segs → clean_elems rooted segs = segs.
Proof.
  intros. unfold clean_elems. rewrite fold_clean_proper by done.
  by rewrite app_nil_r, rev_involutive.
Qed.

Lemma clean_elems_skip rooted segs :
  clean_elems rooted ("" :: segs) = clean_elems rooted segs.
Proof. reflexivity. Qed.

Lemma clean_elems_snoc_empty rooted segs :
  clean_elems rooted (segs ++ [""]) = clean_elems rooted segs.
Proof. unfold clean_elems. by rewrite fold_left_app. Qed.

Lemma HasPrefix_abs_of segs : HasPrefix (abs_of segs) "/" = true.
Proof. unfold abs_of, HasPrefix. simpl. by destruct (Join _ _). Qed.

(** A rooted path made of proper elements is clean. *)
Lemma Clean_abs_of segs : Forall proper segs → Clean (abs_of segs) = abs_of segs.
Proof.
  intros Hall. unfold Clean. rewrite HasPrefix_abs_of.
  rewrite splitSlash_abs_of by by apply Forall_proper_no_slash.
  rewrite clean_elems_skip. case_decide as Hs.
  - subst. reflexivity.
  - by rewrite clean_elems_proper.
Qed.

Lemma IsAbs_abs_of segs : IsAbs (abs_of segs) = true.
Proof. apply HasPrefix_abs_of. Qed.

(** In a rooted path [Clean] keeps proper elements only. *)
Lemma fold_clean_rooted_proper segs st :
  Forall no_slash segs → Forall proper st →
  Forall proper (fold_left (clean_step true) segs st).
Proof.
  revert st. induction segs as [|v segs IH]; intros st Hns Hst; [done|].
  inversion Hns; subst. simpl. apply IH; [done|].
  unfold clean_step. repeat case_decide; try done.
  - destruct st as [|top rest]; [done|]. inversion Hst as [|?? Htop ?]; subst.
    case_decide; [|done]. subst. by destruct Htop as (_ & _ & _ & ?).
  - constructor; [|done]. unfold proper. naive_solver.
Qed.

Lemma Clean_rooted p :
  IsAbs p = true →
  ∃ segs, Forall proper segs ∧ Clean p = abs_of segs.
Proof.
  intros Habs. exists (clean_elems true (splitSlash p)). split.
  - unfold clean_elems. apply Forall_rev.
    apply fold_clean_rooted_proper; [apply splitSlash_no_slash|constructor].
  - unfold Clean. unfold IsAbs in Habs. by rewrite Habs.
Qed.


Lemma IsAbs_Clean p : IsAbs p = true → IsAbs (Clean p) = true.
Proof.
  intros E. destruct (Clean_rooted p E) as (segs & _ & ->). apply IsAbs_abs_of.
Qed.

Lemma abs_of_nil : abs_of [] = "/".
Proof. reflexivity. Qed.

Lemma abs_of_snoc segs v :
  abs_of (segs ++ [v]) =
  (if decide (segs = []) then "" else abs_of segs) +:+ String "/" v.
Proof.
  case_decide as Hs; [by subst|].
  unfold abs_of. rewrite append_cons. f_equal.
  induction segs as [|x [|y l] IH]; [done|done|].
  change ((x :: y :: l) ++ [v]) with (x :: y :: (l ++ [v])).
  rewrite !Join_cons2. rewrite append_assoc. rewrite append_cons. do 2 f_equal.
  by apply IH.
Qed.

Lemma Split_app_slash a v :
  no_slash v → Split (a +:+ String "/" v) = (a +:+ "/", v).
Proof.
  intros Hv.
  assert (Hsv : Split v = ("", v)).
  { clear a. induction v as [|c v IH]; [done|].
    apply no_slash_cons in Hv as [Hc Hv]. simpl. rewrite (IH Hv). by rewrite Hc. }
  induction a as [|c a IH].
  - rewrite append_nil. simpl. by rewrite Hsv.
  - rewrite !(append_cons c a). simpl. rewrite IH.
    destruct (a +:+ "/") eqn:E; [|done].
    by destruct a.
Qed.

Lemma splitSlash_snoc_slash a : splitSlash (a +:+ "/") = splitSlash a ++ [""].
Proof. by rewrite splitSlash_app_slash. Qed.

(** [Dir] drops the last element of a clean rooted path. *)
Lemma Dir_abs_of_snoc segs v :
  Forall proper segs → proper v → Dir (abs_of (segs ++ [v])) = abs_of segs.
Proof.
  intros Hall Hv. unfold Dir. rewrite abs_of_snoc.
  rewrite Split_app_slash by by apply proper_no_slash. simpl.
  case_decide as Hs; [by subst|].
  unfold Clean. unfold HasPrefix. rewrite splitSlash_snoc_slash.
  replace (String.prefix "/" (abs_of segs +:+ "/")) with true
    by (unfold abs_of; rewrite append_cons; simpl; by destruct (_ +:+ _)).
  rewrite clean_elems_snoc_empty.
  rewrite splitSlash_abs_of by by apply Forall_proper_no_slash.
  rewrite clean_elems_skip. rewrite decide_False by done.
  by rewrite clean_elems_proper.
Qed.

Lemma Dir_root : Dir "/" = "/".
Proof. reflexivity. Qed.

Lemma abs_of_inj a b :
  Forall proper a → Forall proper b → abs_of a = abs_of b → a = b.
Proof.
  intros Ha Hb E. apply (f_equal splitSlash) in E.
  rewrite !splitSlash_abs_of in E by by apply Forall_proper_no_slash.
  injection E as E. repeat case_decide; subst; try done.
  - inversion Hb as [|?? (_ & ? & _) ?]; by subst.
  - inversion Ha as [|?? (_ & ? & _) ?]; by subst.
Qed.

Lemma strip_common_prefix a b : strip_common a (a ++ b) = ([], b).
Proof. induction a as [|x a IH]; [by destruct b|]. simpl. by rewrite decide_True. Qed.

Lemma rel_elems_abs_of segs :
  Forall proper segs →
  rel_elems (abs_of segs) = "" :: segs.
Proof.
  intros Hall. unfold rel_elems.
  destruct segs as [|x l]; [done|].
  rewrite decide_False by done.
  rewrite decide_False.
  2:{ intros E. change "/" with (abs_of []) in E.
      by apply abs_of_inj in E. }
  rewrite splitSlash_abs_of by by apply Forall_proper_no_slash.
  by rewrite decide_False.
Qed.

(** [Rel] from a clean rooted path to a path strictly below it. *)
Lemma Rel_below a b p :
  Forall proper a → Forall proper b → b ≠ [] →
  Clean p = abs_of (a ++ b) →
  Rel (abs_of a) p = Some (Join b "/").
Proof.
  intros Ha Hb Hne Hp. unfold Rel. rewrite Hp, Clean_abs_of by done.
  assert (Hab : Forall proper (a ++ b)) by by apply Forall_app.
  rewrite decide_False.
  2:{ intros E. apply abs_of_inj in E; [|done..].
      apply (f_equal length) in E. rewrite length_app in E.
      destruct b; [done|]. simpl in E. lia. }
  rewrite decide_False by done.
  rewrite !HasPrefix_abs_of. simpl.
  rewrite !rel_elems_abs_of by done.
  change ("" :: a ++ b) with (("" :: a) ++ b).
  by rewrite strip_common_prefix.
Qed.


Lemma inits_snoc {A} (l : list A) x : inits (l ++ [x]) = inits l ++ [l ++ [x]].
Proof.
  induction l as [|y l IH]; [done|].
  simpl. f_equal. rewrite IH. by rewrite fmap_app.
Qed.

Lemma elem_of_inits {A} (l a : list A) : a ∈ inits l ↔ ∃ b, l = a ++ b.
Proof.
  revert a. induction l as [|x l IH]; intros a; simpl.
  - rewrite list_elem_of_singleton. split; [intros ->; by exists []|].
    intros [b Hb]. symmetry in Hb. by apply app_eq_nil in Hb as [-> _].
  - rewrite elem_of_cons, list_elem_of_fmap. split.
    + intros [->|(a' & -> & Ha')]; [by eexists|].
      apply IH in Ha' as [b ->]. by exists b.
    + intros [b Hb]. destruct a as [|y a]; [by left|]. right.
      injection Hb as -> ->. exists a. split; [done|]. apply IH. by eexists.
Qed.

Lemma path_elems_proper p : Forall proper (path_elems p).
Proof.
  unfold path_elems, clean_elems. apply Forall_rev.
  apply fold_clean_rooted_proper; [apply splitSlash_no_slash|constructor].
Qed.

Lemma Clean_path_elems p : IsAbs p = true → Clean p = abs_of (path_elems p).
Proof. intros Habs. unfold Clean. unfold IsAbs in Habs. by rewrite Habs. Qed.

Lemma path_elems_abs_of segs : Forall proper segs → path_elems (abs_of segs) = segs.
Proof.
  intros Hall. unfold path_elems.
  rewrite splitSlash_abs_of by by apply Forall_proper_no_slash.
  rewrite clean_elems_skip. case_decide; [by subst|]. by apply clean_elems_proper.
Qed.

(** Canonical roots: clean and absolute. *)
Lemma canonical_abs_of R :
  Clean R = R → IsAbs R = true → ∃ a, Forall proper a ∧ R = abs_of a.
Proof.
  intros Hc Ha. destruct (Clean_rooted R Ha) as (a & ? & E).
  exists a. split; [done|]. by rewrite <- Hc.
Qed.

Lemma Join_proper_nonempty segs :
  Forall proper segs → segs ≠ [] → Join segs "/" ≠ "".
Proof.
  intros Hall Hne. destruct segs as [|x [|y l]]; [done| |].
  - inversion Hall as [|?? (_ & ? & _) ?]; by subst.
  - rewrite Join_cons2. inversion Hall as [|?? (_ & ? & _) ?]; subst.
    by destruct x.
Qed.

Lemma length_Join_proper segs :
  Forall proper segs → (length segs ≤ String.length (Join segs "/"))%nat.
Proof.
  induction segs as [|x [|y l] IH]; intros Hall; [done| |].
  - inversion Hall as [|?? (_ & ? & _) ?]; subst. destruct x; [done|simpl; lia].
  - rewrite Join_cons2, length_append. inversion Hall; subst.
    specialize (IH ltac:(done)). simpl in *. lia.
Qed.

Lemma length_abs_of segs :
  Forall proper segs →
  (1 ≤ String.length (abs_of segs) ∧ length segs ≤ String.length (abs_of segs))%nat.
Proof.
  intros Hall. pose proof (length_Join_proper segs Hall).
  unfold abs_of. simpl. lia.
Qed.

Lemma abs_of_root_iff segs : Forall proper segs → abs_of segs = "/" ↔ segs = [].
Proof.
  intros Hall. split; [|by intros ->].
  intros E. change "/" with (abs_of []) in E. by apply abs_of_inj in E.
Qed.

(** Joining a clean rooted path and a relative path of proper elements. *)
Lemma Join2_abs_of a b :
  Forall proper a → Forall proper b → b ≠ [] →
  Join2 (abs_of a) (Join b "/") = abs_of (a ++ b).
Proof.
  intros Ha Hb Hne. unfold Join2. rewrite decide_False by done.
  change (abs_of a +:+ "/" +:+ Join b "/") with (abs_of a +:+ String "/" (Join b "/")).
  unfold Clean. unfold HasPrefix.
  replace (String.prefix "/" (abs_of a +:+ String "/" (Join b "/"))) with true
    by (unfold abs_of; rewrite append_cons; simpl; by destruct (_ +:+ _)).
  rewrite splitSlash_app_slash.
  rewrite splitSlash_abs_of by by apply Forall_proper_no_slash.
  rewrite splitSlash_Join by (try done; by apply Forall_proper_no_slash).
  rewrite <- app_comm_cons, clean_elems_skip.
  assert (clean_elems true ((if decide (a = []) then [""] else a) ++ b) = a ++ b) as ->; [|done].
  case_decide; subst.
  - simpl. rewrite clean_elems_skip. by apply clean_elems_proper.
  - apply clean_elems_proper. by apply Forall_app.
Qed.

End GoPathFacts.

Module VolumeFacts.
Import GoStrings GoPath PathSpec GoPathFacts Volume.

Lemma deepest_snoc reg l R :
  deepest reg (l ++ [R]) =
  if decide (is_Some (driversByRoot reg !! R)) then Some R else deepest reg l.
Proof.
  unfold deepest. rewrite filter_app, filter_cons, filter_nil.
  case_decide.
  - by rewrite last_snoc.
  - by rewrite app_nil_r.
Qed.

Lemma deepest_snoc_None reg l R :
  driversByRoot reg !! R = None → deepest reg (l ++ [R]) = deepest reg l.
Proof.
  intros H. rewrite deepest_snoc, H. apply decide_False. by intros [? ?].
Qed.

Lemma deepest_snoc_Some reg l R d :
  driversByRoot reg !! R = Some d → deepest reg (l ++ [R]) = Some R.
Proof. intros H. rewrite deepest_snoc, H. by apply decide_True. Qed.

Lemma deepest_root_None reg :
  driversByRoot reg !! "/" = None → deepest reg (abs_of <$> inits []) = None.
Proof.
  intros H. change (abs_of <$> inits []) with ([] ++ ["/"]).
  rewrite deepest_snoc, H. rewrite decide_False by by intros [? ?]. done.
Qed.

Lemma deepest_root_Some reg d :
  driversByRoot reg !! "/" = Some d → deepest reg (abs_of <$> inits []) = Some "/".
Proof.
  intros H. change (abs_of <$> inits []) with ([] ++ ["/"]).
  rewrite deepest_snoc, H. by rewrite decide_True.
Qed.

Lemma ancestors_snoc_elems a v :
  abs_of <$> inits (a ++ [v]) = (abs_of <$> inits a) ++ [abs_of (a ++ [v])].
Proof. by rewrite inits_snoc, fmap_app. Qed.

(** What the loop of [SplitPath] returns when it starts from the clean
    rooted path of elements [a], not bound itself, while the path being
    split has the elements [a ++ b]. *)
Lemma SplitPath_loop_spec reg a :
  ∀ b vp fuel,
    Forall proper a → Forall proper b →
    Clean vp = abs_of (a ++ b) →
    driversByRoot reg !! abs_of a = None →
    (1 ≤ fuel)%nat → (length a ≤ fuel)%nat →
    ∃ res, SplitPath_loop fuel reg (abs_of a) vp = Some res ∧
      match deepest reg (abs_of <$> inits a) with
      | None => res = ("", "", Some ErrDriverNotInit)
      | Some R => ∃ a1 a2, a = a1 ++ a2 ∧ a2 ≠ [] ∧ R = abs_of a1 ∧
                           res = (R, Join (a2 ++ b) "/", None)
      end.
Proof.
  induction a as [|v a IH] using rev_ind; intros b vp fuel Ha Hb Hvp Hun H1 Hlen.
  - destruct fuel as [|fuel]; [lia|]. cbn [SplitPath_loop].
    change (abs_of []) with "/" in *. rewrite Dir_root.
    rewrite Hun. rewrite decide_True by done.
    eexists; split; [done|]. by rewrite deepest_root_None.
  - apply Forall_app in Ha as [Ha Hv]. rewrite Forall_singleton in Hv.
    destruct fuel as [|fuel]; [lia|]. cbn [SplitPath_loop].
    rewrite Dir_abs_of_snoc by done.
    rewrite ancestors_snoc_elems, deepest_snoc_None by done.
    destruct (driversByRoot reg !! abs_of a) as [d|] eqn:Hd.
    + rewrite (Rel_below a (v :: b) vp); [|done|by constructor|done|].
      2:{ rewrite Hvp. by rewrite <- app_assoc. }
      eexists; split; [done|].
      destruct a as [|x a' _] using rev_ind.
      * rewrite (deepest_root_Some reg d) by done.
        exists [], [v]. done.
      * rewrite ancestors_snoc_elems, (deepest_snoc_Some _ _ _ d) by done.
        exists (a' ++ [x]), [v]. done.
    + case_decide as Hroot.
      * apply abs_of_root_iff in Hroot; [|done]. subst a.
        eexists; split; [done|]. by rewrite deepest_root_None.
      * assert (a ≠ []) by (intros ->; done).
        rewrite length_app in Hlen. simpl in Hlen.
        assert (Hvp' : Clean vp = abs_of (a ++ v :: b))
          by (rewrite Hvp; by rewrite <- app_assoc).
        assert (Hf1 : (1 ≤ fuel)%nat) by (destruct a; [done|]; simpl in *; lia).
        assert (Hf2 : (length a ≤ fuel)%nat) by lia.
        destruct (IH (v :: b) vp fuel Ha ltac:(by constructor) Hvp' eq_refl Hf1 Hf2)
          as (res & Hres & Hspec).
        exists res. split; [done|].
        destruct (deepest reg (abs_of <$> inits a)) as [R|]; [|done].
        destruct Hspec as (a1 & a2 & -> & Hne & -> & ->).
        exists a1, (a2 ++ [v]). rewrite <- !app_assoc. split; [done|].
        split; [by destruct a2|]. done.
Qed.


Lemma ancestors_last_Some reg a d :
  driversByRoot reg !! abs_of a = Some d →
  deepest reg (abs_of <$> inits a) = Some (abs_of a).
Proof.
  intros Hd. destruct a as [|v a _] using rev_ind.
  - by apply (deepest_root_Some reg d).
  - rewrite ancestors_snoc_elems. by apply (deepest_snoc_Some _ _ _ d).
Qed.

Lemma ancestors_last_None reg a :
  driversByRoot reg !! abs_of a = None →
  ∀ R, deepest reg (abs_of <$> inits a) = Some R → R ≠ abs_of a.
Proof.
  intros Hd R HR ->. unfold deepest in HR.
  apply last_Some_elem_of, list_elem_of_filter in HR as [[? HR] _].
  by rewrite Hd in HR.
Qed.

(** [SplitPath] on an absolute path: the deepest bound root at or above the
    cleaned path decides. *)
Lemma SplitPath_abs reg p :
  IsAbs p = true →
  ∃ res, SplitPath reg p = Some res ∧
    match deepest reg (ancestors p) with
    | None => res = ("", "", Some ErrDriverNotInit)
    | Some R =>
        if decide (R = Clean p) then res = (p, "", None)
        else ∃ v, v ≠ "" ∧ Join2 R v = Clean p ∧ res = (R, v, None)
    end.
Proof.
  intros Habs. unfold SplitPath, ancestors.
  rewrite (IsAbs_Clean p Habs). cbn [negb].
  rewrite (Clean_path_elems p Habs).
  pose proof (path_elems_proper p) as Ha. set (a := path_elems p) in *.
  destruct (driversByRoot reg !! abs_of a) as [d|] eqn:Hd.
  - eexists; split; [done|]. rewrite (ancestors_last_Some reg a d Hd).
    by rewrite decide_True.
  - destruct (length_abs_of a Ha) as [H1 H2].
    destruct (SplitPath_loop_spec reg a [] p (String.length (abs_of a)))
      as (res & Hres & Hspec); try done.
    { rewrite app_nil_r. by apply Clean_path_elems. }
    exists res. split; [done|].
    pose proof (ancestors_last_None reg a Hd) as Hlast.
    destruct (deepest reg (abs_of <$> inits a)) as [R|]; [|done].
    rewrite decide_False by by apply Hlast.
    destruct Hspec as (a1 & a2 & E & Hne & -> & ->).
    rewrite app_nil_r. exists (Join a2 "/"). rewrite E in Ha.
    apply Forall_app in Ha as [Ha1 Ha2].
    split; [by apply Join_proper_nonempty|]. split; [|done].
    rewrite E. by apply Join2_abs_of.
Qed.

(** The same with the remainder named: the elements of the cleaned path
    below the root, joined by slashes. *)
Lemma SplitPath_abs_elems reg p :
  IsAbs p = true →
  ∃ res, SplitPath reg p = Some res ∧
    match deepest reg (ancestors p) with
    | None => res = ("", "", Some ErrDriverNotInit)
    | Some R =>
        if decide (R = Clean p) then res = (p, "", None)
        else ∃ a1 a2, path_elems p = a1 ++ a2 ∧ a2 ≠ [] ∧ R = abs_of a1 ∧
                      res = (R, Join a2 "/", None)
    end.
Proof.
  intros Habs. unfold SplitPath, ancestors.
  rewrite (IsAbs_Clean p Habs). cbn [negb].
  rewrite (Clean_path_elems p Habs).
  pose proof (path_elems_proper p) as Ha. set (a := path_elems p) in *.
  destruct (driversByRoot reg !! abs_of a) as [d|] eqn:Hd.
  - eexists; split; [done|]. rewrite (ancestors_last_Some reg a d Hd).
    by rewrite decide_True.
  - destruct (length_abs_of a Ha) as [H1 H2].
    destruct (SplitPath_loop_spec reg a [] p (String.length (abs_of a)))
      as (res & Hres & Hspec); try done.
    { rewrite app_nil_r. by apply Clean_path_elems. }
    exists res. split; [done|].
    pose proof (ancestors_last_None reg a Hd) as Hlast.
    destruct (deepest reg (abs_of <$> inits a)) as [R|]; [|done].
    rewrite decide_False by by apply Hlast.
    destruct Hspec as (a1 & a2 & E & Hne & -> & ->).
    rewrite app_nil_r. by exists a1, a2.
Qed.

Lemma clean_unrooted_elems segs st :
  Forall no_slash segs → Forall (fun v => no_slash v ∧ v ≠ "") st →
  Forall (fun v => no_slash v ∧ v ≠ "") (fold_left (clean_step false) segs st).
Proof.
  revert st. induction segs as [|v segs IH]; intros st Hns Hst; [done|].
  inversion Hns; subst. simpl. apply IH; [done|].
  unfold clean_step. repeat case_decide; try done.
  - destruct st as [|top rest].
    + constructor; [|done]. split; [done|]. by subst.
    + inversion Hst; subst. case_decide; [|done]. by constructor.
  - constructor; [|done]. naive_solver.
Qed.

Lemma prefix_slash_cons c x :
  Ascii.eqb c "/" = false → String.prefix "/" (String c x) = false.
Proof.
  intros Hc%Ascii.eqb_neq. cbn [String.prefix].
  destruct (ascii_dec "/" c) as [E|]; [by subst|done].
Qed.

Lemma IsAbs_Clean_false p : IsAbs p = false → IsAbs (Clean p) = false.
Proof.
  intros E. unfold Clean. unfold IsAbs in E. rewrite E.
  case_decide as Hb; [done|].
  pose proof (clean_unrooted_elems (splitSlash p) [] (splitSlash_no_slash p)
                ltac:(constructor)) as Hall.
  apply Forall_rev in Hall. fold (clean_elems false (splitSlash p)) in Hall.
  destruct (clean_elems false (splitSlash p)) as [|x l]; [done|].
  inversion Hall as [|?? [Hx Hne] _]; subst.
  destruct x as [|c x]; [done|]. apply no_slash_cons in Hx as [Hc _].
  unfold IsAbs, HasPrefix. destruct l as [|y l].
  - by apply prefix_slash_cons.
  - rewrite Join_cons2, append_cons. by apply prefix_slash_cons.
Qed.

(** The loop of [SplitPath] always reaches a [return]. *)
Lemma SplitPath_total reg p : is_Some (SplitPath reg p).
Proof.
  destruct (IsAbs p) eqn:E.
  - destruct (SplitPath_abs reg p E) as (res & -> & _). by eexists.
  - unfold SplitPath. rewrite (IsAbs_Clean_false p E). by eexists.
Qed.

Lemma canonical_Clean p : IsAbs p = true → canonical (Clean p).
Proof.
  intros E. split; [|by apply IsAbs_Clean].
  destruct (Clean_rooted p E) as (a & Ha & ->). by apply Clean_abs_of.
Qed.

Lemma canonical_roots_init : canonical_roots init.
Proof. intros R d H. cbn in H. by rewrite lookup_empty in H. Qed.

Lemma InitDriver_canonical_roots detect name root args reg res reg' :
  canonical_roots reg →
  InitDriver detect name root args reg = Returns (res, reg') →
  canonical_roots reg'.
Proof.
  intros Hreg. unfold InitDriver.
  destruct (drivers reg !! name) as [f|]; [|by intros [= <- <-]].
  destruct (driversByRoot reg !! Clean root) eqn:Hb; [by intros [= <- <-]|].
  destruct (IsAbs (Clean root)) eqn:Habs; cbn [negb]; [|by intros [= <- <-]].
  destruct (detect (Clean root)) as [t err].
  case_bool_decide; [by intros [= <- <-]|].
  case_decide; [done|].
  destruct (f (Clean root) args) as [d|e]; [|by intros [= <- <-]].
  intros [= <- <-] R d'. cbn. intros [[<- _]|[_ H']]%lookup_insert_Some.
  - split.
    + destruct (Clean_rooted (Clean root) Habs) as (a & Ha & E).
      destruct (IsAbs root) eqn:E2.
      * by apply canonical_Clean.
      * by rewrite (IsAbs_Clean_false root E2) in Habs.
    + done.
  - by eapply Hreg.
Qed.

Lemma Unregister_canonical_roots name reg :
  canonical_roots reg → canonical_roots (Unregister name reg).
Proof.
  intros Hreg R d. cbn. intros [H _]%map_lookup_filter_Some. by eapply Hreg.
Qed.


Lemma canonical_Join2 root name : canonical root → canonical (Join2 root name).
Proof.
  intros [Hc Ha]. unfold Join2.
  rewrite decide_False by (intros ->; done).
  apply canonical_Clean. unfold IsAbs, HasPrefix in *.
  destruct root as [|c r]; [done|]. rewrite append_cons.
  cbn [String.prefix] in *. destruct (ascii_dec "/" c); [|done].
  by destruct r, (_ +:+ _).
Qed.

Lemma GetDriver_bound reg root d :
  canonical root → driversByRoot reg !! root = Some d → GetDriver reg root = inl d.
Proof. intros [Hc _] H. unfold GetDriver. by rewrite Hc, H. Qed.

(** [Mount] reaches the driver exactly when [rootDir] is the deepest bound
    root above the cleaned joined path. *)
Lemma Mount_deepest reg name root d :
  driversByRoot reg !! root = Some d → canonical root →
  Mount reg name root =
  Some (match deepest reg (ancestors (Join2 root name)) with
        | None => inr ErrDriverNotInit
        | Some R =>
            if decide (R ≠ root) then inr ErrBadMount
            else if decide (Join2 root name = root) then inr ErrPathIsDriver
            else if Exists d name then Get d name else Create d name
        end).
Proof.
  intros Hd Hroot. unfold Mount.
  destruct (canonical_Join2 root name Hroot) as [HcP HaP].
  destruct (SplitPath_abs reg (Join2 root name) HaP) as (res & -> & Hspec).
  destruct (deepest reg (ancestors (Join2 root name))) as [R|]; [|by subst].
  rewrite HcP in Hspec. case_decide as HR.
  - subst res R. destruct (decide (Join2 root name = root)) as [E|E].
    + rewrite !E. rewrite !(decide_False (P := root ≠ root)) by naive_solver.
      by rewrite decide_True.
    + by rewrite !decide_True.
  - destruct Hspec as (v & Hv & _ & ->).
    destruct (decide (R = root)) as [->|E].
    + rewrite !(decide_False (P := root ≠ root)) by naive_solver.
      rewrite decide_False by done.
      rewrite (GetDriver_bound reg root d) by done.
      rewrite decide_False by naive_solver. by destruct (Exists d name).
    + by rewrite !decide_True.
Qed.

End VolumeFacts.

(** ** Facts about the registry calls, shutdown and status *)

Module VolumeOpsFacts.
Import GoStrings GoPath PathSpec GoPathFacts Volume VolumeOps VolumeFacts.

Ltac destruct_lookup k :=
  match goal with
  | |- context [@lookup ?a ?b ?c ?d k ?m] => destruct (@lookup a b c d k m) eqn:?
  end.

Lemma run_op_canonical_roots reg op reg' :
  canonical_roots reg → run_op reg op = Some reg' → canonical_roots reg'.
Proof.
  intros Hc. destruct op as [name f|name|detect name root args]; cbn.
  - intros [= <-]. unfold Register. destruct f; [|done].
    by destruct (drivers reg !! name).
  - intros [= <-]. by apply Unregister_canonical_roots.
  - destruct (InitDriver detect name root args reg) as [[res r]|] eqn:E; [|done].
    intros [= <-]. by eapply InitDriver_canonical_roots.
Qed.

Lemma run_ops_canonical_roots ops :
  ∀ reg reg', canonical_roots reg → run_ops reg ops = Some reg' → canonical_roots reg'.
Proof.
  unfold run_ops. induction ops as [|op ops IH] using rev_ind; intros reg reg' Hc.
  - by intros [= <-].
  - rewrite foldl_app. cbn.
    destruct (foldl _ (Some reg) ops) as [r|] eqn:E; [|done]. cbn.
    intros Hop. eapply run_op_canonical_roots; [|done]. by eapply IH.
Qed.

Lemma deepest_None reg l :
  deepest reg l = None → Forall (fun A => driversByRoot reg !! A = None) l.
Proof.
  unfold deepest. intros H%last_None. apply Forall_forall. intros A HA.
  destruct (driversByRoot reg !! A) as [d|] eqn:E; [|done].
  assert (A ∈ filter (λ R, is_Some (driversByRoot reg !! R)) l) as Hin.
  { apply list_elem_of_filter. split; [by eexists|done]. }
  rewrite H in Hin. by apply elem_of_nil in Hin.
Qed.

Lemma deepest_Some reg l R :
  deepest reg l = Some R → R ∈ l ∧ is_Some (driversByRoot reg !! R).
Proof.
  unfold deepest. intros H%last_Some_elem_of%list_elem_of_filter. naive_solver.
Qed.

Lemma ancestors_canonical p R : R ∈ ancestors p → canonical R.
Proof.
  unfold ancestors. intros (a & -> & Ha)%list_elem_of_fmap.
  apply elem_of_inits in Ha as [b Hb].
  assert (Forall proper a) as Hp.
  { pose proof (path_elems_proper p) as H. rewrite Hb in H.
    by apply Forall_app in H as [? _]. }
  split; [by apply Clean_abs_of|apply IsAbs_abs_of].
Qed.

Lemma is_marker_dir_iff r : DetectGo.is_marker_dir r = true ↔ r = inl true.
Proof. destruct r as [[]|[]]; cbn; naive_solver. Qed.

Lemma ShutdownAll_fold (Cleanup : Driver → option error) visited :
  ∀ errs called,
    foldl (fun '(errs, called) '(_, driver) =>
             match Cleanup driver with
             | Some err => (errs ++ [err], called ++ [driver])
             | None => (errs, called ++ [driver])
             end)
          (errs, called) visited
    = (errs ++ omap (fun rd : string * Driver => Cleanup rd.2) visited,
       called ++ visited.*2).
Proof.
  induction visited as [|[root driver] visited IH]; intros errs called; cbn.
  - by rewrite !app_nil_r.
  - destruct (Cleanup driver) as [e|]; rewrite IH, <- ?app_assoc; done.
Qed.

Lemma getDrivers_empty_fold visited :
  ∀ acc : gmap string Driver,
    foldl (fun result '(root, driver) => <[root := driver]> result) acc visited
    = list_to_map (reverse visited) ∪ acc.
Proof.
  induction visited as [|[root driver] visited IH]; intros acc; cbn [foldl].
  - rewrite reverse_nil. symmetry. apply (left_id_L ∅ (∪)).
  - rewrite IH, reverse_cons, list_to_map_app. cbn.
    rewrite <- (assoc_L (∪)). f_equal.
    by rewrite insert_empty, <- insert_union_singleton_l.
Qed.

Lemma getDrivers_inner driver names :
  ∀ (acc : gmap string Driver) k,
    foldl (fun result volumeName =>
             if driverMatches driver volumeName
             then <[volumeName := driver]> result else result) acc names !! k
    = if decide (k ∈ names ∧ driverMatches driver k = true) then Some driver
      else acc !! k.
Proof.
  induction names as [|n names IH]; intros acc k; cbn [foldl].
  - rewrite decide_False; [done|]. intros [H _]. by apply elem_of_nil in H.
  - rewrite IH. destruct (decide (k ∈ names ∧ driverMatches driver k = true)) as [[H1 H2]|H].
    + rewrite decide_True; [done|]. split; [by right|done].
    + destruct (driverMatches driver n) eqn:Hn.
      * destruct (decide (k = n)) as [->|Hk].
        -- rewrite lookup_insert_eq. rewrite decide_True; [done|]. split; [left|done].
        -- rewrite lookup_insert_ne by done. rewrite decide_False; [done|].
           intros [[?|?]%elem_of_cons ?]; [done|]. by apply H.
      * rewrite decide_False; [done|].
        intros [[->|?]%elem_of_cons ?]; [congruence|]. by apply H.
Qed.

Lemma getDrivers_snoc visited rd names :
  getDrivers (visited ++ [rd]) names =
  if decide (length names = 0%nat) then <[rd.1 := rd.2]> (getDrivers visited names)
  else foldl (fun result volumeName =>
                if driverMatches rd.2 volumeName
                then <[volumeName := rd.2]> result else result)
             (getDrivers visited names) names.
Proof. unfold getDrivers. rewrite foldl_app. by destruct rd. Qed.

Lemma GetStatus_None (Status_of : Driver → option Status * option error)
      (l : list (string * Driver)) :
  foldl (fun result '(path, driver) =>
           m ← result; status ← (Status_of driver).1; Some (<[path := status]> m))
        (None : option (gmap string Status)) l = None.
Proof. induction l as [|[p d] l IH]; [done|]. cbn. apply IH. Qed.

Lemma GetStatus_fold (Status_of : Driver → option Status * option error)
      (l : list (string * Driver)) :
  ∀ acc : gmap string Status,
    foldl (fun result '(path, driver) =>
             m ← result; status ← (Status_of driver).1; Some (<[path := status]> m))
          (Some acc) l
    = if decide (Forall (fun pd : string * Driver => is_Some (Status_of pd.2).1) l)
      then Some (list_to_map
                   (reverse (omap (fun pd : string * Driver =>
                                     (pd.1,.) <$> (Status_of pd.2).1) l)) ∪ acc)
      else None.
Proof.
  induction l as [|[p d] l IH]; intros acc; cbn [foldl].
  - rewrite decide_True by constructor. cbn. f_equal. symmetry. apply (left_id_L ∅ (∪)).
  - destruct (Status_of d).1 as [s|] eqn:Hs.
    + assert (omap (fun pd : string * Driver => (pd.1,.) <$> (Status_of pd.2).1)
                   ((p, d) :: l)
              = (p, s) :: omap (fun pd : string * Driver =>
                                  (pd.1,.) <$> (Status_of pd.2).1) l) as ->.
      { cbn. by rewrite Hs. }
      cbn [mbind option_bind].
      rewrite IH. destruct (decide (Forall _ l)) as [Hl|Hl].
      * rewrite decide_True.
        2:{ constructor; [cbn; by rewrite Hs|done]. }
        f_equal. rewrite reverse_cons, list_to_map_app. cbn [list_to_map foldr].
        rewrite <- (assoc_L (∪)). f_equal.
        by rewrite insert_empty, <- insert_union_singleton_l.
      * rewrite decide_False; [done|]. intros H. by apply Forall_cons in H as [_ ?].
    + cbn [mbind option_bind].
      rewrite GetStatus_None. rewrite decide_False; [done|].
      intros H. apply Forall_cons in H as [[x Hx] _]. cbn in Hx. congruence.
Qed.

Lemma NoDup_fst_omap {A B} (f : string * A → option B) (l : list (string * A)) :
  NoDup l.*1 → NoDup (omap (fun pd => (pd.1,.) <$> f pd) l).*1.
Proof.
  induction l as [|[p d] l IH]; cbn; [done|].
  intros [Hp Hl]%NoDup_cons. destruct (f (p, d)) as [b|]; cbn; [|by apply IH].
  apply NoDup_cons. split; [|by apply IH].
  intros Hin. apply Hp. apply list_elem_of_fmap in Hin as ([p' b'] & -> & Hin).
  apply list_elem_of_omap in Hin as ([p2 d2] & Hin & Hf). cbn in Hf.
  destruct (f (p2, d2)); [|done]. injection Hf as -> ->.
  apply list_elem_of_fmap. by exists (p', d2).
Qed.

End VolumeOpsFacts.

(** ** Facts about the export synchronizer *)

Module NFSFacts.
Import GoStrings GoPath PathSpec GoPathFacts NFS.

(** *** The monad *)

Lemma run_bind {A B} (m : M A) (k : A → M B) h :
  (m ≫= k) h =
  let '(a, e1) := m h in let '(b, e2) := k a (h ++ e1) in (b, e1 ++ e2).
Proof. reflexivity. Qed.

Lemma run_ret {A} (a : A) h : (mret a : M A) h = (a, []).
Proof. reflexivity. Qed.

(** *** Strings *)

Lemma str_take_app a b : str_take (String.length a) (a +:+ b) = a.
Proof. induction a as [|c a IH]; [done|]. rewrite append_cons. cbn. by f_equal. Qed.

Lemma str_drop_app a b : str_drop (String.length a) (a +:+ b) = b.
Proof. induction a as [|c a IH]; [done|]. by rewrite append_cons. Qed.

Lemma slice_to_len a b : slice_to (a +:+ b) (len a) = a.
Proof. unfold slice_to, len. rewrite Nat2Z.id. apply str_take_app. Qed.

Lemma slice_from_len a b : slice_from (a +:+ b) (len a) = b.
Proof. unfold slice_from, len. rewrite Nat2Z.id. apply str_drop_app. Qed.

Lemma len_append a b : len (a +:+ b) = len a + len b.
Proof. unfold len. rewrite length_append. lia. Qed.

Lemma foldl_append_foldr {A} (f : A → string) l acc :
  foldl (fun acc x => acc +:+ f x) acc l = acc +:+ foldr String.append "" (f <$> l).
Proof.
  revert acc. induction l as [|x l IH]; intros acc; cbn.
  - by rewrite append_empty_r.
  - by rewrite IH, append_assoc.
Qed.

Lemma raw_lines_line l rest :
  has_byte "010" l = false →
  raw_lines (l +:+ String "010" rest) = l :: raw_lines rest.
Proof.
  induction l as [|c l IH]; intros Hl; [done|].
  cbn in Hl. apply orb_false_elim in Hl as [Hc Hl].
  rewrite append_cons. cbn [raw_lines]. rewrite Hc, (IH Hl). done.
Qed.

Lemma raw_lines_unlines ls :
  Forall (fun l => has_byte "010" l = false) ls → raw_lines (unlines ls) = ls.
Proof.
  induction ls as [|l ls IH]; intros Hall; [done|].
  inversion Hall as [|?? Hl Hls]; subst. unfold unlines. cbn [fmap list_fmap foldr].
  rewrite append_assoc. change (nl +:+ ?r) with (String "010" r).
  rewrite raw_lines_line by done. f_equal. by apply IH.
Qed.

Lemma take_fitting_all ls :
  Forall (fun l => len l < MaxScanTokenSize) ls → take_fitting ls = ls.
Proof.
  induction ls as [|l ls IH]; intros Hall; [done|].
  inversion Hall as [|?? Hl Hls]; subst. cbn.
  apply Z.ltb_lt in Hl. rewrite Hl. f_equal. by apply IH.
Qed.

(** *** Copying the keys of a map into a slice *)

Lemma range_length env h (s : gset string) : length (env_range env h s) = size s.
Proof. by rewrite (env_range_perm env h s). Qed.

Lemma range_elem_of env h (s : gset string) x : x ∈ env_range env h s ↔ x ∈ s.
Proof. rewrite (env_range_perm env h s). apply elem_of_elements. Qed.

Lemma insert_0_tail (l : list string) k :
  tail (<[O := k]> l) = tail l ∧ length (<[O := k]> l) = length l.
Proof. by destruct l. Qed.

Lemma copy_at_0_invariant (l : list string) keys :
  tail (foldl (fun clients key => <[O := key]> clients) l keys) = tail l ∧
  length (foldl (fun clients key => <[O := key]> clients) l keys) = length l.
Proof.
  revert l. induction keys as [|k keys IH]; intros l; [done|].
  cbn [foldl]. destruct (IH (<[O := k]> l)) as [-> ->]. apply insert_0_tail.
Qed.

Lemma copy_keys_at_0_length n keys : length (copy_keys_at_0 n keys) = n.
Proof.
  unfold copy_keys_at_0. destruct (copy_at_0_invariant (replicate n "") keys) as [_ ->].
  apply length_replicate.
Qed.

(** Only index 0 is written: the result is the last key visited, followed by
    the strings the slice was made with. *)
Lemma copy_keys_at_0_last n keys k :
  last keys = Some k → (1 ≤ n)%nat →
  copy_keys_at_0 n keys = k :: replicate (n - 1) "".
Proof.
  intros Hlast Hn. destruct keys as [|k' keys _] using rev_ind; [done|].
  rewrite last_snoc in Hlast. injection Hlast as ->.
  unfold copy_keys_at_0. rewrite foldl_app. cbn [foldl].
  destruct (copy_at_0_invariant (replicate n "") keys) as [Ht Hl].
  destruct (foldl _ (replicate n "") keys) as [|x t].
  - rewrite length_replicate in Hl. simpl in Hl. lia.
  - cbn. f_equal. cbn in Ht. rewrite Ht. destruct n; [lia|].
    cbn. by rewrite Nat.sub_0_r.
Qed.

Lemma copy_keys_go keys :
  ∀ done m, (length keys ≤ m)%nat →
    foldl (fun '(hosts, i) key => (<[i := key]> hosts, S i))
          (done ++ replicate m "", length done) keys
    = (done ++ keys ++ replicate (m - length keys) "", (length done + length keys)%nat).
Proof.
  induction keys as [|k keys IH]; intros done m Hm.
  - cbn. by rewrite Nat.sub_0_r, Nat.add_0_r.
  - cbn [foldl]. destruct m as [|m]; [simpl in Hm; lia|].
    replace (<[length done := k]> (done ++ replicate (S m) ""))
      with ((done ++ [k]) ++ replicate m "").
    2:{ rewrite insert_app_r_alt by lia. rewrite Nat.sub_diag.
        by rewrite <- app_assoc. }
    replace (S (length done)) with (length (done ++ [k]))
      by (rewrite length_app; simpl; lia).
    rewrite IH by (simpl in Hm; lia).
    rewrite <- !app_assoc, length_app. cbn. f_equal. lia.
Qed.

(** With the index advanced at each step all keys are copied, in order. *)
Lemma copy_keys_all keys : copy_keys (length keys) keys = keys.
Proof.
  unfold copy_keys.
  pose proof (copy_keys_go keys [] (length keys) ltac:(lia)) as H.
  cbn [app length] in H. rewrite H. cbn.
  by rewrite Nat.sub_diag, app_nil_r.
Qed.

Lemma SetClients_clients addrs c : clients (SetClients addrs c) = list_to_set addrs.
Proof.
  cbn. assert (∀ s : gset string,
    foldl (fun s client => {[client]} ∪ s) s addrs = list_to_set addrs ∪ s) as H.
  { induction addrs as [|a addrs IH]; intros s; cbn; [set_solver|].
    rewrite IH. set_solver. }
  rewrite H. set_solver.
Qed.

Lemma apply_volume_ops_clients ops c :
  clients (foldl apply_volume_op c ops) = clients c.
Proof.
  revert c. induction ops as [|op ops IH]; intros c; [done|].
  cbn [foldl]. rewrite IH. by destruct op.
Qed.

(** What [sort.Strings] makes of the keys of a set does not depend on the
    order they were visited in. *)
Lemma sort_Strings_sorted l : StronglySorted String.le (sort_Strings l).
Proof. apply StronglySorted_merge_sort; apply _. Qed.

Lemma sort_Strings_perm l : sort_Strings l ≡ₚ l.
Proof. apply merge_sort_Permutation. Qed.


Lemma sort_Strings_range env h (s : gset string) :
  sort_Strings (copy_keys (size s) (env_range env h s)) = sort_Strings (elements s).
Proof.
  rewrite <- (range_length env h s), copy_keys_all.
  apply (StronglySorted_unique String.le); try apply sort_Strings_sorted.
  by rewrite !sort_Strings_perm, (env_range_perm env h s).
Qed.

(** *** The steps of [Sync] *)

Ltac run_monad := unfold mbind, M_bind, mret, M_ret; cbn beta iota zeta.

Lemma readFileIfExists_cases env path h :
  (∃ e evs, readFileIfExists env path h = (("", Some e), evs)) ∨
  (∃ s evs, readFileIfExists env path h = ((s, None), evs) ∧
            (evs = [EvStat path StatNotExist] ∧ s = "" ∨
             ∃ d m, evs = [EvStat path (StatInfo d m); EvReadFile path (inl s)])).
Proof.
  unfold readFileIfExists, doesExists, os_Stat, ioutil_ReadFile. run_monad.
  destruct (env_Stat env h path) as [d m| |msg] eqn:Hs; cbn.
  - match goal with
    | |- context [env_ReadFile env ?h' path] =>
        destruct (env_ReadFile env h' path) as [s|e] eqn:Hr; cbn
    end.
    + right. exists s. eexists. split; [done|]. right. by exists d, m.
    + left. by eexists _, _.
  - right. eexists "", _. split; [done|]. by left.
  - left. by eexists _, _.
Qed.

(** [hostsAllow], when it succeeds, ends with writing the file: what it read
    (cut in front of an earlier marker) and the block for the clients. *)
Lemma hostsAllow_ok env c h evs :
  hostsAllow env c h = (None, evs) →
  ∃ pre evs0,
    evs = evs0 ++
      [EvWriteFile (etcHostsAllow env)
         (pre +:+ hostAllowDefaults +:+ " " +:+
          Join (sort_Strings (elements (clients c))) " " +:+ nl +:+ nl)
         perm0664 None].
Proof.
  unfold hostsAllow. rewrite run_bind.
  destruct (readFileIfExists_cases env (etcHostsAllow env) h)
    as [(e & ev1 & ->)|(s & ev1 & -> & _)]; [by cbn|].
  rewrite run_bind. unfold range at 1. cbn beta iota zeta.
  rewrite sort_Strings_range. unfold atomicfile_WriteFile.
  intros [= Hw <-]. rewrite Hw. by eexists _, ev1.
Qed.

Lemma Sync_ok env c h c' evs :
  Sync env c h = ((None, c'), evs) →
  ∃ ev1 ev2 ev3 ev4,
    hostsDeny env c h = (None, ev1) ∧
    hostsAllow env c (h ++ ev1) = (None, ev2) ∧
    writeExports env c ((h ++ ev1) ++ ev2) = ((None, c'), ev3) ∧
    evs = ev1 ++ ev2 ++ ev3 ++ ev4.
Proof.
  unfold Sync. rewrite run_bind.
  destruct (hostsDeny env c h) as [[e1|] ev1] eqn:H1; [by cbn|].
  rewrite run_bind.
  destruct (hostsAllow env c (h ++ ev1)) as [[e2|] ev2] eqn:H2; [by cbn|].
  rewrite run_bind.
  destruct (writeExports env c ((h ++ ev1) ++ ev2)) as [[[e3|] c3] ev3] eqn:H3;
    [by cbn|].
  rewrite run_bind.
  match goal with
  | |- context [start env ?h'] => destruct (start env h') as [[e4|] ev4]; [by cbn|]
  end.
  rewrite run_bind.
  match goal with
  | |- context [reload env ?h'] => destruct (reload env h') as [[e5|] ev5]; [by cbn|]
  end.
  rewrite run_bind.
  match goal with
  | |- context [cleanupBindMounts env c3 ?h'] =>
      destruct (cleanupBindMounts env c3 h') as [[] ev6]
  end.
  cbn. intros [= <- <-]. by eexists ev1, ev2, ev3, _.
Qed.


(** *** Bind mounts *)



(** [isBindMounted] reads the mount table once; it answers "mounted" exactly
    when the table holds the destination. *)
Lemma isBindMounted_cases env dst h :
  ∃ r, isBindMounted env dst h = (r, [EvReadMounts (env_ReadMounts env h)]) ∧
    match env_ReadMounts env h with
    | inl mounts =>
        if decide (dst ∈ Dst <$> mounts)
        then r = (true, None) else r = (false, None)
    | inr e =>
        if decide (error_string e = "not found")
        then r = (false, None) else r = (false, Some e)
    end.
Proof.
  unfold isBindMounted, getMount, readMounts. run_monad.
  destruct (env_ReadMounts env h) as [mounts|e]; cbn.
  - destruct (List.find _ mounts) as [m|] eqn:Hf; cbn.
    + eexists; split; [done|]. rewrite decide_True; [done|].
      apply find_some in Hf as [Hin Hd]. apply bool_decide_eq_true in Hd.
      apply list_elem_of_fmap. exists m. split; [done|by apply list_elem_of_In].
    + eexists; split; [done|]. rewrite decide_False; [done|].
      intros (m & Hd & Hin)%list_elem_of_fmap. apply list_elem_of_In in Hin.
      pose proof (find_none _ _ Hf m Hin) as Hn. cbn in Hn.
      by apply bool_decide_eq_false in Hn.
  - destruct (decide (error_string e = "not found")); by eexists.
Qed.


Ltac break_matches :=
  repeat (match goal with
          | |- context [match ?x with _ => _ end] =>
              lazymatch x with
              | context [match _ with _ => _ end] => fail
              | _ => destruct x eqn:?
              end
          end; cbn beta iota zeta).

Lemma no_stat_app evs1 evs2 : no_stat evs1 → no_stat evs2 → no_stat (evs1 ++ evs2).
Proof. unfold no_stat. intros H1 H2. by rewrite existsb_app, H1, H2. Qed.

(** [bindMountImp] does not call [os.Stat]. *)
Lemma bindMountImp_no_stat env src dst h res evs :
  bindMountImp env src dst h = (res, evs) → no_stat evs.
Proof.
  unfold bindMountImp, isBindMounted, getMount, readMounts, os_MkdirAll,
    runMountCommand, mntArgs, syscall_Getuid, CombinedOutput.
  run_monad. break_matches; intros [= <- <-]; reflexivity.
Qed.

(** The loop of [writeExports]: no [os.Stat]; when no bind mount fails, the
    names and the lines of all the volumes have been added. *)
Lemma writeExports_loop_spec env edir net vols :
  ∀ exports se h r exports' se' evs,
    writeExports_loop env edir net vols exports se h = ((r, exports', se'), evs) →
    no_stat evs ∧
    (r = None →
     exports' = list_to_set (baseName <$> vols) ∪ exports ∧
     se' = se +:+ exportLines edir net vols).
Proof.
  induction vols as [|v vols IH]; intros exports se h r exports' se' evs.
  - cbn. intros [= <- <- <- <-]. split; [done|]. intros _.
    split; [set_solver|]. unfold exportLines. cbn. by rewrite append_empty_r.
  - cbn [writeExports_loop]. rewrite run_bind. unfold bindMount.
    destruct (bindMountImp env (Clean v) (Join2 edir (Split (Clean v)).2) h)
      as [[e|] ev1] eqn:Hb; apply bindMountImp_no_stat in Hb.
    + cbn. intros [= <- <- <- <-]. rewrite app_nil_r. by split.
    + destruct (writeExports_loop env edir net vols ({[(Split (Clean v)).2]} ∪ exports)
                  (se +:+ exportLine (Join2 edir (Split (Clean v)).2) net) (h ++ ev1))
        as [[[r2 ex2] se2] ev2] eqn:Hl.
      intros [= <- <- <- <-]. apply IH in Hl as [Hns Hok].
      split; [by apply no_stat_app|]. intros ->. destruct (Hok eq_refl) as [-> ->].
      split; [unfold baseName; set_solver|].
      unfold exportLines. cbn [fmap list_fmap foldr]. by rewrite append_assoc.
Qed.


Lemma readFileIfExists_stat env path h r evs :
  readFileIfExists env path h = (r, evs) → existsb is_stat evs = true.
Proof.
  unfold readFileIfExists, doesExists, os_Stat, ioutil_ReadFile. run_monad.
  break_matches; intros [= <- <-]; reflexivity.
Qed.

Lemma exported_names vols (X : gset string) :
  vols ≡ₚ elements X →
  list_to_set (baseName <$> vols) ∪ (∅ : gset string) = set_map baseName X.
Proof.
  intros Hp. apply set_eq. intros x.
  rewrite elem_of_union, elem_of_list_to_set, list_elem_of_fmap, elem_of_map.
  split.
  - intros [(v & -> & Hv)|?]; [|set_solver]. exists v. split; [done|].
    rewrite Hp in Hv. by apply elem_of_elements.
  - intros (v & -> & Hv). left. exists v. split; [done|].
    rewrite Hp. by apply elem_of_elements.
Qed.

(** [writeExports]: either it fails before it looks at the exports file and
    leaves the server as it was; or it has bound every volume, has replaced
    the exported set, and then fails reading the file or ends with writing
    it. *)
Lemma writeExports_cases env c h r c' evs :
  writeExports env c h = ((r, c'), evs) →
  let edir := Join2 (exportsDir env) (exportedName c) in
  (∃ e, r = Some e ∧ c' = c ∧ no_stat evs) ∨
  (∃ vols evs0 rd evs1,
     vols ≡ₚ elements (volumes c) ∧
     c' = set_exported c (set_map baseName (volumes c)) ∧
     no_stat evs0 ∧
     readFileIfExists env (etcExports env) (h ++ evs0) = (rd, evs1) ∧
     match rd with
     | (_, Some e) => r = Some e ∧ evs = evs0 ++ evs1
     | (originalContents, None) =>
         evs = evs0 ++ evs1 ++
               [EvWriteFile (etcExports env)
                  (fileContents
                     (filterContent {[exportsDir env; edir]} originalContents)
                     (exportLines edir (printedNetwork c) vols))
                  perm0664 r]
     end).
Proof.
  intros Hrun edir. revert Hrun. unfold writeExports. rewrite run_bind.
  unfold os_MkdirAll at 1. cbn beta iota zeta.
  destruct (env_MkdirAll env h (exportsDir env) perm0775) as [e1|] eqn:H1.
  { cbn. intros [= <- <- <-]. left. by exists e1. }
  rewrite run_bind. unfold os_MkdirAll at 1. cbn beta iota zeta. fold edir.
  match goal with
  | |- context [env_MkdirAll env ?h' edir perm0775] =>
      destruct (env_MkdirAll env h' edir perm0775) as [e2|] eqn:H2
  end.
  { cbn. intros [= <- <- <-]. left. by exists e2. }
  rewrite run_bind. unfold range at 1. cbn beta iota zeta.
  match goal with
  | |- context [env_range env ?h' (volumes c)] => set (vols := env_range env h' (volumes c));
      assert (Hperm : vols ≡ₚ elements (volumes c)) by apply env_range_perm
  end.
  rewrite run_bind. fold (printedNetwork c).
  match goal with
  | |- context [writeExports_loop env edir (printedNetwork c) vols ∅ "" ?h'] =>
      destruct (writeExports_loop env edir (printedNetwork c) vols ∅ "" h')
        as [[[e3 exports] se] ev3] eqn:H3; set (h3 := h') in *
  end.
  apply writeExports_loop_spec in H3 as [Hns Hok].
  destruct e3 as [e3|].
  { cbn. intros [= <- <- <-]. left. exists e3. split; [done|]. split; [done|].
    rewrite app_nil_r. by apply (no_stat_app [_; _]). }
  destruct (Hok eq_refl) as [-> ->]. rewrite append_nil.
  rewrite (exported_names vols (volumes c) Hperm).
  cbn beta iota zeta. rewrite run_bind.
  match goal with
  | |- context [readFileIfExists env (etcExports env) ?h'] =>
      destruct (readFileIfExists env (etcExports env) h') as [[orig [e4|]] ev4] eqn:H4;
      set (h4 := h') in *
  end.
  - cbn. intros [= <- <- <-]. right.
    exists vols, ([EvMkdirAll (exportsDir env) perm0775 None;
                   EvMkdirAll edir perm0775 None] ++ ev3), (orig, Some e4), ev4.
    split; [done|]. split; [done|]. split; [by apply (no_stat_app [_; _])|].
    split.
    + rewrite <- H4. f_equal. subst h4 h3. by rewrite ?app_nil_r, <- ?app_assoc.
    + split; [done|]. cbn. by rewrite ?app_nil_r, <- ?app_assoc.
  - cbn beta iota zeta. rewrite run_bind. unfold atomicfile_WriteFile at 1.
    cbn. intros [= <- <- <-]. right.
    exists vols, ([EvMkdirAll (exportsDir env) perm0775 None;
                   EvMkdirAll edir perm0775 None] ++ ev3), (orig, None), ev4.
    split; [done|]. split; [done|]. split; [by apply (no_stat_app [_; _])|].
    split.
    + rewrite <- H4. f_equal. subst h4 h3. by rewrite ?app_nil_r, <- ?app_assoc.
    + cbn. rewrite ?app_nil_r, <- ?app_assoc. do 4 f_equal.
Qed.


(** *** Rewriting the exports file *)

Lemma filterContent_lines mp orig :
  filterContent mp orig = foldr String.append "" (filterLine mp <$> scanLines orig).
Proof. unfold filterContent. by rewrite foldl_append_foldr. Qed.

(** A file of kept lines goes through the filter unchanged. *)
Lemma filterContent_kept mp ls :
  Forall (kept_line mp) ls → filterContent mp (unlines ls) = unlines ls.
Proof.
  intros Hall. rewrite filterContent_lines. unfold scanLines.
  rewrite raw_lines_unlines by (eapply Forall_impl; [exact Hall|]; by intros ? (? & _)).
  rewrite take_fitting_all
    by (eapply Forall_impl; [exact Hall|]; by intros ? (_ & _ & _ & ? & _)).
  unfold unlines. f_equal. rewrite <- list_fmap_compose.
  apply Forall_fmap_ext_1. eapply Forall_impl; [exact Hall|].
  intros l (_ & Hcr & _ & _ & Hf). cbn. by rewrite Hcr.
Qed.


Lemma filterLine_keep mp text :
  HasPrefix (TrimSpace text) "#" = true ∨
  (∀ mountpoint, head (Fields (TrimSpace text)) = Some mountpoint →
                 mountpoint ∉ mp) →
  filterLine mp text = TrimSpace text +:+ nl.
Proof.
  intros [Hc|Hf]; unfold filterLine.
  - by rewrite Hc.
  - destruct (negb _); [|done].
    destruct (Fields (TrimSpace text)) as [|m rest]; [done|].
    rewrite decide_False; [done|]. by apply Hf.
Qed.

(** No begin marker: the managed section is added at the end. *)
Lemma fileContents_no_marker F E :
  Index F etcExportsStartMarker < 0 →
  fileContents F E = F +:+ etcExportsStartMarker +:+ E +:+ etcExportsEndMarker.
Proof.
  intros Hi. unfold fileContents.
  destruct (0 <=? Index F etcExportsStartMarker) eqn:Hle; [apply Z.leb_le in Hle; lia|].
  by rewrite append_empty_r.
Qed.

(** Begin and end marker: what lies from the one through the other is
    replaced. *)
Lemma fileContents_markers pre M post E :
  let F := pre +:+ etcExportsStartMarker +:+ M +:+ etcExportsEndMarker +:+ post in
  Index F etcExportsStartMarker = len pre →
  Index (etcExportsStartMarker +:+ M +:+ etcExportsEndMarker +:+ post)
        etcExportsEndMarker = len (etcExportsStartMarker +:+ M) →
  fileContents F E =
  pre +:+ etcExportsStartMarker +:+ E +:+ etcExportsEndMarker +:+ post.
Proof.
  intros F H1 H2. unfold fileContents. rewrite H1.
  replace (0 <=? len pre) with true by (symmetry; apply Z.leb_le; unfold len; lia).
  subst F. rewrite slice_from_len, slice_to_len, H2.
  replace (0 <=? len (etcExportsStartMarker +:+ M)) with true
    by (symmetry; apply Z.leb_le; unfold len; lia).
  rewrite <- len_append.
  replace (etcExportsStartMarker +:+ M +:+ etcExportsEndMarker +:+ post)
    with (((etcExportsStartMarker +:+ M) +:+ etcExportsEndMarker) +:+ post)
    by (by rewrite !append_assoc).
  by rewrite slice_from_len.
Qed.

(** A begin marker that no end marker follows: all that follows it is
    dropped. *)
Lemma fileContents_no_end pre rest E :
  let F := pre +:+ etcExportsStartMarker +:+ rest in
  Index F etcExportsStartMarker = len pre →
  Index (etcExportsStartMarker +:+ rest) etcExportsEndMarker < 0 →
  fileContents F E = pre +:+ etcExportsStartMarker +:+ E +:+ etcExportsEndMarker.
Proof.
  intros F H1 H2. unfold fileContents. rewrite H1.
  replace (0 <=? len pre) with true by (symmetry; apply Z.leb_le; unfold len; lia).
  subst F. rewrite slice_from_len, slice_to_len.
  destruct (0 <=? Index _ etcExportsEndMarker) eqn:Hle; [apply Z.leb_le in Hle; lia|].
  by rewrite append_empty_r.
Qed.











(** A successful [writeExports] ends with writing the exports file: the
    filtered lines of what it read, and the lines of the volumes. *)
Lemma writeExports_ok env c h c' evs :
  writeExports env c h = ((None, c'), evs) →
  ∃ vols orig evs0,
    vols ≡ₚ elements (volumes c) ∧
    evs = evs0 ++
      [EvWriteFile (etcExports env)
         (fileContents
            (filterContent {[exportsDir env; Join2 (exportsDir env) (exportedName c)]}
                           orig)
            (exportLines (Join2 (exportsDir env) (exportedName c))
                         (printedNetwork c) vols))
         perm0664 None] ∧
    (EvReadFile (etcExports env) (inl orig) ∈ evs0 ∨
     orig = "" ∧ EvStat (etcExports env) StatNotExist ∈ evs0).
Proof.
  intros Hw.
  apply writeExports_cases in Hw
    as [(e & [=] & _)|(vols & evs0 & rd & evs1 & Hp & _ & _ & Hrd & Hevs)].
  destruct (readFileIfExists_cases env (etcExports env) (h ++ evs0))
    as [(e & evs' & He)|(s & evs' & He & Hshape)]; rewrite He in Hrd;
    injection Hrd as <- <-; [by destruct Hevs|].
  exists vols, s, (evs0 ++ evs'). split; [done|]. split.
  - by rewrite Hevs, <- app_assoc.
  - destruct Hshape as [[-> ->]|(d & m & ->)]; [right|left];
      rewrite ?elem_of_app; set_solver.
Qed.


(** *** The clean-up of the export directory *)

Lemma elem_of_concat {A} (x : A) (ls : list (list A)) :
  x ∈ concat ls ↔ ∃ l, x ∈ l ∧ l ∈ ls.
Proof.
  induction ls as [|l ls IH]; cbn.
  - split; [by intros ?%elem_of_nil|by intros (? & _ & ?%elem_of_nil)].
  - rewrite elem_of_app, IH. split.
    + intros [?|(l' & ? & ?)]; [exists l|exists l']; (split; [done|]);
        [by left|by right].
    + intros (l' & ? & [->|?]%elem_of_cons); [by left|right; by exists l'].
Qed.

Lemma cleanup_loop_trace env c edir entries :
  ∀ h, ∃ traces,
    Forall2 (entry_trace env c edir) entries traces ∧
    (cleanup_loop env c edir entries h).2 = concat traces.
Proof.
  induction entries as [|file entries IH]; intros h.
  - exists []. by split; [constructor|].
  - cbn [cleanup_loop].
    destruct (bool_decide (fi_Name file ∉ exported c) && fi_IsDir file) eqn:Hst.
    + apply andb_prop in Hst as [Hn%bool_decide_eq_true Hd].
      assert (Hstale : stale_entry c file) by done.
      rewrite run_bind.
      destruct (isBindMounted_cases env (Join2 edir (fi_Name file)) h)
        as (r & -> & Hr).
      destruct (env_ReadMounts env h) as [mounts|e] eqn:Hm.
      * destruct (decide (Join2 edir (fi_Name file) ∈ Dst <$> mounts)); subst r.
        -- cbn beta iota. rewrite run_bind.
           unfold umount, umountImp, CombinedOutput, os_RemoveAll.
           run_monad.
           match goal with
           | |- context [env_Exec env ?h' "umount" ?args] =>
               destruct (env_Exec env h' "umount" args) as [out [eu|]] eqn:Hx
           end; cbn beta iota zeta.
           ++ match goal with
              | |- context [cleanup_loop env c edir entries ?h'] =>
                  destruct (IH h') as (traces & HF & Ht);
                  destruct (cleanup_loop env c edir entries h') as [[] evs']
              end.
              cbn in Ht |- *. subst evs'. eexists (_ :: traces).
              split; [constructor; [by eapply (entry_umount_failed _ _ _ _ _ mounts out eu)|done]|].
              done.
           ++ match goal with
              | |- context [env_RemoveAll env ?h' ?p] =>
                  set (rr := env_RemoveAll env h' p)
              end.
              match goal with
              | |- context [cleanup_loop env c edir entries ?h'] =>
                  destruct (IH h') as (traces & HF & Ht);
                  destruct (cleanup_loop env c edir entries h') as [[] evs']
              end.
              cbn in Ht |- *. subst evs'. eexists (_ :: traces).
              split; [constructor;
                      [by apply (entry_unmounted_removed _ _ _ _ mounts out rr)|done]|].
              done.
        -- cbn beta iota. run_monad. unfold os_RemoveAll.
           match goal with
           | |- context [env_RemoveAll env ?h' ?p] =>
               set (rr := env_RemoveAll env h' p)
           end.
           match goal with
           | |- context [cleanup_loop env c edir entries ?h'] =>
               destruct (IH h') as (traces & HF & Ht);
               destruct (cleanup_loop env c edir entries h') as [[] evs']
           end.
           cbn in Ht |- *. subst evs'. eexists (_ :: traces).
           split; [constructor; [by apply (entry_removed _ _ _ _ mounts rr)|done]|].
           done.
      * destruct (decide (error_string e = "not found")); subst r.
        -- cbn beta iota. run_monad. unfold os_RemoveAll.
           match goal with
           | |- context [env_RemoveAll env ?h' ?p] =>
               set (rr := env_RemoveAll env h' p)
           end.
           match goal with
           | |- context [cleanup_loop env c edir entries ?h'] =>
               destruct (IH h') as (traces & HF & Ht);
               destruct (cleanup_loop env c edir entries h') as [[] evs']
           end.
           cbn in Ht |- *. subst evs'. eexists (_ :: traces).
           split; [constructor; [by apply (entry_removed_unknown _ _ _ _ e rr)|done]|].
           done.
        -- cbn beta iota.
           match goal with
           | |- context [cleanup_loop env c edir entries ?h'] =>
               destruct (IH h') as (traces & HF & Ht);
               destruct (cleanup_loop env c edir entries h') as [[] evs']
           end.
           cbn in Ht |- *. subst evs'. eexists (_ :: traces).
           split; [constructor; [by apply (entry_check_failed _ _ _ _ h e)|done]|].
           done.
    + destruct (IH h) as (traces & HF & Ht). exists ([] :: traces).
      split; [|done]. constructor; [|done]. apply entry_left_alone.
      intros [Hn Hd]. apply andb_false_iff in Hst as [Hst|Hst].
      * by apply bool_decide_eq_false in Hst.
      * by rewrite Hd in Hst.
Qed.

End NFSFacts.

(** ** Facts about the calls each step makes *)

Module NFSStepFacts.
Import GoStrings GoPath PathSpec GoPathFacts NFS NFSFacts NFSSteps.

Lemma hostsDeny_steps env c h r evs :
  hostsDeny env c h = (r, evs) → Forall (fun ev => on_file (etcHostsDeny env) ev = true) evs.
Proof.
  unfold hostsDeny, readFileIfExists, doesExists, os_Stat, ioutil_ReadFile,
    atomicfile_WriteFile.
  run_monad. break_matches; intros [= <- <-];
    repeat constructor; cbn; by rewrite bool_decide_eq_true.
Qed.

Lemma hostsAllow_steps env c h r evs :
  hostsAllow env c h = (r, evs) → Forall (fun ev => on_file (etcHostsAllow env) ev = true) evs.
Proof.
  unfold hostsAllow, readFileIfExists, doesExists, os_Stat, ioutil_ReadFile,
    atomicfile_WriteFile, range.
  run_monad. break_matches; intros [= <- <-];
    repeat constructor; cbn; by rewrite bool_decide_eq_true.
Qed.

Lemma mount_cmdline_cmd uid fs dst fsType options cmd args :
  mount_cmdline uid fs dst fsType options = (cmd, args) →
  cmd = "mount" ∨ cmd = "sudo" ∧ head args = Some "mount".
Proof.
  unfold mount_cmdline.
  set (rest := foldl _ _ options).
  assert (∃ tl, rest = ((if decide (uid ≠ 0) then ["sudo"] else []) ++ ["mount"]) ++ tl)
    as [tl Hrest].
  { subst rest. generalize ((if decide (uid ≠ 0) then ["sudo"] else []) ++ ["mount"]).
    induction options as [|o options IH] using rev_ind; intros l.
    - exists []. by rewrite app_nil_r.
    - rewrite foldl_app. cbn. destruct (IH l) as [tl ->]. exists (tl ++ ["-o"; o]).
      by rewrite <- !app_assoc. }
  rewrite Hrest.
  destruct (0 <? len fsType), (0 <? len fs); case_decide; cbn; intros [= <- <-];
    (by left) || (right; by split).
Qed.

Lemma bindMountImp_steps env src dst h res evs :
  bindMountImp env src dst h = (res, evs) →
  Forall (fun ev => bind_mount_step ev = true) evs.
Proof.
  unfold bindMountImp, isBindMounted, getMount, readMounts, os_MkdirAll,
    runMountCommand, mntArgs, syscall_Getuid, CombinedOutput.
  run_monad. break_matches; intros [= <- <-];
    repeat constructor; cbn;
    try (apply bool_decide_eq_true; eapply mount_cmdline_cmd; eassumption);
    by apply bool_decide_eq_true.
Qed.

Lemma writeExports_loop_steps env edir net vols :
  ∀ exports se h r evs,
    writeExports_loop env edir net vols exports se h = (r, evs) →
    Forall (fun ev => bind_mount_step ev = true) evs.
Proof.
  induction vols as [|v vols IH]; intros exports se h r evs.
  - cbn. by intros [= <- <-].
  - cbn [writeExports_loop]. rewrite run_bind. unfold bindMount.
    destruct (bindMountImp env (Clean v) (Join2 edir (Split (Clean v)).2) h)
      as [[e|] ev1] eqn:Hb; apply bindMountImp_steps in Hb.
    + cbn. intros [= <- <-]. by rewrite app_nil_r.
    + match goal with
      | |- context [writeExports_loop env edir net vols ?a ?b ?c] =>
          destruct (writeExports_loop env edir net vols a b c) as [r2 ev2] eqn:Hl
      end.
      intros [= <- <-]. apply IH in Hl. by apply Forall_app.
Qed.

Lemma writeExports_steps env c h r evs :
  writeExports env c h = (r, evs) →
  Forall (fun ev => bind_mount_step ev || on_file (etcExports env) ev = true) evs.
Proof.
  unfold writeExports. rewrite run_bind. unfold os_MkdirAll at 1. cbn beta iota zeta.
  destruct (env_MkdirAll env h (exportsDir env) perm0775) as [e1|] eqn:H1.
  { cbn. intros [= <- <-]. repeat constructor. }
  rewrite run_bind. unfold os_MkdirAll at 1. cbn beta iota zeta.
  match goal with
  | |- context [env_MkdirAll env ?h' ?p perm0775] =>
      destruct (env_MkdirAll env h' p perm0775) as [e2|] eqn:H2
  end.
  { cbn. intros [= <- <-]. repeat constructor. }
  rewrite run_bind. unfold range at 1. cbn beta iota zeta. rewrite run_bind.
  match goal with
  | |- context [writeExports_loop env ?a ?b ?vs ?d ?e ?h'] =>
      destruct (writeExports_loop env a b vs d e h') as [[[e3 ex] se] ev3] eqn:H3
  end.
  apply writeExports_loop_steps in H3.
  assert (Forall (fun ev => bind_mount_step ev || on_file (etcExports env) ev = true) ev3)
    as H3'.
  { eapply Forall_impl; [exact H3|]. cbn. by intros ev ->. }
  destruct e3 as [e3|].
  { cbn. intros [= <- <-]. rewrite app_nil_r. by repeat constructor. }
  rewrite run_bind.
  match goal with
  | |- context [readFileIfExists env ?p ?h'] =>
      destruct (readFileIfExists env p h') as [[s e4] ev4] eqn:H4
  end.
  assert (Forall (fun ev => bind_mount_step ev || on_file (etcExports env) ev = true) ev4)
    as H4'.
  { revert H4. unfold readFileIfExists, doesExists, os_Stat, ioutil_ReadFile.
    run_monad. break_matches; intros [= <- <- <-]; repeat constructor; cbn;
      by rewrite bool_decide_eq_true. }
  destruct e4 as [e4|].
  { cbn. intros [= <- <-]. rewrite app_nil_r. repeat constructor.
    apply Forall_app. by split. }
  rewrite run_bind. unfold atomicfile_WriteFile at 1. cbn.
  intros [= <- <-]. repeat constructor. apply Forall_app. split; [done|].
  apply Forall_app. split; [done|]. repeat constructor. cbn.
  by rewrite bool_decide_eq_true.
Qed.

Lemma cleanup_loop_steps env c edir entries :
  ∀ h, Forall (fun ev => cleanup_step ev = true) (cleanup_loop env c edir entries h).2.
Proof.
  induction entries as [|file entries IH]; intros h; [constructor|].
  cbn [cleanup_loop].
  destruct (bool_decide (fi_Name file ∉ exported c) && fi_IsDir file); [|apply IH].
  rewrite run_bind.
  destruct (isBindMounted_cases env (Join2 edir (fi_Name file)) h) as (r & -> & _).
  destruct r as [mounted [e|]].
  { specialize (IH (h ++ [EvReadMounts (env_ReadMounts env h)])).
    destruct (cleanup_loop _ _ _ _ _) as [u evs]. cbn in *. by constructor. }
  rewrite run_bind. destruct mounted.
  - unfold umount, umountImp, CombinedOutput. run_monad.
    match goal with
    | |- context [env_Exec env ?h' "umount" ?a] =>
        destruct (env_Exec env h' "umount" a) as [out [e|]] eqn:Hx
    end; cbn.
    + match goal with
      | |- context [cleanup_loop env c edir entries ?h'] =>
          specialize (IH h'); destruct (cleanup_loop env c edir entries h') as [u evs]
      end.
      cbn in *. by repeat constructor.
    + unfold os_RemoveAll.
      match goal with
      | |- context [cleanup_loop env c edir entries ?h'] =>
          specialize (IH h'); destruct (cleanup_loop env c edir entries h') as [u evs]
      end.
      cbn in *. by repeat constructor.
  - unfold os_RemoveAll. run_monad.
    match goal with
    | |- context [cleanup_loop env c edir entries ?h'] =>
        specialize (IH h'); destruct (cleanup_loop env c edir entries h') as [u evs]
    end.
    cbn in *. by repeat constructor.
Qed.

Lemma cleanupBindMounts_steps env c h :
  Forall (fun ev => cleanup_step ev = true) (cleanupBindMounts env c h).2.
Proof.
  unfold cleanupBindMounts. rewrite run_bind. unfold ioutil_ReadDir. cbn beta iota zeta.
  destruct (env_ReadDir env h _) as [entries|e]; [|by repeat constructor].
  match goal with
  | |- context [cleanup_loop env c ?d entries ?h'] =>
      pose proof (cleanup_loop_steps env c d entries h') as H;
      destruct (cleanup_loop env c d entries h') as [u evs]
  end.
  cbn in *. by constructor.
Qed.

Lemma Sync_phases_aux env c h :
  ∃ deny allow exports services cleanup,
    phases env (Sync env c h).2 deny allow exports services cleanup ∧
    match (Sync env c h).1.1 with
    | None => services = [EvService ActStart None; EvService ActReload None]
    | Some e =>
        cleanup = [] ∧
        (services = [] ∨ services = [EvService ActStart (Some e)] ∨
         services = [EvService ActStart None; EvService ActReload (Some e)])
    end.
Proof.
  destruct (Sync env c h) as [[r c'] evs] eqn:HS. cbn [fst snd]. revert HS.
  unfold Sync, phases. rewrite run_bind.
  destruct (hostsDeny env c h) as [e1 ev1] eqn:H1. apply hostsDeny_steps in H1.
  destruct e1 as [e1|].
  { cbn. intros [= <- <- <-]. exists ev1, [], [], [], []. rewrite !app_nil_r. repeat split; auto. }
  rewrite run_bind.
  destruct (hostsAllow env c (h ++ ev1)) as [e2 ev2] eqn:H2. apply hostsAllow_steps in H2.
  destruct e2 as [e2|].
  { cbn. intros [= <- <- <-]. exists ev1, ev2, [], [], []. rewrite !app_nil_r. repeat split; auto. }
  rewrite run_bind.
  destruct (writeExports env c ((h ++ ev1) ++ ev2)) as [[e3 c3] ev3] eqn:H3.
  apply writeExports_steps in H3.
  destruct e3 as [e3|].
  { cbn. intros [= <- <- <-]. exists ev1, ev2, ev3, [], []. rewrite !app_nil_r. repeat split; auto. }
  rewrite run_bind. unfold start at 1, service at 1. cbn beta iota zeta.
  match goal with
  | |- context [env_Service env ?h' ActStart] =>
      destruct (env_Service env h' ActStart) as [e4|] eqn:H4
  end.
  { cbn. intros [= <- <- <-]. exists ev1, ev2, ev3, [EvService ActStart (Some e4)], [].
    repeat split; auto. }
  rewrite run_bind. unfold reload at 1, service at 1. cbn beta iota zeta.
  match goal with
  | |- context [env_Service env ?h' ActReload] =>
      destruct (env_Service env h' ActReload) as [e5|] eqn:H5
  end.
  { cbn. intros [= <- <- <-].
    exists ev1, ev2, ev3, [EvService ActStart None; EvService ActReload (Some e5)], [].
    repeat split; auto. }
  rewrite run_bind.
  match goal with
  | |- context [cleanupBindMounts env ?c' ?h'] =>
      pose proof (cleanupBindMounts_steps env c' h') as H6;
      destruct (cleanupBindMounts env c' h') as [u ev6]
  end.
  cbn in *. intros [= <- <- <-].
  exists ev1, ev2, ev3, [EvService ActStart None; EvService ActReload None], ev6.
  rewrite !app_nil_r. repeat split; auto.
Qed.

Lemma Restart_phases_aux env c h :
  ∃ deny allow exports services cleanup,
    phases env (Restart env c h).2 deny allow exports services cleanup ∧
    match (Restart env c h).1.1 with
    | None => services = [EvService ActRestart None]
    | Some e =>
        cleanup = [] ∧ (services = [] ∨ services = [EvService ActRestart (Some e)])
    end.
Proof.
  destruct (Restart env c h) as [[r c'] evs] eqn:HS. cbn [fst snd]. revert HS.
  unfold Restart, phases. rewrite run_bind.
  destruct (hostsDeny env c h) as [e1 ev1] eqn:H1. apply hostsDeny_steps in H1.
  destruct e1 as [e1|].
  { cbn. intros [= <- <- <-]. exists ev1, [], [], [], []. rewrite !app_nil_r. repeat split; auto. }
  rewrite run_bind.
  destruct (hostsAllow env c (h ++ ev1)) as [e2 ev2] eqn:H2. apply hostsAllow_steps in H2.
  destruct e2 as [e2|].
  { cbn. intros [= <- <- <-]. exists ev1, ev2, [], [], []. rewrite !app_nil_r. repeat split; auto. }
  rewrite run_bind.
  destruct (writeExports env c ((h ++ ev1) ++ ev2)) as [[e3 c3] ev3] eqn:H3.
  apply writeExports_steps in H3.
  destruct e3 as [e3|].
  { cbn. intros [= <- <- <-]. exists ev1, ev2, ev3, [], []. rewrite !app_nil_r. repeat split; auto. }
  rewrite run_bind. unfold restart at 1, service at 1. cbn beta iota zeta.
  match goal with
  | |- context [env_Service env ?h' ActRestart] =>
      destruct (env_Service env h' ActRestart) as [e4|] eqn:H4
  end.
  { cbn. intros [= <- <- <-]. exists ev1, ev2, ev3, [EvService ActRestart (Some e4)], [].
    repeat split; auto. }
  rewrite run_bind.
  match goal with
  | |- context [cleanupBindMounts env ?c' ?h'] =>
      pose proof (cleanupBindMounts_steps env c' h') as H6;
      destruct (cleanupBindMounts env c' h') as [u ev6]
  end.
  cbn in *. intros [= <- <- <-]. exists ev1, ev2, ev3, [EvService ActRestart None], ev6.
  rewrite !app_nil_r. repeat split; auto.
Qed.

Lemma phases_no_removal env evs deny allow exports services :
  phases env evs deny allow exports services [] →
  Forall (fun ev => is_service ev = true) services →
  Forall (fun ev => removes ev = false) evs.
Proof.
  intros (-> & Hd & Ha & He & _) Hs. rewrite app_nil_r.
  repeat (apply Forall_app; split).
  - eapply Forall_impl; [exact Hd|]. by intros [] ?.
  - eapply Forall_impl; [exact Ha|]. by intros [] ?.
  - eapply Forall_impl; [exact He|]. intros [] H; try done. cbn in *.
    rewrite orb_false_r in H. apply bool_decide_eq_true in H.
    apply bool_decide_eq_false. intros [->|[-> Hh]]; destruct H as [H|[H H']]; try done.
    congruence.
  - eapply Forall_impl; [exact Hs|]. by intros [] ?.
Qed.

End NFSStepFacts.

(** ** Facts about the access files, the export path and the desired set *)

Module NFSMoreFacts.
Import GoStrings GoPath PathSpec GoPathFacts Volume VolumeFacts NFS NFSFacts NFSSteps.
Import NFSStepFacts.

Lemma prefix_nil x : String.prefix "" x = true.
Proof. by destruct x. Qed.

Lemma prefix_refl_app b r : String.prefix b (b +:+ r) = true.
Proof.
  induction b as [|c b IH]; [apply prefix_nil|].
  rewrite append_cons. cbn [String.prefix].
  destruct (ascii_dec c c) as [|n]; [done|by destruct n].
Qed.

Lemma prefix_app a s r : String.prefix a s = true → String.prefix a (s +:+ r) = true.
Proof.
  revert s. induction a as [|c a IH]; intros s; [intros; apply prefix_nil|].
  destruct s as [|d s]; [by cbn|]. rewrite append_cons. cbn [String.prefix].
  destruct (ascii_dec c d); [apply IH|done].
Qed.

Lemma index_nat_app_r a b : ∃ n, index_nat (a +:+ b) b = Some n.
Proof.
  induction a as [|c a [n IH]].
  - exists O. rewrite append_nil. destruct b as [|d b]; [done|].
    cbn [index_nat]. pose proof (prefix_refl_app (String d b) "") as H.
    rewrite append_empty_r in H. by rewrite H.
  - rewrite append_cons. cbn [index_nat].
    destruct (String.prefix b (String c (a +:+ b))); [by eexists|].
    rewrite IH. by eexists.
Qed.

Lemma Contains_app_r a b : Contains (a +:+ b) b = true.
Proof.
  unfold Contains, Index. destruct (index_nat_app_r a b) as [n ->]. apply Z.leb_le. lia.
Qed.

Lemma prefix_length a s :
  String.prefix a s = true → (String.length a ≤ String.length s)%nat.
Proof.
  revert s. induction a as [|c a IH]; intros s; cbn; [lia|].
  destruct s as [|d s]; [by cbn|]. cbn. destruct (ascii_dec c d); [|done].
  intros H%IH. cbn. lia.
Qed.

Lemma index_nat_short s sub :
  (String.length s < String.length sub)%nat → index_nat s sub = None.
Proof.
  induction s as [|c s IH]; intros Hl.
  - cbn [index_nat]. destruct (String.prefix sub "") eqn:E; [|done].
    apply prefix_length in E. cbn in *. lia.
  - cbn [index_nat]. destruct (String.prefix sub (String c s)) eqn:E.
    + apply prefix_length in E. lia.
    + rewrite IH; [done|]. cbn in Hl. lia.
Qed.

Lemma length_str_take k s : (String.length (str_take k s) ≤ k)%nat.
Proof.
  revert s. induction k as [|k IH]; intros s; cbn; [lia|].
  destruct s as [|c s]; cbn; [lia|]. specialize (IH s). lia.
Qed.

Lemma prefix_take a k s :
  String.prefix a (str_take k s) = true → String.prefix a s = true.
Proof.
  revert k s. induction a as [|c a IH]; intros k s; [intros; apply prefix_nil|].
  destruct k as [|k]; [by cbn|]. destruct s as [|d s]; [by cbn|]. cbn.
  destruct (ascii_dec c d); [apply IH|done].
Qed.

Lemma index_nat_take s sub :
  ∀ n k, index_nat s sub = Some n → (k < n + String.length sub)%nat →
         index_nat (str_take k s) sub = None.
Proof.
  induction s as [|c s IH]; intros n k.
  - cbn [index_nat]. destruct (String.prefix sub "") eqn:E; [|done]. intros [= <-].
    apply prefix_length in E. cbn in E. lia.
  - cbn [index_nat]. destruct (String.prefix sub (String c s)) eqn:E.
    + intros [= <-] Hk. apply index_nat_short.
      pose proof (length_str_take k (String c s)). lia.
    + destruct (index_nat s sub) as [n'|] eqn:E'; [|done]. intros [= <-] Hk.
      destruct k as [|k].
      * cbn [str_take index_nat]. destruct (String.prefix sub "") eqn:E2; [|done].
        destruct sub; [by rewrite prefix_nil in E|by cbn in E2].
      * cbn [str_take index_nat].
        destruct (String.prefix sub (String c (str_take k s))) eqn:E2.
        { apply (prefix_take sub (S k) (String c s)) in E2. congruence. }
        rewrite (IH n' k); [done|done|]. cbn in Hk. lia.
Qed.

Lemma prefix_app_sep sub x c r :
  has_byte c sub = false →
  String.prefix sub (x +:+ String c r) = true → String.prefix sub x = true.
Proof.
  revert x. induction sub as [|a sub IH]; intros x Hb; [intros; apply prefix_nil|].
  cbn in Hb. apply orb_false_iff in Hb as [Ha Hb].
  destruct x as [|b x].
  - rewrite append_nil. cbn. destruct (ascii_dec a c) as [->|]; [|done].
    by rewrite Ascii.eqb_refl in Ha.
  - rewrite append_cons. cbn. destruct (ascii_dec a b); [by apply IH|done].
Qed.

Lemma index_nat_after_sep pre sub c rest :
  has_byte c sub = false → sub ≠ "" → index_nat pre sub = None →
  index_nat (pre +:+ String c (sub +:+ rest)) sub = Some (S (String.length pre)).
Proof.
  intros Hb Hne. induction pre as [|d pre IH].
  - intros _. rewrite append_nil. cbn [index_nat String.length].
    destruct (String.prefix sub (String c (sub +:+ rest))) eqn:E.
    { apply (prefix_app_sep sub "" c (sub +:+ rest) Hb) in E. by destruct sub. }
    assert (index_nat (sub +:+ rest) sub = Some O) as ->; [|done].
    destruct sub as [|a sub]; [done|]. rewrite append_cons. cbn [index_nat].
    pose proof (prefix_refl_app (String a sub) rest) as H. rewrite append_cons in H.
    by rewrite H.
  - cbn [index_nat]. destruct (String.prefix sub (String d pre)) eqn:E; [done|].
    destruct (index_nat pre sub) eqn:E2; [done|]. intros _.
    rewrite append_cons. cbn [index_nat String.length].
    destruct (String.prefix sub (String d (pre +:+ String c (sub +:+ rest)))) eqn:E3.
    { rewrite <- append_cons in E3. apply prefix_app_sep in E3; [|done]. congruence. }
    by rewrite IH.
Qed.

Lemma hostsDeny_run env c h s ev0 :
  readFileIfExists env (etcHostsDeny env) h = ((s, None), ev0) →
  hostsDeny env c h =
  if Contains s hostDenyDefaults then (None, ev0)
  else
    let index := Index s hostDenyMarker in
    let s' := (if 0 <? index then slice_to s (index - 1) else s) +:+ hostDenyDefaults in
    let r := env_WriteFile env (h ++ ev0) (etcHostsDeny env) s' perm0664 in
    (r, ev0 ++ [EvWriteFile (etcHostsDeny env) s' perm0664 r]).
Proof.
  intros Hr. unfold hostsDeny. rewrite run_bind, Hr. cbn beta iota zeta.
  destruct (Contains s hostDenyDefaults); cbn; [by rewrite app_nil_r|].
  done.
Qed.

Lemma hostsAllow_run env c h s ev0 :
  readFileIfExists env (etcHostsAllow env) h = ((s, None), ev0) →
  let index := Index s hostAllowMarker in
  let s' := (if 0 <? index then slice_to s (index - 1) else s) +:+ hostAllowDefaults
            +:+ " " +:+ Join (sort_Strings (elements (clients c))) " " +:+ nl +:+ nl in
  let r := env_WriteFile env (h ++ ev0) (etcHostsAllow env) s' perm0664 in
  hostsAllow env c h = (r, ev0 ++ [EvWriteFile (etcHostsAllow env) s' perm0664 r]).
Proof.
  intros Hr. unfold hostsAllow. rewrite run_bind, Hr. cbn beta iota zeta.
  rewrite run_bind. unfold range at 1. cbn beta iota zeta.
  rewrite sort_Strings_range. unfold atomicfile_WriteFile. cbn.
  by rewrite !app_nil_r.
Qed.

Lemma hostAllowDefaults_marker :
  hostAllowDefaults =
  String "010" (hostAllowMarker +:+
                (nl +:+ "rpcbind mountd nfsd statd lockd rquotad : 127.0.0.1")).
Proof. reflexivity. Qed.

Lemma allow_pre_no_marker s :
  Index s hostAllowMarker ≠ 0 →
  let index := Index s hostAllowMarker in
  index_nat (if 0 <? index then slice_to s (index - 1) else s) hostAllowMarker = None.
Proof.
  unfold Index. destruct (index_nat s hostAllowMarker) as [n|] eqn:E; cbn zeta.
  - intros Hn. assert (0 <? Z.of_nat n = true) as -> by (apply Z.ltb_lt; lia).
    unfold slice_to. apply (index_nat_take s hostAllowMarker n); [done|].
    cbn. lia.
  - intros _. by cbn.
Qed.

Lemma allow_rerun pre rest :
  index_nat pre hostAllowMarker = None →
  let w := pre +:+ hostAllowDefaults +:+ rest in
  let index := Index w hostAllowMarker in
  (if 0 <? index then slice_to w (index - 1) else w) = pre.
Proof.
  intros Hpre. cbn zeta. rewrite hostAllowDefaults_marker.
  rewrite append_cons, append_assoc. unfold Index.
  rewrite index_nat_after_sep; [|done|done|done].
  assert (0 <? Z.of_nat (S (String.length pre)) = true) as -> by (apply Z.ltb_lt; lia).
  replace (Z.of_nat (S (String.length pre)) - 1) with (len pre) by (unfold len; lia).
  apply slice_to_len.
Qed.

Lemma index_nat_slash s : index_nat s "/" = None → no_slash s.
Proof.
  induction s as [|c s IH]; [done|].
  cbn [index_nat String.prefix].
  destruct (ascii_dec "/" c) as [<-|Hc].
  { by destruct s. }
  destruct (index_nat s "/") eqn:E; [done|]. intros _.
  apply no_slash_cons. split; [|by apply IH].
  apply Ascii.eqb_neq. congruence.
Qed.

Lemma valid_name_proper name :
  2 ≤ len name → Contains name "/" = false → name ≠ ".." → proper name.
Proof.
  intros Hl Hc Hn. split; [|split; [|split]]; try done.
  - apply index_nat_slash. unfold Contains, Index in Hc.
    destruct (index_nat name "/"); [|done]. apply Z.leb_gt in Hc. exfalso. lia.
  - intros ->. unfold len in Hl. cbn in Hl. lia.
  - intros ->. unfold len in Hl. cbn in Hl. lia.
Qed.

Lemma Join2_child R name :
  canonical R → proper name →
  Dir (Join2 R name) = R ∧ Join2 R name ≠ R ∧ (Split (Join2 R name)).2 = name ∧
  canonical (Join2 R name).
Proof.
  intros [Hc Ha] Hp. destruct (canonical_abs_of R Hc Ha) as (a & Hpa & ->).
  assert (Forall proper [name]) as Hn by (by constructor).
  assert (Join2 (abs_of a) name = abs_of (a ++ [name])) as ->.
  { by rewrite <- (Join2_abs_of a [name]). }
  assert (Forall proper (a ++ [name])) as Hall by (by apply Forall_app).
  split; [by apply Dir_abs_of_snoc|]. split.
  { intros E%abs_of_inj; [|done|done].
    apply (f_equal length) in E. rewrite length_app in E. cbn in E. lia. }
  split.
  { rewrite abs_of_snoc. apply (f_equal snd (Split_app_slash _ name (proper_no_slash _ Hp))). }
  split; [by apply Clean_abs_of|apply IsAbs_abs_of].
Qed.

Lemma Join2_dotdot R : canonical R → Join2 R ".." = Dir R.
Proof.
  intros [Hc Ha]. destruct (canonical_abs_of R Hc Ha) as (a & Hpa & ->).
  unfold Join2. rewrite decide_False by done.
  change (abs_of a +:+ "/" +:+ "..") with (abs_of a +:+ String "/" "..").
  unfold Clean. unfold HasPrefix.
  replace (String.prefix "/" (abs_of a +:+ String "/" "..")) with true
    by (unfold abs_of; rewrite append_cons; simpl; by destruct (_ +:+ _)).
  rewrite splitSlash_app_slash, splitSlash_abs_of by (by apply Forall_proper_no_slash).
  change (splitSlash "..") with [".."].
  assert (clean_elems true (("" :: (if decide (a = []) then [""] else a)) ++ [".."])
          = removelast a) as ->.
  { rewrite <- app_comm_cons, clean_elems_skip. unfold clean_elems.
    rewrite fold_left_app. cbn [fold_left].
    destruct (decide (a = [])) as [->|Hna]; [done|].
    rewrite fold_clean_proper by done. rewrite app_nil_r.
    destruct a as [|x a _] using rev_ind; [done|].
    rewrite rev_app_distr. cbn [rev app]. unfold clean_step.
    apply Forall_app in Hpa as [Hpa Hx]. rewrite Forall_singleton in Hx.
    destruct Hx as (? & ? & ? & ?).
    rewrite decide_False by (by intros [?|?]). rewrite decide_True by done.
    rewrite decide_False by done. rewrite rev_involutive.
    by rewrite removelast_last. }
  destruct a as [|x a _] using rev_ind; [done|].
  apply Forall_app in Hpa as [Hpa Hx]. rewrite Forall_singleton in Hx.
  rewrite removelast_last. by rewrite Dir_abs_of_snoc.
Qed.

Lemma volumes_apply_op c op p :
  p ∈ volumes (apply_volume_op c op) ↔
  if decide (op_path op = p)
  then match op with OpAddVolume _ => True | OpRemoveVolume _ => False end
  else p ∈ volumes c.
Proof. destruct op as [q|q]; cbn; case_decide; set_solver. Qed.

Lemma Sync_server env c h r c' evs :
  Sync env c h = ((r, c'), evs) →
  (c' = c ∨ c' = set_exported c (set_map baseName (volumes c))) ∧
  (r = None → c' = set_exported c (set_map baseName (volumes c))).
Proof.
  unfold Sync. rewrite run_bind.
  destruct (hostsDeny env c h) as [[e1|] ev1] eqn:H1.
  { cbn. intros [= <- <- <-]. split; [by left|done]. }
  rewrite run_bind.
  destruct (hostsAllow env c (h ++ ev1)) as [[e2|] ev2] eqn:H2.
  { cbn. intros [= <- <- <-]. split; [by left|done]. }
  rewrite run_bind.
  destruct (writeExports env c ((h ++ ev1) ++ ev2)) as [[e3 c3] ev3] eqn:H3.
  apply writeExports_cases in H3 as Hc. cbn zeta in Hc.
  assert (c3 = c ∨ c3 = set_exported c (set_map baseName (volumes c))) as Hc3.
  { destruct Hc as [(e & _ & -> & _)|(vols & ? & ? & ? & _ & -> & _)]; auto. }
  assert (e3 = None → c3 = set_exported c (set_map baseName (volumes c))) as Hok.
  { intros ->. destruct Hc as [(e & [=] & _)|(vols & ? & ? & ? & _ & -> & _)]; auto. }
  destruct e3 as [e3|].
  { cbn. intros [= <- <- <-]. split; [done|done]. }
  rewrite run_bind. unfold start at 1, service at 1. cbn beta iota zeta.
  match goal with
  | |- context [env_Service env ?h' ActStart] =>
      destruct (env_Service env h' ActStart) as [e4|] eqn:H4
  end.
  { cbn. intros [= <- <- <-]. split; [done|done]. }
  rewrite run_bind. unfold reload at 1, service at 1. cbn beta iota zeta.
  match goal with
  | |- context [env_Service env ?h' ActReload] =>
      destruct (env_Service env h' ActReload) as [e5|] eqn:H5
  end.
  { cbn. intros [= <- <- <-]. split; [done|done]. }
  rewrite run_bind.
  match goal with
  | |- context [cleanupBindMounts env ?c' ?h'] =>
      destruct (cleanupBindMounts env c' h') as [u ev6]
  end.
  cbn. intros [= <- <- <-]. split; [done|]. intros _. by apply Hok.
Qed.

Lemma mount_cmdline_shape uid fs dst fsType options :
  mount_cmdline uid fs dst fsType options =
  let rest := flat_map (fun option => ["-o"; option]) options ++
              (if decide (fsType = "") then [] else ["-t"; fsType]) ++
              (if decide (fs = "") then [] else [fs]) ++ [dst] in
  if decide (uid = 0) then ("mount", rest) else ("sudo", "mount" :: rest).
Proof.
  unfold mount_cmdline.
  assert (∀ l, foldl (fun args option => args ++ ["-o"; option]) l options
               = l ++ flat_map (fun option => ["-o"; option]) options) as ->.
  { induction options as [|o options IH]; intros l; cbn.
    - by rewrite app_nil_r.
    - rewrite IH. by rewrite <- app_assoc. }
  assert (∀ s, (0 <? len s) = bool_decide (s ≠ "")) as Hlen.
  { intros s. destruct s; [done|]. unfold len. cbn [String.length].
    rewrite bool_decide_eq_true_2 by done. apply Z.ltb_lt. lia. }
  rewrite !Hlen. cbn zeta.
  destruct (decide (fsType = "")) as [->|Ht], (decide (fs = "")) as [->|Hf];
    repeat case_bool_decide; try done;
    destruct (decide (uid = 0)) as [->|Hu];
    rewrite ?decide_True, ?decide_False by (done || by intros ?);
    cbn; rewrite <- ?app_assoc; done.
Qed.

Lemma writeExports_cases_steps env c h r c' evs :
  writeExports env c h = ((r, c'), evs) →
  let edir := Join2 (exportsDir env) (exportedName c) in
  (∃ e, r = Some e ∧ c' = c ∧ Forall (fun ev => bind_mount_step ev = true) evs) ∨
  (∃ vols evs0 rd evs1,
     vols ≡ₚ elements (volumes c) ∧
     c' = set_exported c (set_map baseName (volumes c)) ∧
     Forall (fun ev => bind_mount_step ev = true) evs0 ∧
     readFileIfExists env (etcExports env) (h ++ evs0) = (rd, evs1) ∧
     match rd with
     | (_, Some e) => r = Some e ∧ evs = evs0 ++ evs1
     | (originalContents, None) =>
         evs = evs0 ++ evs1 ++
               [EvWriteFile (etcExports env)
                  (fileContents
                     (filterContent {[exportsDir env; edir]} originalContents)
                     (exportLines edir (printedNetwork c) vols))
                  perm0664 r]
     end).
Proof.
  intros Hrun edir. revert Hrun. unfold writeExports. rewrite run_bind.
  unfold os_MkdirAll at 1. cbn beta iota zeta.
  destruct (env_MkdirAll env h (exportsDir env) perm0775) as [e1|] eqn:H1.
  { cbn. intros [= <- <- <-]. left. exists e1. by repeat constructor. }
  rewrite run_bind. unfold os_MkdirAll at 1. cbn beta iota zeta. fold edir.
  match goal with
  | |- context [env_MkdirAll env ?h' edir perm0775] =>
      destruct (env_MkdirAll env h' edir perm0775) as [e2|] eqn:H2
  end.
  { cbn. intros [= <- <- <-]. left. exists e2. by repeat constructor. }
  rewrite run_bind. unfold range at 1. cbn beta iota zeta.
  match goal with
  | |- context [env_range env ?h' (volumes c)] => set (vols := env_range env h' (volumes c));
      assert (Hperm : vols ≡ₚ elements (volumes c)) by apply env_range_perm
  end.
  rewrite run_bind. fold (printedNetwork c).
  match goal with
  | |- context [writeExports_loop env edir (printedNetwork c) vols ∅ "" ?h'] =>
      destruct (writeExports_loop env edir (printedNetwork c) vols ∅ "" h')
        as [[[e3 exports] se] ev3] eqn:H3; set (h3 := h') in *
  end.
  pose proof (writeExports_loop_steps _ _ _ _ _ _ _ _ _ H3) as Hst.
  apply writeExports_loop_spec in H3 as [Hns Hok].
  destruct e3 as [e3|].
  { cbn. intros [= <- <- <-]. left. exists e3. split; [done|]. split; [done|].
    rewrite app_nil_r. by repeat constructor. }
  destruct (Hok eq_refl) as [-> ->]. rewrite append_nil.
  rewrite (exported_names vols (volumes c) Hperm).
  cbn beta iota zeta. rewrite run_bind.
  match goal with
  | |- context [readFileIfExists env (etcExports env) ?h'] =>
      destruct (readFileIfExists env (etcExports env) h') as [[orig [e4|]] ev4] eqn:H4;
      set (h4 := h') in *
  end.
  - cbn. intros [= <- <- <-]. right.
    exists vols, ([EvMkdirAll (exportsDir env) perm0775 None;
                   EvMkdirAll edir perm0775 None] ++ ev3), (orig, Some e4), ev4.
    split; [done|]. split; [done|]. split; [by repeat constructor|].
    split.
    + rewrite <- H4. f_equal. subst h4 h3. by rewrite ?app_nil_r, <- ?app_assoc.
    + split; [done|]. cbn. by rewrite ?app_nil_r, <- ?app_assoc.
  - cbn beta iota zeta. rewrite run_bind. unfold atomicfile_WriteFile at 1.
    cbn. intros [= <- <- <-]. right.
    exists vols, ([EvMkdirAll (exportsDir env) perm0775 None;
                   EvMkdirAll edir perm0775 None] ++ ev3), (orig, None), ev4.
    split; [done|]. split; [done|]. split; [by repeat constructor|].
    split.
    + rewrite <- H4. f_equal. subst h4 h3. by rewrite ?app_nil_r, <- ?app_assoc.
    + cbn. rewrite ?app_nil_r, <- ?app_assoc. do 4 f_equal.
Qed.

Lemma readFileIfExists_steps env path h r evs :
  readFileIfExists env path h = (r, evs) →
  evs ≠ [] ∧ Forall (fun ev => on_file path ev = true) evs ∧
  ∀ p content perm res, EvWriteFile p content perm res ∉ evs.
Proof.
  unfold readFileIfExists, doesExists, os_Stat, ioutil_ReadFile. run_monad.
  break_matches; intros ?; simplify_eq; (split; [done|]);
    (split; [repeat constructor; cbn; by rewrite bool_decide_eq_true|set_solver]).
Qed.

End NFSMoreFacts.

(** ** The claims about the driver registry and the path resolver *)

Module VolumeClaims.
Import GoStrings GoPath PathSpec GoPathFacts Volume VolumeFacts Fixtures.

(** The one case in which [InitDriver] binds a driver.  For a backend kind
    with a registered constructor and a canonical absolute root [R] with no
    driver bound to it: when detection (either version of it) on [R] already
    reports that same kind and the constructor builds a driver, then
    [InitDriver kind R] returns without error, and [GetDriver R] then returns
    the driver the constructor built. *)
Lemma InitDriver_then_GetDriver detect reg kind R args init d :
  drivers reg !! kind = Some init →
  canonical R →
  driversByRoot reg !! R = None →
  detect R = (kind, None) →
  init R args = inl d →
  ∃ reg', InitDriver detect kind R args reg = Returns (None, reg') ∧
          GetDriver reg' R = inl d ∧
          (drv_DriverType d = kind →
           ∃ d', GetDriver reg' R = inl d' ∧ drv_DriverType d' = kind).
Proof.
  intros Hk [Hc Ha] Hu Hdet Hinit. unfold InitDriver.
  rewrite Hk, Hc, Hu, Ha. cbn [negb]. rewrite Hdet.
  rewrite bool_decide_false by (by intros [? _]).
  rewrite decide_False by (by intros ?).
  rewrite Hinit. eexists; split; [done|].
  assert (GetDriver (mkRegistry (drivers reg) (<[R:=d]> (driversByRoot reg))) R
          = inl d) as Hget.
  { unfold GetDriver. rewrite Hc. cbn. by rewrite lookup_insert_eq. }
  split; [done|]. intros Hd. by exists d.
Qed.

Lemma InitDriver_then_GetDriver_witness :
  ∃ reg', InitDriver (DetectDriverType fs_rsync_volume) "rsync" "/data" [] reg_kinds
          = Returns (None, reg') ∧
          GetDriver reg' "/data" = inl (rsyncDriver "/data") ∧
          (drv_DriverType (rsyncDriver "/data") = "rsync" →
           ∃ d', GetDriver reg' "/data" = inl d' ∧ drv_DriverType d' = "rsync").
Proof.
  apply (InitDriver_then_GetDriver (DetectDriverType fs_rsync_volume) reg_kinds
                                   "rsync" "/data" []
                                   rsyncInit (rsyncDriver "/data")).
  - reflexivity.
  - split; reflexivity.
  - reflexivity.
  - reflexivity.
  - reflexivity.
Defined.

(** With the btrfs constructor registered and nothing bound to [/data], a
    root on which detection finds a volume of the rsync backend makes
    [InitDriver "btrfs" "/data"] end the process. *)
Lemma InitDriver_conflicting_backend_fatal :
  is_Some (drivers reg_kinds !! "btrfs") ∧
  canonical "/data" ∧
  driversByRoot reg_kinds !! "/data" = None ∧
  DetectDriverType fs_rsync_volume "/data" = ("rsync", None) ∧
  InitDriver (DetectDriverType fs_rsync_volume) "btrfs" "/data" [] reg_kinds
  = Fatalf "btrfs" "/data" "rsync".
Proof.
  split; [by eexists|]. split; [by split|]. by vm_compute.
Qed.

(** C1.  On the root the claim names, one that is not yet initialized, the
    code does not reach the constructor.  For every kind with a registered
    constructor and a name that is not empty, every root whose cleaned form
    is absolute and has no driver bound to it, and a detection (either
    version of it) that reports the cleaned root as not initialized, that is
    returns the empty kind with [ErrDriverNotInit]: [InitDriver] lets that
    error pass (driver.go line 199), then compares the empty kind with the
    kind asked for (line 201) and ends the process in [glog.Fatalf].  No
    driver is bound, so no [GetDriver] follows. *)
Theorem InitDriver_not_initialized_fatal detect reg (kind : DriverType) root args init :
  drivers reg !! kind = Some init →
  driversByRoot reg !! Clean root = None →
  IsAbs (Clean root) = true →
  detect (Clean root) = ("", Some ErrDriverNotInit) →
  kind ≠ "" →
  InitDriver detect kind root args reg = Fatalf kind (Clean root) "".
Proof.
  intros Hk Hu Ha Hdet Hne. unfold InitDriver, DriverInit in *.
  rewrite Hk, Hu, Ha. cbn [negb]. rewrite Hdet.
  rewrite bool_decide_false by (by intros [_ ?]).
  by rewrite decide_True.
Qed.

Lemma InitDriver_not_initialized_fatal_witness :
  InitDriver (DetectDriverType fs_fresh) "rsync" "/data" [] reg_kinds
  = Fatalf "rsync" "/data" "".
Proof.
  apply (InitDriver_not_initialized_fatal (DetectDriverType fs_fresh) reg_kinds
                                          "rsync" "/data" [] rsyncInit).
  - reflexivity.
  - reflexivity.
  - reflexivity.
  - reflexivity.
  - discriminate.
Defined.

(** The run on an existing, empty root, and on a root that does not exist:
    detection returns the empty kind with [ErrDriverNotInit] and
    [InitDriver] ends the process; the registry is the one
    [InitDriver_then_GetDriver] succeeds on once the root holds a volume of
    the kind asked for. *)
Example InitDriver_fresh_root_fatal :
  DetectDriverType fs_fresh "/data" = ("", Some ErrDriverNotInit) ∧
  InitDriver (DetectDriverType fs_fresh) "rsync" "/data" [] reg_kinds
  = Fatalf "rsync" "/data" "" ∧
  DetectDriverType fs_absent "/data" = ("", Some ErrDriverNotInit) ∧
  InitDriver (DetectDriverType fs_absent) "rsync" "/data" [] reg_kinds
  = Fatalf "rsync" "/data" "".
Proof. by vm_compute. Qed.

(** The detection of detect.go on a root that does not exist, and on a root
    that holds no marker directory. *)
Lemma DetectGo_root_missing os_Stat b r d root :
  os_Stat root = inr ENOENT →
  DetectGo.DetectDriverType os_Stat b r d root = ("", Some ErrDriverNotInit).
Proof. intros H. unfold DetectGo.DetectDriverType. by rewrite H. Qed.

Lemma DetectGo_no_marker os_Stat b r d root isDir :
  os_Stat root = inl isDir →
  (∀ t, t ∈ [b; r; d] →
        DetectGo.is_marker_dir (os_Stat (Join2 root ("." +:+ t))) = false) →
  DetectGo.DetectDriverType os_Stat b r d root = ("", Some ErrDriverNotInit).
Proof.
  intros H Hall. unfold DetectGo.DetectDriverType. rewrite H.
  cbn [DetectGo.detect_loop].
  rewrite !Hall by set_solver. done.
Qed.

(** With the detection of detect.go a root with the marker directory of the
    kind asked for is accepted. *)
Lemma DetectGo_marker_found os_Stat b r d root isDir :
  os_Stat root = inl isDir →
  os_Stat (Join2 root ("." +:+ b)) = inl true →
  DetectGo.DetectDriverType os_Stat b r d root = (b, None).
Proof.
  intros H Hb. unfold DetectGo.DetectDriverType. rewrite H.
  cbn [DetectGo.detect_loop]. by rewrite Hb.
Qed.

(** C2, as amended.  For every registry, each part under its own
    conditions only.  (1) For a canonical bound root [R] and a name [V] of
    one proper element (no slash, not empty, neither [.] nor [..]) such that
    the joined path is not a bound root itself, [SplitPath (join R V)]
    returns [(R, V)] and no error.  (2) For a canonical bound root [R]
    (the root [/] too), [SplitPath R] returns [R] and the empty remainder.
    (3) For an absolute path [p] such that neither the cleaned path nor any
    directory above it is a bound root (so in the registry with no bound
    root, for every absolute path), [SplitPath p] returns
    [ErrDriverNotInit]. *)
Theorem SplitPath_inverts_Join2 reg :
  (∀ R d V,
     driversByRoot reg !! R = Some d → canonical R →
     proper V → driversByRoot reg !! Join2 R V = None →
     SplitPath reg (Join2 R V) = Some (R, V, None)) ∧
  (∀ R d,
     driversByRoot reg !! R = Some d → canonical R →
     SplitPath reg R = Some (R, "", None)) ∧
  (∀ p,
     IsAbs p = true →
     Forall (fun A => driversByRoot reg !! A = None) (ancestors p) →
     SplitPath reg p = Some ("", "", Some ErrDriverNotInit)).
Proof.
  split; [|split].
  - intros R d V Hd [Hc Ha] HV Hun.
    destruct (canonical_abs_of R Hc Ha) as (a & Hpa & ->).
    change V with (Join [V] "/") in Hun |- * at 1.
    assert (HV0 : Forall proper [V]) by (constructor; [done|constructor]).
    rewrite Join2_abs_of in Hun |- * by done.
    assert (HV1 : Forall proper [V]) by (constructor; [done|constructor]).
    assert (Hav : Forall proper (a ++ [V])) by (by apply Forall_app).
    unfold SplitPath. rewrite (Clean_abs_of _ Hav), IsAbs_abs_of. cbn [negb].
    rewrite Hun. destruct (length_abs_of _ Hav) as [H1 _].
    destruct (String.length (abs_of (a ++ [V]))) as [|fuel]; [lia|].
    cbn [SplitPath_loop]. rewrite Dir_abs_of_snoc by done. rewrite Hd.
    rewrite (Rel_below a [V]); [done|done|done|done|].
    by apply Clean_abs_of.
  - intros R d Hd [Hc Ha]. unfold SplitPath. by rewrite Hc, Ha, Hd.
  - intros p Hp Hall.
    destruct (SplitPath_abs reg p Hp) as (res & -> & Hspec).
    destruct (deepest reg (ancestors p)) as [A|] eqn:HA; [|by subst].
    unfold deepest in HA.
    apply last_Some_elem_of, list_elem_of_filter in HA as [[d' Hb] Hin].
    rewrite Forall_forall in Hall. by rewrite (Hall A Hin) in Hb.
Qed.

(** The three parts at work: a bound root [/a]; the root [/] bound, which
    leaves part (3) nothing to say and parts (1) and (2) their full
    strength; and the registry with no bound root. *)
Lemma SplitPath_inverts_Join2_witness :
  (SplitPath reg_a (Join2 "/a" "tenant1") = Some ("/a", "tenant1", None) ∧
   SplitPath reg_a "/a" = Some ("/a", "", None) ∧
   SplitPath reg_a "/x/y" = Some ("", "", Some ErrDriverNotInit)) ∧
  (SplitPath reg_slash (Join2 "/" "tenant1") = Some ("/", "tenant1", None) ∧
   SplitPath reg_slash "/" = Some ("/", "", None)) ∧
  SplitPath reg_kinds "/x/../y/z" = Some ("", "", Some ErrDriverNotInit).
Proof.
  split; [|split].
  - destruct (SplitPath_inverts_Join2 reg_a) as (H1 & H2 & H3).
    split; [|split].
    + apply (H1 "/a" (rsyncDriver "/a") "tenant1").
      * reflexivity.
      * split; reflexivity.
      * repeat split; (reflexivity || discriminate).
      * reflexivity.
    + apply (H2 "/a" (rsyncDriver "/a")).
      * reflexivity.
      * split; reflexivity.
    + apply (H3 "/x/y").
      * reflexivity.
      * vm_compute. repeat constructor.
  - destruct (SplitPath_inverts_Join2 reg_slash) as (H1 & H2 & _).
    split.
    + apply (H1 "/" (rsyncDriver "/") "tenant1").
      * reflexivity.
      * split; reflexivity.
      * repeat split; (reflexivity || discriminate).
      * reflexivity.
    + apply (H2 "/" (rsyncDriver "/")).
      * reflexivity.
      * split; reflexivity.
  - destruct (SplitPath_inverts_Join2 reg_kinds) as (_ & _ & H3).
    apply (H3 "/x/../y/z").
    + reflexivity.
    + vm_compute. repeat constructor.
Defined.

(** C2 fails as stated: with [/a] and [/a/b] both bound, splitting
    [join "/a" "b"] returns the deeper root and the empty remainder; and the
    one-segment name [..] leads out of the bound root. *)
Lemma SplitPath_nested_root :
  is_Some (driversByRoot reg_ab !! "/a") ∧
  SplitPath reg_ab (Join2 "/a" "b") = Some ("/a/b", "", None) ∧
  SplitPath reg_ab (Join2 "/a" "..") = Some ("", "", Some ErrDriverNotInit).
Proof. split; [by eexists|]. by vm_compute. Qed.

(** C5, as amended.  For a canonical bound root and any name, [Mount] fails
    with [ErrDriverNotInit] when no bound root lies at or above the cleaned
    joined path, with [ErrBadMount] when the deepest bound root there is not
    [root], with [ErrPathIsDriver] when the joined path is [root] itself;
    in every other case (whether or not the remainder of the split equals
    the name) it returns what the driver's [Get] returns for the name when
    the volume exists, and what [Create] returns when it does not. *)
Theorem Mount_deepest_root reg name root d :
  driversByRoot reg !! root = Some d → canonical root →
  Mount reg name root =
  Some (match deepest reg (ancestors (Join2 root name)) with
        | None => inr ErrDriverNotInit
        | Some R =>
            if decide (R ≠ root) then inr ErrBadMount
            else if decide (Join2 root name = root) then inr ErrPathIsDriver
            else if Exists d name then Get d name else Create d name
        end).
Proof. apply Mount_deepest. Qed.

Lemma Mount_deepest_root_witness :
  Mount reg_a "../a/tenant0" "/a" =
  Some (match deepest reg_a (ancestors (Join2 "/a" "../a/tenant0")) with
        | None => inr ErrDriverNotInit
        | Some R =>
            if decide (R ≠ "/a") then inr ErrBadMount
            else if decide (Join2 "/a" "../a/tenant0" = "/a") then inr ErrPathIsDriver
            else if Exists (rsyncDriver "/a") "../a/tenant0"
                 then Get (rsyncDriver "/a") "../a/tenant0"
                 else Create (rsyncDriver "/a") "../a/tenant0"
        end).
Proof.
  apply (Mount_deepest_root reg_a "../a/tenant0" "/a" (rsyncDriver "/a")).
  - reflexivity.
  - split; reflexivity.
Defined.

(** C5 fails as stated: the name [x/../b] holds a traversal segment and the
    joined path splits into [("/a", "b")], not [("/a", "x/../b")], yet
    [Mount] does not fail: it has the driver create a volume of that name. *)
Lemma Mount_accepts_inner_traversal :
  is_Some (driversByRoot reg_a !! "/a") ∧
  SplitPath reg_a (Join2 "/a" "x/../b") = Some ("/a", "b", None) ∧
  Mount reg_a "x/../b" "/a" = Some (inl (mkVolume "x/../b" "/a/b")).
Proof. split; [by eexists|]. by vm_compute. Qed.

End VolumeClaims.

(** ** The claims about the export synchronizer *)

Module NFSClaims.
Import GoStrings GoPath PathSpec GoPathFacts NFS NFSFacts Fixtures.

(** C6.  After a successful [Sync], run on a server whose clients were last
    set by [SetClients addrs] (volumes may have been added and removed
    since), the access-allow file has been written with a block that grants
    the fixed daemon list to 127.0.0.1 followed by the addresses of [addrs],
    each once, in ascending byte-wise order, joined by single spaces. *)
Theorem Sync_allow_block env c0 addrs ops h c' evs :
  Sync env (foldl apply_volume_op (SetClients addrs c0) ops) h = ((None, c'), evs) →
  ∃ hosts pre,
    StronglySorted String.le hosts ∧ NoDup hosts ∧ (∀ x, x ∈ hosts ↔ x ∈ addrs) ∧
    EvWriteFile (etcHostsAllow env)
      (pre +:+ hostAllowDefaults +:+ " " +:+ Join hosts " " +:+ nl +:+ nl)
      perm0664 None ∈ evs.
Proof.
  intros (ev1 & ev2 & ev3 & ev4 & _ & Hallow & _ & ->)%Sync_ok.
  apply hostsAllow_ok in Hallow as (pre & evs0 & ->).
  rewrite apply_volume_ops_clients, SetClients_clients.
  exists (sort_Strings (elements (list_to_set addrs : gset string))), pre.
  split; [apply sort_Strings_sorted|]. split; [|split].
  - rewrite sort_Strings_perm. apply NoDup_elements.
  - intros x. rewrite sort_Strings_perm, elem_of_elements. apply elem_of_list_to_set.
  - rewrite !elem_of_app, list_elem_of_singleton. right. left. by right.
Qed.

Lemma Sync_allow_block_witness :
  ∃ hosts pre,
    StronglySorted String.le hosts ∧ NoDup hosts ∧
    (∀ x, x ∈ hosts ↔ x ∈ ["10.0.0.7"; "10.0.0.12"; "10.0.0.7"]) ∧
    EvWriteFile (etcHostsAllow machine0)
      (pre +:+ hostAllowDefaults +:+ " " +:+ Join hosts " " +:+ nl +:+ nl)
      perm0664 None ∈ (Sync machine0 server1 []).2.
Proof.
  apply (Sync_allow_block machine0 server0 ["10.0.0.7"; "10.0.0.12"; "10.0.0.7"]
                          [OpAddVolume "/data/volumes/tenant1"] []
                          (Sync machine0 server1 []).1.2).
  vm_compute. reflexivity.
Defined.

(** The block of the scenario, as it is written. *)
Example Sync_allow_block_scenario :
  EvWriteFile "/etc/hosts.allow"
    (hostAllowDefaults +:+ " 10.0.0.12 10.0.0.7" +:+ nl +:+ nl) perm0664 None
  ∈ (Sync machine0 server1 []).2.
Proof. vm_compute. do 3 right. left. Qed.

(** C10, as amended.  With [n] permitted clients [Clients] returns a slice
    of length [n]; for [n >= 1] it holds one permitted address at index 0
    and [n - 1] empty strings after it; for [n >= 2] it does not hold all
    the permitted addresses, unless [n = 2] and the empty string is one of
    the two. *)
Theorem Clients_index_0_only env c h :
  let n := size (clients c) in
  let r := (Clients env c h).1 in
  length r = n ∧
  ((1 ≤ n)%nat → ∃ k, k ∈ clients c ∧ r = k :: replicate (n - 1) "") ∧
  ((2 ≤ n)%nat → (3 ≤ n)%nat ∨ "" ∉ clients c →
   ¬ (∀ x, x ∈ clients c → x ∈ r)).
Proof.
  intros n r. subst r. unfold Clients, range. run_monad. cbn [fst].
  set (keys := env_range env h (clients c)).
  assert (Hlen : length keys = n) by apply range_length.
  assert (Hk : (1 ≤ n)%nat → ∃ k, k ∈ clients c ∧
            copy_keys_at_0 n keys = k :: replicate (n - 1) "").
  { intros Hn. destruct (last keys) as [k|] eqn:Hlast.
    - exists k. split; [|by apply copy_keys_at_0_last].
      apply (range_elem_of env h). by apply last_Some_elem_of.
    - apply last_None in Hlast. rewrite Hlast in Hlen. simpl in Hlen. lia. }
  split; [apply copy_keys_at_0_length|]. split; [done|].
  intros Hn Hcase Hall. destruct (Hk ltac:(lia)) as (k & Hkin & Hr).
  fold n in Hall. rewrite Hr in Hall.
  assert (Hsub : ∀ x, x ∈ clients c → x = k ∨ x = "").
  { intros x Hx. apply Hall in Hx. apply elem_of_cons in Hx as [?|Hx]; [by left|].
    right. by apply elem_of_replicate_inv in Hx. }
  destruct Hcase as [H3|Hempty].
  - assert (clients c ⊆ {[k]} ∪ {[""]}) as Hs.
    { intros x Hx. destruct (Hsub x Hx) as [->| ->]; set_solver. }
    apply subseteq_size in Hs. rewrite size_union_alt, size_singleton in Hs.
    assert (size (({[""]} : gset string) ∖ {[k]}) ≤ 1)%nat.
    { rewrite <- (size_singleton (C := gset string) "").
      apply subseteq_size. set_solver. }
    fold n in Hs. lia.
  - assert (clients c ⊆ {[k]}) as Hs.
    { intros x Hx. destruct (Hsub x Hx) as [->| ->]; [set_solver|done]. }
    apply subseteq_size in Hs. rewrite size_singleton in Hs. fold n in Hs. lia.
Qed.

Lemma Clients_index_0_only_witness :
  (Clients machine0 (SetClients ["a"; "b"; "c"] server0) []).1 = ["c"; ""; ""] ∧
  ¬ (∀ x, x ∈ clients (SetClients ["a"; "b"; "c"] server0) →
          x ∈ (Clients machine0 (SetClients ["a"; "b"; "c"] server0) []).1).
Proof.
  destruct (Clients_index_0_only machine0 (SetClients ["a"; "b"; "c"] server0) [])
    as (_ & _ & H).
  split; [reflexivity|]. apply H.
  - vm_compute. lia.
  - left. vm_compute. lia.
Defined.

(** C10 fails as stated: with the two permitted addresses [""] and ["a"],
    visited in this order, the slice returned is [["a"; ""]], which holds
    both of them. *)
Lemma Clients_with_empty_address :
  size (clients (SetClients [""; "a"] server0)) = 2%nat ∧
  (Clients machine0 (SetClients [""; "a"] server0) []).1 = ["a"; ""] ∧
  ∀ x, x ∈ clients (SetClients [""; "a"] server0) →
       x ∈ (Clients machine0 (SetClients [""; "a"] server0) []).1.
Proof.
  split; [reflexivity|]. split; [reflexivity|].
  intros x. rewrite SetClients_clients. change (Clients _ _ _).1 with ["a"; ""].
  set_solver.
Qed.





(** The run of the witness: the first command fails with exit status 32,
    the second one carries both options and succeeds. *)
Example bindMountImp_stale_handle_run :
  bindMountImp machine_stale "/data/volumes/tenant1" "/exports/shares/tenant1" [] =
  (None,
   [EvReadMounts (inl []);
    EvMkdirAll "/exports/shares/tenant1" perm0775 None;
    EvGetuid 0;
    EvExec "mount" ["-o"; "bind"; "/data/volumes/tenant1"; "/exports/shares/tenant1"]
           "mount: Stale file handle" (Some (ErrExit "exit status 32" 32));
    EvGetuid 0;
    EvExec "mount" ["-o"; "bind"; "-o"; "remount"; "/data/volumes/tenant1";
                    "/exports/shares/tenant1"] "" None]).
Proof. reflexivity. Qed.

(** C3, as amended.  After a successful [Sync] the exported set is the set
    of the base names of the desired volume paths.  When [writeExports]
    fails before it turns to the exports file (creating the directories,
    bind-mounting) the exported set is what it was; when it fails reading or
    writing the exports file the exported set has already been replaced by
    the set of base names. *)
Theorem Sync_exported_set env c h :
  (∀ c' evs, Sync env c h = ((None, c'), evs) →
             exported c' = set_map baseName (volumes c)) ∧
  (∀ e c' evs, writeExports env c h = ((Some e, c'), evs) →
               exported c' = if existsb is_stat evs
                             then set_map baseName (volumes c)
                             else exported c).
Proof.
  split.
  - intros c' evs (ev1 & ev2 & ev3 & ev4 & _ & _ & Hw & _)%Sync_ok.
    apply writeExports_cases in Hw as [(e & [=] & _)|(vols & ? & ? & ? & _ & -> & _)].
    done.
  - intros e c' evs Hw.
    apply writeExports_cases in Hw
        as [(e' & _ & -> & ->)|(vols & evs0 & rd & evs1 & _ & -> & _ & Hrd & Hevs)];
      [done|].
    apply readFileIfExists_stat in Hrd.
    assert (existsb is_stat evs = true) as ->; [|done].
    destruct rd as [orig [e4|]].
    + destruct Hevs as [_ ->]. rewrite existsb_app, Hrd. apply orb_true_r.
    + rewrite Hevs, !existsb_app, Hrd. by rewrite orb_true_r.
Qed.

Lemma Sync_exported_set_witness :
  exported (Sync machine0 server1 []).1.2 = set_map baseName (volumes server1) ∧
  exported (writeExports machine_disk_full server1 []).1.2
  = (if existsb is_stat (writeExports machine_disk_full server1 []).2
     then set_map baseName (volumes server1)
     else exported server1).
Proof.
  split.
  - apply (proj1 (Sync_exported_set machine0 server1 [])
                 _ (Sync machine0 server1 []).2).
    vm_compute. reflexivity.
  - apply (proj2 (Sync_exported_set machine_disk_full server1 [])
                 (ErrOS "no space left on device")).
    vm_compute. reflexivity.
Defined.

(** C3 fails as stated: the bind mount succeeds, writing the exports file
    fails, [writeExports] returns the error, and the exported set is no
    longer the empty set it was. *)
Lemma writeExports_fails_after_replacing :
  exported server1 = ∅ ∧
  (writeExports machine_disk_full server1 []).1.1
  = Some (ErrOS "no space left on device") ∧
  exported (writeExports machine_disk_full server1 []).1.2 = {["tenant1"]}.
Proof. by vm_compute. Qed.


(** C9, as amended.  [cleanupBindMounts] lists the export directory; when
    that fails it does nothing more.  Otherwise it goes through the entries
    in order: an entry whose name is in the exported set, or that is not a
    directory, is left alone; for every other entry it reads the mount
    table, gives the entry up when that fails (a failure whose message is
    [not found] counts as a table without the directory), unmounts the
    directory when the table holds it, gives the entry up when unmounting
    fails, and otherwise removes the directory, bind-mounted or not.  So every removal
    and every unmounting is that of a directory entry missing from the
    exported set, and when neither reading the mount table nor unmounting
    ever fails, each such entry is removed. *)
Theorem cleanupBindMounts_trace env c h :
  let edir := Join2 (exportsDir env) (exportedName c) in
  let evs := (cleanupBindMounts env c h).2 in
  match env_ReadDir env h edir with
  | inr e => evs = [EvReadDir edir (inr e)]
  | inl entries =>
      (∃ traces, Forall2 (entry_trace env c edir) entries traces ∧
                 evs = EvReadDir edir (inl entries) :: concat traces) ∧
      (∀ ev, ev ∈ evs →
             match ev with
             | EvRemoveAll p _ | EvExec _ [_; p] _ _ =>
                 ∃ file, file ∈ entries ∧ stale_entry c file ∧
                         p = Join2 edir (fi_Name file)
             | EvExec _ _ _ _ => False
             | _ => True
             end) ∧
      ((∀ h', ∃ mounts, env_ReadMounts env h' = inl mounts) →
       (∀ h' args, (env_Exec env h' "umount" args).2 = None) →
       ∀ file, file ∈ entries → stale_entry c file →
               ∃ r, EvRemoveAll (Join2 edir (fi_Name file)) r ∈ evs)
  end.
Proof.
  intros edir evs. subst evs. unfold cleanupBindMounts. fold edir.
  rewrite run_bind. unfold ioutil_ReadDir. cbn beta iota zeta.
  destruct (env_ReadDir env h edir) as [entries|e]; [|done].
  match goal with
  | |- context [cleanup_loop env c edir entries ?h'] =>
      destruct (cleanup_loop_trace env c edir entries h') as (traces & HF & Ht);
      destruct (cleanup_loop env c edir entries h') as [[] evs']
  end.
  cbn in Ht. subst evs'. cbn [snd app].
  split; [by exists traces|]. split.
  - intros ev [->|Hin]%elem_of_cons; [done|].
    apply elem_of_concat in Hin as (tr & Hev & Htr).
    apply list_elem_of_lookup in Htr as [i Hi].
    destruct (Forall2_lookup_r _ _ _ _ _ HF Hi) as (file & Hfile & Htrace).
    apply list_elem_of_lookup_2 in Hfile.
    destruct Htrace; set_unfold;
      repeat match goal with H : _ ∨ _ |- _ => destruct H end;
      subst; try done; by exists file.
  - intros Hm Hu file Hfile Hstale.
    apply list_elem_of_lookup in Hfile as [i Hi].
    destruct (Forall2_lookup_l _ _ _ _ _ HF Hi) as (tr & Htr & Htrace).
    apply list_elem_of_lookup_2 in Htr.
    assert (∃ r, EvRemoveAll (Join2 edir (fi_Name file)) r ∈ tr) as [r Hr].
    { destruct Htrace as [Hn|h' e ? He|mounts r|e r|h' mounts out e ?? Hx|mounts out r].
      - done.
      - destruct (Hm h') as [mounts Hmounts]. by rewrite Hmounts in He.
      - exists r. set_solver.
      - exists r. set_solver.
      - specialize (Hu h' ["-f"; Join2 edir (fi_Name file)]). by rewrite Hx in Hu.
      - exists r. set_solver. }
    exists r. right. apply elem_of_concat. by exists tr.
Qed.


Lemma cleanupBindMounts_trace_witness :
  ∃ r, EvRemoveAll "/exports/shares/old" r
       ∈ (cleanupBindMounts machine_old_dir server2 []).2.
Proof.
  destruct (cleanupBindMounts_trace machine_old_dir server2 []) as (_ & _ & H).
  apply (H (fun _ => ex_intro _ [] eq_refl) (fun _ _ => eq_refl)
           (mkFileInfo "old" true)).
  - left.
  - split; [|reflexivity]. apply (bool_decide_unpack _). vm_compute. exact I.
Defined.

(** C9 fails as stated, on both sides.  A directory [old] that is not in the
    exported set and not bind-mounted is removed; and when [old] is
    bind-mounted and unmounting it fails, it is not removed. *)
Lemma cleanupBindMounts_not_exactly_the_mounted :
  exported server2 = {["tenant1"]} ∧
  (cleanupBindMounts machine_old_dir server2 []).2 =
  [EvReadDir "/exports/shares"
             (inl [mkFileInfo "old" true; mkFileInfo "tenant1" true]);
   EvReadMounts (inl []);
   EvRemoveAll "/exports/shares/old" None] ∧
  (cleanupBindMounts machine_old_busy server2 []).2 =
  [EvReadDir "/exports/shares"
             (inl [mkFileInfo "old" true; mkFileInfo "tenant1" true]);
   EvReadMounts (inl [mkMount "/data/volumes/old" "/exports/shares/old"]);
   EvExec "umount" ["-f"; "/exports/shares/old"] "umount: target is busy"
          (Some (ErrExit "exit status 32" 32))].
Proof. by vm_compute. Qed.


(** C4, as amended.  A successful [writeExports] ends with writing the
    exports file.  Of what it read (nothing when the file does not exist)
    it keeps every line the scanner delivers, without the white space around
    it and followed by one line feed, and comments out the lines whose first
    field is one of the two mount directories: a file of lines that have no
    white space around them, end in a line feed, fit the scanner and are not
    commented out comes through unchanged.  In this filtered text the
    content from the first begin marker through the first end marker after
    it is replaced by the begin marker, the lines of the desired volumes and
    the end marker; what precedes and what follows is kept.  Without a begin
    marker the section is added at the end; with a begin marker and no end
    marker after it, all that follows the begin marker is dropped. *)
Theorem writeExports_file_contents env c h c' evs :
  writeExports env c h = ((None, c'), evs) →
  let edir := Join2 (exportsDir env) (exportedName c) in
  let mp : gset string := {[exportsDir env; edir]} in
  ∃ vols orig evs0,
    vols ≡ₚ elements (volumes c) ∧
    (EvReadFile (etcExports env) (inl orig) ∈ evs0 ∨
     orig = "" ∧ EvStat (etcExports env) StatNotExist ∈ evs0) ∧
    let F := filterContent mp orig in
    let E := exportLines edir (printedNetwork c) vols in
    evs = evs0 ++ [EvWriteFile (etcExports env) (fileContents F E) perm0664 None] ∧
    F = foldr String.append "" (filterLine mp <$> scanLines orig) ∧
    (∀ text,
       HasPrefix (TrimSpace text) "#" = true ∨
       (∀ mountpoint, head (Fields (TrimSpace text)) = Some mountpoint →
                      mountpoint ∉ mp) →
       filterLine mp text = TrimSpace text +:+ nl) ∧
    (∀ ls, orig = unlines ls → Forall (kept_line mp) ls → F = orig) ∧
    (Index F etcExportsStartMarker < 0 →
     fileContents F E = F +:+ etcExportsStartMarker +:+ E +:+ etcExportsEndMarker) ∧
    (∀ pre M post,
       F = pre +:+ etcExportsStartMarker +:+ M +:+ etcExportsEndMarker +:+ post →
       Index F etcExportsStartMarker = len pre →
       Index (etcExportsStartMarker +:+ M +:+ etcExportsEndMarker +:+ post)
             etcExportsEndMarker = len (etcExportsStartMarker +:+ M) →
       fileContents F E =
       pre +:+ etcExportsStartMarker +:+ E +:+ etcExportsEndMarker +:+ post) ∧
    (∀ pre rest,
       F = pre +:+ etcExportsStartMarker +:+ rest →
       Index F etcExportsStartMarker = len pre →
       Index (etcExportsStartMarker +:+ rest) etcExportsEndMarker < 0 →
       fileContents F E =
       pre +:+ etcExportsStartMarker +:+ E +:+ etcExportsEndMarker).
Proof.
  intros Hw edir mp.
  apply writeExports_ok in Hw as (vols & orig & evs0 & Hp & -> & Hread).
  exists vols, orig, evs0. split; [done|]. split; [done|].
  cbn zeta. split; [done|]. split; [apply filterContent_lines|].
  split; [apply filterLine_keep|]. split.
  { intros ls -> Hall. by apply filterContent_kept. }
  split; [apply fileContents_no_marker|]. split.
  - intros pre M post HF H1 H2. fold edir mp in HF, H1 |- *. rewrite HF in H1 |- *.
    by apply fileContents_markers.
  - intros pre rest HF H1 H2. fold edir mp in HF, H1 |- *. rewrite HF in H1 |- *.
    by apply fileContents_no_end.
Qed.

Lemma writeExports_file_contents_witness :
  let edir := Join2 (exportsDir machine_exports) (exportedName server1) in
  let mp : gset string := {[exportsDir machine_exports; edir]} in
  ∃ vols orig evs0,
    vols ≡ₚ elements (volumes server1) ∧
    (EvReadFile (etcExports machine_exports) (inl orig) ∈ evs0 ∨
     orig = "" ∧ EvStat (etcExports machine_exports) StatNotExist ∈ evs0) ∧
    let F := filterContent mp orig in
    let E := exportLines edir (printedNetwork server1) vols in
    (writeExports machine_exports server1 []).2
    = evs0 ++ [EvWriteFile (etcExports machine_exports) (fileContents F E)
                           perm0664 None] ∧
    F = foldr String.append "" (filterLine mp <$> scanLines orig) ∧
    (∀ text,
       HasPrefix (TrimSpace text) "#" = true ∨
       (∀ mountpoint, head (Fields (TrimSpace text)) = Some mountpoint →
                      mountpoint ∉ mp) →
       filterLine mp text = TrimSpace text +:+ nl) ∧
    (∀ ls, orig = unlines ls → Forall (kept_line mp) ls → F = orig) ∧
    (Index F etcExportsStartMarker < 0 →
     fileContents F E = F +:+ etcExportsStartMarker +:+ E +:+ etcExportsEndMarker) ∧
    (∀ pre M post,
       F = pre +:+ etcExportsStartMarker +:+ M +:+ etcExportsEndMarker +:+ post →
       Index F etcExportsStartMarker = len pre →
       Index (etcExportsStartMarker +:+ M +:+ etcExportsEndMarker +:+ post)
             etcExportsEndMarker = len (etcExportsStartMarker +:+ M) →
       fileContents F E =
       pre +:+ etcExportsStartMarker +:+ E +:+ etcExportsEndMarker +:+ post) ∧
    (∀ pre rest,
       F = pre +:+ etcExportsStartMarker +:+ rest →
       Index F etcExportsStartMarker = len pre →
       Index (etcExportsStartMarker +:+ rest) etcExportsEndMarker < 0 →
       fileContents F E =
       pre +:+ etcExportsStartMarker +:+ E +:+ etcExportsEndMarker).
Proof.
  apply (writeExports_file_contents machine_exports server1 []
           (writeExports machine_exports server1 []).1.2).
  vm_compute. reflexivity.
Defined.

(** The rewriting of the file of [machine_exports]: the two lines of the
    operator that name a mount directory are commented out, the managed
    section is replaced, the rest is kept. *)
Example writeExports_rewrites_managed_section :
  last (writeExports machine_exports server1 []).2 =
  Some (EvWriteFile "/etc/exports"
          (unlines ["/srv/nfs 192.168.0.0/24(ro)";
                    "# serviced removed: /exports   *(rw)";
                    "";
                    "# --- SERVICED EXPORTS BEGIN ---";
                    "# --- Do not edit this section";
                    "/exports/shares/tenant1" +:+ tab +:+
                    "10.0.0.0/24(rw,no_root_squash,insecure,no_subtree_check,async)";
                    "";
                    "# --- SERVICED EXPORTS END ---";
                    "# serviced removed: /exports/shares 10.0.0.0/8(rw)"])
          perm0664 None).
Proof. by vm_compute. Qed.

(** C4 fails as stated: the line of the operator is indented in the file
    read and is not in the file written; what was read is not even a prefix
    of what is written. *)
Lemma writeExports_trims_lines :
  (writeExports machine_indented server1 []).1.1 = None ∧
  EvReadFile "/etc/exports" (inl ("  /srv/nfs *(ro)" +:+ nl))
  ∈ (writeExports machine_indented server1 []).2 ∧
  last (writeExports machine_indented server1 []).2 =
  Some (EvWriteFile "/etc/exports"
          ("/srv/nfs *(ro)" +:+ nl +:+ etcExportsStartMarker +:+
           exportLine "/exports/shares/tenant1" "10.0.0.0/24" +:+
           etcExportsEndMarker)
          perm0664 None).
Proof.
  split; [by vm_compute|]. split; [|by vm_compute].
  vm_compute. do 7 right. left.
Qed.



(** The run of the witness.  The exports file holds a line for the export
    root in front of the managed section and a line for the mount directory
    behind it: both are written with the removal comment in front, and the
    managed section is replaced. *)
Example writeExports_conflicts_commented :
  last (writeExports machine_exports server1 []).2 =
  Some (EvWriteFile "/etc/exports"
          (unlines ["/srv/nfs 192.168.0.0/24(ro)";
                    "# serviced removed: /exports   *(rw)"] +:+
           etcExportsStartMarker +:+
           "/exports/shares/tenant1" +:+ tab +:+
           "10.0.0.0/24(rw,no_root_squash,insecure,no_subtree_check,async)" +:+ nl +:+
           etcExportsEndMarker +:+
           unlines ["# serviced removed: /exports/shares 10.0.0.0/8(rw)"])
          perm0664 None).
Proof. by vm_compute. Qed.

(** In that file both lines lie outside the managed section in the sense
    of the theorem: the first ends with the line feed in front of the begin
    marker's, the second starts where the end marker ends. *)
Example writeExports_outside_lines :
  let mp : gset string := {["/exports"; "/exports/shares"]} in
  let F := filterContent mp exports_before in
  let i := Index F etcExportsStartMarker in
  let j := Index (slice_from F i) etcExportsEndMarker in
  let cat ls := foldr String.append "" (filterLine mp <$> ls) in
  scanLines exports_before =
    ["/srv/nfs 192.168.0.0/24(ro)"] ++ "  /exports   *(rw)  " ::
    [""; "# --- SERVICED EXPORTS BEGIN ---"; "# --- Do not edit this section";
     "/exports/shares/old" +:+ tab +:+ "*(rw)"; "";
     "# --- SERVICED EXPORTS END ---"; "/exports/shares 10.0.0.0/8(rw)"] ∧
  Fields (TrimSpace "  /exports   *(rw)  ") = ["/exports"; "*(rw)"] ∧
  len (cat ["/srv/nfs 192.168.0.0/24(ro)"] +:+
       etcExportsRemoveComment +:+ TrimSpace "  /exports   *(rw)  " +:+ nl) ≤ i + 1 ∧
  Fields (TrimSpace "/exports/shares 10.0.0.0/8(rw)") =
    ["/exports/shares"; "10.0.0.0/8(rw)"] ∧
  0 ≤ i ∧ 0 ≤ j ∧
  i + j + len etcExportsEndMarker ≤
  len (cat ["/srv/nfs 192.168.0.0/24(ro)"; "  /exports   *(rw)  ";
            ""; "# --- SERVICED EXPORTS BEGIN ---"; "# --- Do not edit this section";
            "/exports/shares/old" +:+ tab +:+ "*(rw)"; "";
            "# --- SERVICED EXPORTS END ---"]).
Proof. by vm_compute. Qed.

(** Inside the managed section a line is not kept, with or without the
    removal comment: the section is replaced as a whole, and it runs to the
    end of the file when no end marker follows the begin marker. *)
Example writeExports_section_replaced :
  last (writeExports machine_inside server1 []).2 =
  Some (EvWriteFile "/etc/exports"
          (unlines ["/srv/nfs *(ro)"] +:+
           etcExportsStartMarker +:+
           "/exports/shares/tenant1" +:+ tab +:+
           "10.0.0.0/24(rw,no_root_squash,insecure,no_subtree_check,async)" +:+ nl +:+
           etcExportsEndMarker +:+
           unlines ["# serviced removed: /exports 10.0.0.0/8(rw)"])
          perm0664 None) ∧
  last (writeExports machine_open server1 []).2 =
  Some (EvWriteFile "/etc/exports"
          (unlines ["/srv/nfs *(ro)"] +:+
           etcExportsStartMarker +:+
           "/exports/shares/tenant1" +:+ tab +:+
           "10.0.0.0/24(rw,no_root_squash,insecure,no_subtree_check,async)" +:+ nl +:+
           etcExportsEndMarker)
          perm0664 None).
Proof. by vm_compute. Qed.

(** The scanner stops at a line of 64 KiB or more and [writeExports] does
    not look at its error: that line and the lines behind it are not
    delivered, and none of them is written. *)
Example writeExports_overlong_line :
  last (writeExports machine_long server1 []).2 =
  Some (EvWriteFile "/etc/exports"
          (etcExportsStartMarker +:+
           "/exports/shares/tenant1" +:+ tab +:+
           "10.0.0.0/24(rw,no_root_squash,insecure,no_subtree_check,async)" +:+ nl +:+
           etcExportsEndMarker)
          perm0664 None).
Proof. by vm_compute. Qed.

(** The wildcard: the network 0.0.0.0/0 is printed as an asterisk. *)
Example exportLines_wildcard :
  exportLines "/exports/shares"
              (printedNetwork (mkServer "/data/volumes" "shares" "" "0.0.0.0/0" ∅ ∅ ∅))
              ["/data/volumes/tenant1"] =
  "/exports/shares/tenant1" +:+ tab +:+
  "*(rw,no_root_squash,insecure,no_subtree_check,async)" +:+ nl.
Proof. reflexivity. Qed.


End NFSClaims.

(** ** Further properties of the driver registry and the path resolver *)

Module VolumeExtras.
Import GoStrings GoPath PathSpec GoPathFacts Volume VolumeOps VolumeFacts.
Import VolumeOpsFacts OldDetect Fixtures OpsFixtures.

(** X1.  Registration is first come, first served.  A name that is not
    registered is registered by [Register] with the constructor given; the
    other names and the bound roots stay as they are; a second [Register]
    of the name fails with [ErrDriverExists] and keeps the first
    constructor, and a nil constructor fails with [ErrInvalidDriverInit]. *)
Theorem Register_first_wins name f g reg :
  Registered name reg = false →
  let reg1 := (Register name (Some f) reg).2 in
  Register name (Some f) reg = (None, reg1) ∧
  Registered name reg1 = true ∧
  drivers reg1 !! name = Some f ∧
  (∀ other, other ≠ name → drivers reg1 !! other = drivers reg !! other) ∧
  driversByRoot reg1 = driversByRoot reg ∧
  Register name (Some g) reg1 = (Some ErrDriverExists, reg1) ∧
  Register name None reg1 = (Some ErrInvalidDriverInit, reg1).
Proof.
  unfold Registered. intros Hn%bool_decide_eq_false. 
  assert (drivers reg !! name = None) as Hnone.
  { destruct (drivers reg !! name) eqn:E; [|done]. destruct Hn. by eexists. }
  unfold Register. rewrite Hnone. cbn.
  rewrite lookup_insert_eq. split; [done|]. split.
  { apply bool_decide_eq_true. by eexists. }
  split; [done|]. split; [|done].
  intros other Ho. by rewrite lookup_insert_ne.
Qed.

Lemma Register_first_wins_witness :
  let reg1 := (Register "rsync" (Some rsyncInit) init).2 in
  Register "rsync" (Some rsyncInit) init = (None, reg1) ∧
  Registered "rsync" reg1 = true ∧
  drivers reg1 !! "rsync" = Some rsyncInit ∧
  (∀ other, other ≠ "rsync" → drivers reg1 !! other = drivers init !! other) ∧
  driversByRoot reg1 = driversByRoot init ∧
  Register "rsync" (Some btrfsInit) reg1 = (Some ErrDriverExists, reg1) ∧
  Register "rsync" None reg1 = (Some ErrInvalidDriverInit, reg1).
Proof.
  apply (Register_first_wins "rsync" rsyncInit btrfsInit init). reflexivity.
Defined.

(** X2.  [Unregister] removes the constructor of the name and unbinds
    exactly the roots whose driver is of that kind: a root is bound
    afterwards if and only if it was bound to a driver of another kind, and
    then to the same driver; [GetDriver] fails with [ErrDriverNotInit] for
    the roots that were unbound; unregistering twice changes nothing
    more. *)
Theorem Unregister_unbinds name reg :
  let reg' := Unregister name reg in
  Registered name reg' = false ∧
  (∀ other, other ≠ name → drivers reg' !! other = drivers reg !! other) ∧
  (∀ R d, driversByRoot reg' !! R = Some d ↔
          driversByRoot reg !! R = Some d ∧ drv_DriverType d ≠ name) ∧
  (∀ root d, GetDriver reg root = inl d → drv_DriverType d = name →
             GetDriver reg' root = inr ErrDriverNotInit) ∧
  (∀ root d, GetDriver reg root = inl d → drv_DriverType d ≠ name →
             GetDriver reg' root = inl d) ∧
  Unregister name reg' = reg'.
Proof.
  cbn zeta. unfold Unregister, Registered, GetDriver. cbn.
  split. { apply bool_decide_eq_false. rewrite lookup_delete_eq. by intros [? ?]. }
  split. { intros other Ho. by rewrite lookup_delete_ne. }
  split. { intros R d. by rewrite map_lookup_filter_Some. }
  split.
  { intros root d. destruct (driversByRoot reg !! Clean root) as [d'|] eqn:E; [|done].
    intros [= ->] Hd.
    destruct (filter _ (driversByRoot reg) !! Clean root) as [d2|] eqn:E2; [|done].
    apply map_lookup_filter_Some in E2 as [E2 Hne]. cbn in Hne. congruence. }
  split.
  { intros root d. destruct (driversByRoot reg !! Clean root) as [d'|] eqn:E; [|done].
    intros [= ->] Hd.
    assert (filter (λ kv : string * Driver, drv_DriverType kv.2 ≠ name)
                   (driversByRoot reg) !! Clean root = Some d) as ->; [|done].
    by apply map_lookup_filter_Some. }
  f_equal.
  - by rewrite delete_delete_eq.
  - apply map_eq. intros R. apply option_eq. intros d.
    rewrite !map_lookup_filter_Some. naive_solver.
Qed.

(** X3.  On a root that is bound already, under whatever spelling,
    [InitDriver] with any registered kind returns no error and leaves the
    registry as it is, without looking at the detection or calling the
    constructor; the root stays bound to the driver it had, also when that
    driver is of another kind than the one asked for. *)
Theorem InitDriver_bound_root_noop detect name (init : DriverInit) root args reg d :
  drivers reg !! name = Some init →
  GetDriver reg root = inl d →
  InitDriver detect name root args reg = Returns (None, reg) ∧
  ∀ detect' name' args' reg',
    InitDriver detect' name' root args' reg = Returns (None, reg') →
    GetDriver reg' root = inl d.
Proof.
  unfold GetDriver, InitDriver, DriverInit in *. intros Hk Hg.
  destruct (driversByRoot reg !! Clean root) as [d0|] eqn:Hb; [|done].
  injection Hg as ->. rewrite Hk. split; [done|].
  intros detect' name' args' reg'.
  destruct_lookup name'; [|done]. intros [= <-]. by rewrite Hb.
Qed.

Lemma InitDriver_bound_root_noop_witness :
  InitDriver (DetectDriverType fs_rsync_volume) DRIVER_BTRFS "/a/" [] reg_a
  = Returns (None, reg_a) ∧
  ∀ detect' name' args' reg',
    InitDriver detect' name' "/a/" args' reg_a = Returns (None, reg') →
    GetDriver reg' "/a/" = inl (rsyncDriver "/a").
Proof.
  apply (InitDriver_bound_root_noop (DetectDriverType fs_rsync_volume) DRIVER_BTRFS
                                    btrfsInit "/a/" [] reg_a (rsyncDriver "/a")).
  - reflexivity.
  - reflexivity.
Defined.

(** X4.  When [InitDriver] returns, the constructors are what they were,
    every root that was bound is bound to the same driver, and no root
    other than the cleaned one asked for has changed.  With an error
    returned the registry is unchanged (a kind that is not registered gives
    [ErrDriverNotSupported]); with no error returned [GetDriver] finds a
    driver under the root as it was spelled in the call. *)
Theorem InitDriver_frame detect name root args reg res reg' :
  InitDriver detect name root args reg = Returns (res, reg') →
  drivers reg' = drivers reg ∧
  (∀ R d, driversByRoot reg !! R = Some d → driversByRoot reg' !! R = Some d) ∧
  (∀ R, R ≠ Clean root → driversByRoot reg' !! R = driversByRoot reg !! R) ∧
  (Registered name reg = false → res = Some ErrDriverNotSupported) ∧
  match res with
  | Some _ => reg' = reg
  | None => ∃ d, GetDriver reg' root = inl d
  end.
Proof.
  unfold InitDriver, GetDriver, Registered, DriverInit in *.
  destruct_lookup name.
  2:{ intros [= <- <-]. done. }
  assert (∀ f : string → list string → Driver + error,
            bool_decide (is_Some (Some f)) = false → res = Some ErrDriverNotSupported)
    as Hreg.
  { intros f Hx%bool_decide_eq_false. destruct Hx. by eexists. }
  destruct (driversByRoot reg !! Clean root) as [d0|] eqn:Hb.
  { intros [= <- <-]. rewrite Hb. repeat split; try done. by exists d0. }
  destruct (IsAbs (Clean root)); cbn [negb]; [|by intros [= <- <-]].
  destruct (detect (Clean root)) as [t err].
  case_bool_decide as Herr.
  { intros [= <- <-]. destruct err; [done|]. by destruct Herr. }
  case_decide; [done|].
  match goal with |- context [?f (Clean root) args] => destruct (f (Clean root) args) as [d|e] end;
    [|by intros [= <- <-]].
  intros [= <- <-]. cbn. split; [done|]. split.
  { intros R d' HR. rewrite lookup_insert_ne; [done|]. intros <-. congruence. }
  split. { intros R HR. by rewrite lookup_insert_ne. }
  split; [done|]. exists d. by rewrite lookup_insert_eq.
Qed.

Lemma InitDriver_frame_witness :
  drivers reg_kinds_data = drivers reg_kinds ∧
  (∀ R d, driversByRoot reg_kinds !! R = Some d →
          driversByRoot reg_kinds_data !! R = Some d) ∧
  (∀ R, R ≠ Clean "/data//x/.." →
        driversByRoot reg_kinds_data !! R = driversByRoot reg_kinds !! R) ∧
  (Registered DRIVER_RSYNC reg_kinds = false →
   (None : option error) = Some ErrDriverNotSupported) ∧
  ∃ d, GetDriver reg_kinds_data "/data//x/.." = inl d.
Proof.
  apply (InitDriver_frame (DetectDriverType fs_rsync_volume) DRIVER_RSYNC
                          "/data//x/.." [] reg_kinds None reg_kinds_data).
  reflexivity.
Defined.

(** X5.  Whatever calls of [Register], [Unregister] and [InitDriver] were
    made since [init], every bound root is a cleaned absolute path.  Hence
    [GetDriver] gives the same answer for a path and for its cleaned form,
    and fails with [ErrDriverNotInit] for every relative path. *)
Theorem registry_roots_canonical ops reg :
  run_ops init ops = Some reg →
  (∀ R d, driversByRoot reg !! R = Some d → Clean R = R ∧ IsAbs R = true) ∧
  (∀ p, GetDriver reg (Clean p) = GetDriver reg p) ∧
  (∀ p, IsAbs p = false → GetDriver reg p = inr ErrDriverNotInit).
Proof.
  intros Hrun.
  assert (canonical_roots reg) as Hc.
  { eapply run_ops_canonical_roots; [apply canonical_roots_init|done]. }
  split; [exact Hc|].
  assert (∀ p, IsAbs p = false → GetDriver reg p = inr ErrDriverNotInit) as Hrel.
  { intros p Hp. unfold GetDriver.
    destruct (driversByRoot reg !! Clean p) as [d|] eqn:E; [|done].
    apply Hc in E as [_ E]. by rewrite (IsAbs_Clean_false p Hp) in E. }
  split; [|done].
  intros p. destruct (IsAbs p) eqn:Hp.
  - unfold GetDriver. by destruct (canonical_Clean p Hp) as [-> _].
  - rewrite (Hrel p Hp). apply Hrel. by apply IsAbs_Clean_false.
Qed.

Lemma registry_roots_canonical_witness :
  (∀ R d, driversByRoot reg_data !! R = Some d → Clean R = R ∧ IsAbs R = true) ∧
  (∀ p, GetDriver reg_data (Clean p) = GetDriver reg_data p) ∧
  (∀ p, IsAbs p = false → GetDriver reg_data p = inr ErrDriverNotInit).
Proof.
  apply (registry_roots_canonical ops_bind_data reg_data). reflexivity.
Defined.

(** X6.  [SplitPath] returns for every path: its loop ends.  Its only
    errors are [ErrPathIsNotAbs], for the relative paths, and
    [ErrDriverNotInit], when neither the cleaned path nor a directory above
    it is a bound root.  Without error the remainder is empty exactly when
    the cleaned path is a bound root, and then the path comes back as it
    was given; otherwise the root returned is the deepest bound root above
    the path, and joining it with the remainder gives the cleaned path. *)
Theorem SplitPath_sound reg p :
  ∃ R V err, SplitPath reg p = Some (R, V, err) ∧
    match err with
    | Some e =>
        R = "" ∧ V = "" ∧
        (e = ErrPathIsNotAbs ∧ IsAbs p = false ∨
         e = ErrDriverNotInit ∧ IsAbs p = true ∧
         Forall (fun A => driversByRoot reg !! A = None) (ancestors p))
    | None =>
        IsAbs p = true ∧
        if decide (V = "")
        then R = p ∧ is_Some (driversByRoot reg !! Clean p) ∧
             deepest reg (ancestors p) = Some (Clean p)
        else is_Some (driversByRoot reg !! R) ∧
             deepest reg (ancestors p) = Some R ∧
             R ≠ Clean p ∧ Join2 R V = Clean p
    end.
Proof.
  destruct (IsAbs p) eqn:Hp.
  - destruct (SplitPath_abs reg p Hp) as (res & Hres & Hspec).
    destruct (deepest reg (ancestors p)) as [R|] eqn:Hd.
    + destruct (deepest_Some _ _ _ Hd) as [Hin Hb].
      case_decide as HR.
      * subst res R. exists p, "", None. by rewrite decide_True.
      * destruct Hspec as (v & Hv & Hj & ->). exists R, v, None.
        by rewrite decide_False.
    + subst res. exists "", "", (Some ErrDriverNotInit).
      split; [done|]. split; [done|]. split; [done|]. right.
      split; [done|]. split; [done|]. by apply deepest_None.
  - exists "", "", (Some ErrPathIsNotAbs). split; [|by auto].
    unfold SplitPath. by rewrite (IsAbs_Clean_false p Hp).
Qed.

(** X7.  [FindMount] returns for every path, and never because of the
    checks of [Mount]: a relative path gives [ErrPathIsNotAbs], a path
    under no bound root [ErrDriverNotInit], a bound root (under any
    spelling) [ErrPathIsDriver]; every other path is handed to the driver
    of the deepest bound root [R] above it, and the volume name [V] the
    driver gets is the remainder of the cleaned path: the elements of the
    cleaned path that follow those of [R], joined by slashes, which is what
    [SplitPath] returns beside [R].  The volume is loaded if the driver has
    it and created if not. *)
Theorem FindMount_cases reg p :
  ∃ res, FindMount reg p = Some res ∧
    (IsAbs p = false ∧ res = inr ErrPathIsNotAbs ∨
     IsAbs p = true ∧
     match deepest reg (ancestors p) with
     | None => res = inr ErrDriverNotInit
     | Some R =>
         if decide (R = Clean p) then res = inr ErrPathIsDriver
         else
           let below := drop (length (path_elems R)) (path_elems p) in
           let V := Join below "/" in
           ∃ d, driversByRoot reg !! R = Some d ∧
                path_elems p = path_elems R ++ below ∧ below ≠ [] ∧
                V ≠ "" ∧ Join2 R V = Clean p ∧
                SplitPath reg p = Some (R, V, None) ∧
                res = if Exists d V then Get d V else Create d V
     end).
Proof.
  destruct (IsAbs p) eqn:Hp.
  2:{ exists (inr ErrPathIsNotAbs). split; [|by left].
      unfold FindMount, SplitPath. by rewrite (IsAbs_Clean_false p Hp). }
  destruct (SplitPath_abs_elems reg p Hp) as (res & Hres & Hspec).
  unfold FindMount. rewrite Hres.
  destruct (deepest reg (ancestors p)) as [R|] eqn:Hd.
  2:{ subst res. eexists. split; [done|]. by right. }
  destruct (deepest_Some _ _ _ Hd) as [Hin [d Hb]].
  pose proof (ancestors_canonical _ _ Hin) as Hcan.
  case_decide as HR.
  - subst res. rewrite decide_True by done. eexists. split; [done|]. right.
    by split.
  - destruct Hspec as (a1 & a2 & E & Hne & -> & ->).
    pose proof (path_elems_proper p) as Ha. rewrite E in Ha.
    apply Forall_app in Ha as [Ha1 Ha2].
    assert (Hj : Join2 (abs_of a1) (Join a2 "/") = Clean p).
    { rewrite (Clean_path_elems p Hp), E. by apply Join2_abs_of. }
    assert (Hv : Join a2 "/" ≠ "") by (by apply Join_proper_nonempty).
    rewrite decide_False.
    2:{ intros <-. destruct Hcan as [Hc _]. by rewrite Hc in HR. }
    rewrite (Mount_deepest reg (Join a2 "/") (abs_of a1) d Hb Hcan). rewrite Hj.
    assert (ancestors (Clean p) = ancestors p) as ->.
    { unfold ancestors. f_equal. f_equal. rewrite (Clean_path_elems p Hp).
      apply path_elems_abs_of, path_elems_proper. }
    rewrite Hd. rewrite decide_False by (by intros ?).
    rewrite decide_False by (by intros ?%eq_sym).
    eexists. split; [done|]. right. split; [done|].
    cbn zeta. rewrite (path_elems_abs_of a1 Ha1), E, drop_app_length.
    exists d. by split_and!.
Qed.

(** The name the driver gets is cleaned: a trailing slash and a detour are
    gone, and below a nested root the name has two elements. *)
Example FindMount_volume_name :
  FindMount reg_a "/a//x/../b/" = Some (inl (mkVolume "b" "/a/b")) ∧
  FindMount reg_ab "/a/b/c/d" = Some (inl (mkVolume "c/d" "/a/b/c/d")).
Proof. by vm_compute. Qed.

(** X8.  [DetectDriverType] of the registry's file returns either one of
    the three kinds and no error, or the empty kind and an error.  A root
    that does not exist is not initialized.  The device-mapper kind is
    returned exactly when looking at [.devicemapper] fails with an
    already-exists error, so never when that directory is there and can be
    looked at.  The btrfs kind is returned only on a btrfs file system, and
    a root that holds nothing but [monitor] is neither rsync nor btrfs. *)
Theorem DetectDriverType_result fs root :
  let r := DetectDriverType fs root in
  (r.2 = None ∧ r.1 ∈ [DRIVER_BTRFS; DRIVER_RSYNC; DRIVER_DEVICEMAPPER] ∨
   r.1 = "" ∧ r.2 ≠ None) ∧
  (os_IsNotExist (fs_Stat fs root) = true → r = ("", Some ErrDriverNotInit)) ∧
  (r.1 = DRIVER_DEVICEMAPPER ↔
   os_IsNotExist (fs_Stat fs root) = false ∧
   os_IsExist (fs_Stat fs (Join2 root ".devicemapper")) = true) ∧
  (fs_Stat fs (Join2 root ".devicemapper") = None → r.1 ≠ DRIVER_DEVICEMAPPER) ∧
  (r.1 = DRIVER_BTRFS → fs_GetFSMagic fs root = inl FsMagicBtrfs) ∧
  (∀ fis, fs_ReadDir fs root = inl fis → Forall (fun n => n = "monitor") fis →
          r.1 ≠ DRIVER_BTRFS ∧ r.1 ≠ DRIVER_RSYNC).
Proof.
  cbn zeta. unfold DetectDriverType.
  destruct (os_IsNotExist (fs_Stat fs root)) eqn:H1.
  { cbn. split; [right; done|]. repeat split; try done. by intros [? _]. }
  destruct (os_IsExist (fs_Stat fs (Join2 root ".devicemapper"))) eqn:H2.
  { cbn. split; [left; split; [done|set_solver]|]. split; [done|].
    split; [done|]. split. { intros E. by rewrite E in H2. }
    done. }
  assert (∀ X : Prop, X ↔ X ∧ True) as Htriv by tauto.
  destruct (fs_ReadDir fs root) as [fis|e] eqn:H3.
  2:{ cbn. split; [by right|]. repeat split; try done. by intros [_ ?]. }
  destruct (filter (λ n, n ≠ "monitor") fis) as [|name0 names] eqn:H4.
  { cbn. split; [by right|]. repeat split; try done. by intros [_ ?]. }
  assert (∀ fis', inl fis = inl (B := os_error) fis' →
                  Forall (λ n, n = "monitor") fis' → False) as Hmon.
  { intros fis' [= <-] Hall.
    assert (name0 ∈ filter (λ n, n ≠ "monitor") fis) as Hin by (rewrite H4; left).
    apply list_elem_of_filter in Hin as [Hne Hin].
    rewrite Forall_forall in Hall. by apply Hall in Hin. }
  destruct (fs_GetFSMagic fs root) as [magic|e] eqn:H5.
  2:{ cbn. split; [by right|]. repeat split; try done; try (by intros [_ ?]).
      all: intros; exfalso; by eapply Hmon. }
  case_decide as Hm.
  2:{ cbn. split; [left; split; [done|set_solver]|].
      repeat split; try done; try (by intros [_ ?]).
      all: intros; exfalso; by eapply Hmon. }
  subst magic.
  assert (∀ sudoer,
    let r := match fs_btrfs_subvolume_show fs sudoer (Join2 root name0) with
             | Some _ => (DRIVER_RSYNC, None (A := error))
             | None => (DRIVER_BTRFS, None)
             end in
    r.2 = None ∧ r.1 ∈ [DRIVER_BTRFS; DRIVER_RSYNC; DRIVER_DEVICEMAPPER] ∧
    r.1 ≠ DRIVER_DEVICEMAPPER) as Hprobe.
  { intros sudoer. destruct (fs_btrfs_subvolume_show _ _ _); cbn; set_solver. }
  destruct (fs_user_Current fs) as [uid|e] eqn:H6.
  2:{ cbn. split; [by right|]. repeat split; try done; try (by intros [_ ?]).
      all: intros; exfalso; by eapply Hmon. }
  case_decide as Hu.
  - destruct (fs_sudo_btrfs_help fs) eqn:H7.
    { cbn. split; [by right|]. repeat split; try done; try (by intros [_ ?]).
      all: intros; exfalso; by eapply Hmon. }
    destruct (Hprobe true) as (Ha & Hb & Hc). cbn zeta in *.
    split; [by left|]. split; [done|]. split; [split; [done|by intros [_ ?]]|].
    split; [done|]. split; [done|]. intros; exfalso; by eapply Hmon.
  - destruct (Hprobe false) as (Ha & Hb & Hc). cbn zeta in *.
    split; [by left|]. split; [done|]. split; [split; [done|by intros [_ ?]]|].
    split; [done|]. split; [done|]. intros; exfalso; by eapply Hmon.
Qed.

(** X9.  [DetectDriverType] of detect.go: when the root cannot be looked
    at, the result is [ErrDriverNotInit] for a root that does not exist and
    the error itself otherwise; when it can, the result is the first of the
    three kinds, in the order of the loop, whose marker is a directory, and
    [ErrDriverNotInit] when there is none; a marker that is a plain file,
    or that cannot be looked at, is passed over. *)
Theorem DetectGo_first_marker os_Stat b r d root :
  let res := DetectGo.DetectDriverType os_Stat b r d root in
  match os_Stat root with
  | inr e =>
      res = ("", Some (if decide (e = ENOENT) then ErrDriverNotInit else ErrOS e))
  | inl _ =>
      match filter (fun t => os_Stat (Join2 root ("." +:+ t)) = inl true) [b; r; d] with
      | t :: _ => res = (t, None)
      | [] => res = ("", Some ErrDriverNotInit)
      end
  end.
Proof.
  cbn zeta. unfold DetectGo.DetectDriverType.
  destruct (os_Stat root) as [isDir|e]; [|by destruct e].
  cbn [DetectGo.detect_loop]. rewrite !filter_cons, filter_nil.
  repeat (case_decide as H;
          [apply is_marker_dir_iff in H; rewrite H; done
          |rewrite <- is_marker_dir_iff in H; apply not_true_is_false in H; rewrite H; clear H]).
  done.
Qed.

(** X10.  [ShutdownAll] calls [Cleanup] on every bound driver, once and
    in the order of the loop, whether or not an earlier one failed; it
    returns [ErrBadDriverShutdown] exactly when at least one call failed,
    and no error exactly when none did. *)
Theorem ShutdownAll_every_driver Cleanup visited :
  (ShutdownAll Cleanup visited).2 = visited.*2 ∧
  ((ShutdownAll Cleanup visited).1 = Some ErrBadDriverShutdown ↔
   ∃ rd, rd ∈ visited ∧ is_Some (Cleanup rd.2)) ∧
  ((ShutdownAll Cleanup visited).1 = None ↔
   ∀ rd, rd ∈ visited → Cleanup rd.2 = None).
Proof.
  unfold ShutdownAll. rewrite ShutdownAll_fold. cbn [app fst snd].
  split; [done|].
  destruct (omap (λ rd : string * Driver, Cleanup rd.2) visited) as [|e errs] eqn:E.
  - cbn. assert (∀ rd, rd ∈ visited → Cleanup rd.2 = None) as Hall.
    { intros rd Hin. destruct (Cleanup rd.2) as [e|] eqn:Hc; [|done].
      assert (e ∈ omap (λ rd : string * Driver, Cleanup rd.2) visited) as He.
      { apply list_elem_of_omap. by exists rd. }
      rewrite E in He. by apply elem_of_nil in He. }
    split; [|split; [intros _; exact Hall|done]].
    split; [intros [=]|]. intros (rd & Hin & [e He]).
    by rewrite (Hall rd Hin) in He.
  - cbn. assert (e ∈ omap (λ rd : string * Driver, Cleanup rd.2) visited) as He
        by (rewrite E; left).
    apply list_elem_of_omap in He as (rd & Hin & Hc).
    split.
    + split; [|done]. intros _. exists rd. split; [done|]. by eexists.
    + split; [intros [=]|]. intros Hall. by rewrite (Hall rd Hin) in Hc.
Qed.

(** X11.  Asked with no volume names, [getDrivers] returns all the bound
    roots with their drivers. *)
Theorem getDrivers_all reg visited :
  visited ≡ₚ map_to_list (driversByRoot reg) →
  getDrivers visited [] = driversByRoot reg.
Proof.
  intros Hp.
  change (getDrivers visited [])
    with (foldl (fun result '(root, driver) => <[root := driver]> result)
                (∅ : gmap string Driver) visited).
  rewrite getDrivers_empty_fold, (right_id_L ∅ (∪)).
  rewrite <- (list_to_map_to_list (driversByRoot reg)).
  apply list_to_map_proper.
  - rewrite reverse_Permutation, Hp. apply NoDup_fst_map_to_list.
  - by rewrite reverse_Permutation.
Qed.

Lemma getDrivers_all_witness : getDrivers visited_ab [] = driversByRoot reg_ab.
Proof.
  apply (getDrivers_all reg_ab visited_ab). vm_compute. reflexivity.
Defined.

(** X12.  Asked with volume names, [getDrivers] returns a map keyed by
    volume name, not by root: a name is a key exactly when some bound
    driver's [Get] succeeds for it, and its value is the last such driver
    the loop over the bound roots came to. *)
Theorem getDrivers_selection visited names k :
  names ≠ [] →
  getDrivers visited names !! k =
  if decide (k ∈ names)
  then snd <$> last (filter (fun rd => driverMatches rd.2 k = true) visited)
  else None.
Proof.
  intros Hn. induction visited as [|rd visited IH] using rev_ind.
  - cbn. by destruct (decide (k ∈ names)).
  - rewrite getDrivers_snoc. rewrite decide_False by (by destruct names).
    rewrite getDrivers_inner, IH, filter_app, filter_cons, filter_nil.
    destruct (decide (k ∈ names)) as [Hk|Hk].
    + destruct (driverMatches rd.2 k) eqn:Hm.
      * rewrite decide_True by done. rewrite decide_True by done.
        by rewrite last_snoc.
      * rewrite decide_False by (by intros [_ ?]).
        rewrite decide_False by done. by rewrite app_nil_r.
    + by rewrite decide_False by (by intros [? _]).
Qed.

Lemma getDrivers_selection_witness :
  getDrivers visited_ab ["tenant0"] !! "tenant0" =
  if decide ("tenant0" ∈ ["tenant0"])
  then snd <$> last (filter (fun rd : string * Driver =>
                               driverMatches rd.2 "tenant0" = true) visited_ab)
  else None.
Proof.
  apply (getDrivers_selection visited_ab ["tenant0"] "tenant0"). discriminate.
Defined.

(** X13.  [GetStatus] panics exactly when [Status] of one of the selected
    drivers returns a nil pointer; the error [Status] returns is not looked
    at.  Otherwise the map returned has the keys of [getDrivers], each with
    the status of its driver. *)
Theorem GetStatus_nil_status Status_of visited names :
  let driverMap := getDrivers visited names in
  match GetStatus Status_of visited names with
  | Some statuses =>
      ∀ path status,
        StatusMap statuses !! path = Some status ↔
        ∃ driver, driverMap !! path = Some driver ∧
                  (Status_of driver).1 = Some status
  | None =>
      ∃ path driver, driverMap !! path = Some driver ∧ (Status_of driver).1 = None
  end ∧
  (is_Some (GetStatus Status_of visited names) ↔
   ∀ path driver, driverMap !! path = Some driver → is_Some (Status_of driver).1).
Proof.
  cbn zeta. unfold GetStatus. rewrite GetStatus_fold.
  set (M := getDrivers visited names).
  destruct (decide (Forall _ (map_to_list M))) as [Hall|Hall]; cbn.
  - rewrite Forall_forall in Hall. split.
    + intros path status. rewrite (right_id_L ∅ (∪)).
      rewrite <- elem_of_list_to_map.
      2:{ rewrite reverse_Permutation. apply NoDup_fst_omap, NoDup_fst_map_to_list. }
      rewrite elem_of_reverse, list_elem_of_omap. split.
      * intros ([p d] & Hin & Hf). cbn in Hf.
        destruct (Status_of d).1 as [s|] eqn:Hs; [|done]. injection Hf as -> ->.
        apply elem_of_map_to_list in Hin. by exists d.
      * intros (d & HM & Hs). exists (path, d). split.
        { by apply elem_of_map_to_list. }
        cbn. by rewrite Hs.
    + split; [|by eexists]. intros _ path driver HM.
      apply (Hall (path, driver)). by apply elem_of_map_to_list.
  - split.
    + apply not_Forall_Exists in Hall; [|apply _].
      apply Exists_exists in Hall as ([p d] & Hin & Hnot). exists p, d.
      split; [by apply elem_of_map_to_list|].
      cbn in Hnot. destruct (Status_of d).1; [|done]. destruct Hnot. by eexists.
    + split; [by intros [? ?]|]. intros H. destruct Hall. apply Forall_forall.
      intros [p d] Hin. apply (H p d). by apply elem_of_map_to_list.
Qed.

(** X26.  [OldDetectDriverType] of detect.go returns either one of the
    three kinds and no error, or the empty kind and an error.  A root with
    a directory [.devicemapper] is device-mapper.  Otherwise only the
    directories other than [monitor] count as volumes: a root that holds
    none is not initialized, whatever plain files it holds.  The error
    [ErrInsufficientPermissions] comes only on a btrfs file system, for a
    user who is neither root nor sudoer; and off a btrfs file system the
    kind found is device-mapper or rsync. *)
Theorem OldDetectDriverType_result fs root :
  let r := OldDetectDriverType fs root in
  (r.2 = None ∧
   r.1 ∈ [DriverTypeBtrFS fs; DriverTypeRsync fs; DriverTypeDeviceMapper fs] ∨
   r.1 = "" ∧ r.2 ≠ None) ∧
  (∀ isDir, old_Stat fs root = inl isDir →
            old_Stat fs (Join2 root ".devicemapper") = inl true →
            r = (DriverTypeDeviceMapper fs, None)) ∧
  (∀ isDir fis, old_Stat fs root = inl isDir →
                old_Stat fs (Join2 root ".devicemapper") ≠ inl true →
                old_ReadDir fs root = inl fis →
                Forall (fun fi : string * bool => fi.2 = false ∨ fi.1 = "monitor") fis →
                r = ("", Some ErrDriverNotInit)) ∧
  (r.2 = Some ErrInsufficientPermissions →
   IsBtrfsFilesystem fs root = true ∧ IsRoot fs = false ∧ IsSudoer fs = false) ∧
  (IsBtrfsFilesystem fs root = false →
   r.2 = None → r.1 = DriverTypeDeviceMapper fs ∨ r.1 = DriverTypeRsync fs).
Proof.
  cbn zeta. unfold OldDetectDriverType.
  destruct (old_Stat fs root) as [isDir|e] eqn:H1.
  2:{ destruct e; cbn; split_and!; try done; auto. }
  destruct (DetectGo.is_marker_dir (old_Stat fs (Join2 root ".devicemapper"))) eqn:H2.
  { cbn. split_and!; try done; auto.
    - left. split; [done|set_solver].
    - intros ? ? _ Hne.
      destruct (old_Stat fs (Join2 root ".devicemapper")) as [[]|[]]; cbn in H2; done. }
  assert (old_Stat fs (Join2 root ".devicemapper") ≠ inl true) as Hnm.
  { intros E. by rewrite E in H2. }
  destruct (old_ReadDir fs root) as [fis|e] eqn:H3.
  2:{ cbn. split_and!; try done; auto. }
  destruct (filter _ fis) as [|[name0 d0] names] eqn:H4.
  { cbn. split_and!; try done; auto. }
  assert (∀ fis', inl fis = inl (B := os_error) fis' →
            Forall (fun fi : string * bool => fi.2 = false ∨ fi.1 = "monitor") fis' →
            False) as Hvol.
  { intros fis' [= <-] Hall.
    assert ((name0, d0) ∈ filter (fun fi : string * bool =>
                                    fi.2 = true ∧ fi.1 ≠ "monitor") fis) as Hin
        by (rewrite H4; left).
    apply list_elem_of_filter in Hin as [[Hd Hn] Hin].
    rewrite Forall_forall in Hall. apply Hall in Hin. cbn in *. naive_solver. }
  cbn [fmap list_fmap fst].
  destruct (IsBtrfsFilesystem fs root) eqn:H5.
  - destruct (IsRoot fs) eqn:H6; cbn [negb andb].
    + destruct (RunBtrFSCmd fs false _); cbn; split_and!; try done;
        try (left; split; [done|set_solver]); try (by intros; exfalso; eauto).
    + destruct (IsSudoer fs) eqn:H7; cbn [negb andb].
      * destruct (RunBtrFSCmd fs true _); cbn; split_and!; try done;
          try (left; split; [done|set_solver]); try (by intros; exfalso; eauto).
      * cbn; split_and!; try done; auto; try (by intros; exfalso; eauto).
  - cbn; split_and!; try done; auto;
      try (left; split; [done|set_solver]); try (by intros; exfalso; eauto).
Qed.

End VolumeExtras.

(** ** Further properties of the export synchronizer *)

Module NFSExtras.
Import GoStrings GoPath PathSpec GoPathFacts Volume VolumeFacts.
Import NFS NFSFacts NFSSteps NFSStepFacts NFSMoreFacts DFS Fixtures HostsFixtures.

(** X14.  [NewServer] returns either a server or an error, never both
    and never neither.  An exported name of fewer than two bytes or with a
    slash, and then a base path of fewer than two bytes, are refused before
    anything is looked at.  A server returned holds the arguments, the
    fixed export options and three empty sets, and the last thing done was
    a successful start of the service; with a network that is not CIDR the
    service is not started.  All [NewServer] ever does is look at, create
    or change the mode (to 0755) of the base path and of the export
    directory, and start the service. *)
Theorem NewServer_validation env basePath exportedName network h :
  let res := NewServer env basePath exportedName network h in
  let srv := res.1.1 in
  let err := res.1.2 in
  let evs := res.2 in
  (srv = None ↔ err ≠ None) ∧
  (len exportedName < 2 ∨ Contains exportedName "/" = true →
   err = Some ErrInvalidExportedName ∧ evs = []) ∧
  (2 ≤ len exportedName → Contains exportedName "/" = false → len basePath < 2 →
   err = Some ErrInvalidBasePath ∧ evs = []) ∧
  (∀ c, srv = Some c →
        c = mkServer basePath exportedName "rw,insecure,no_subtree_check,async"
                     network ∅ ∅ ∅ ∧
        2 ≤ len exportedName ∧ Contains exportedName "/" = false ∧
        2 ≤ len basePath ∧ env_ParseCIDR env network = true ∧
        last evs = Some (EvService ActStart None)) ∧
  (env_ParseCIDR env network = false → err ≠ None ∧ Forall (fun ev => is_service ev = false) evs) ∧
  Forall (new_server_step env basePath exportedName) evs.
Proof.
  cbn zeta. unfold NewServer.
  destruct (len exportedName <? 2) eqn:H1.
  { cbn. apply Z.ltb_lt in H1. repeat split; try done; try lia; auto. }
  apply Z.ltb_ge in H1.
  destruct (Contains exportedName "/") eqn:H2.
  { cbn. repeat split; try done; try lia; auto. }
  cbn [orb].
  destruct (len basePath <? 2) eqn:H3.
  { cbn. apply Z.ltb_lt in H3. repeat split; try done; try lia; auto. }
  apply Z.ltb_ge in H3.
  unfold verifyExportsDir, os_Stat, os_MkdirAll, os_Chmod, start, service.
  run_monad.
  break_matches; cbn [fst snd negb] in *; split_and!;
    try done; try lia;
    try (intros [?|?]; (lia || done));
    try (intros; lia);
    try (intros c [= <-]; split_and!; try done; by apply negb_false_iff);
    try (intros Hp; first [congruence | by rewrite Hp in *
                          | split; [done | by repeat constructor]]);
    try (repeat constructor; cbn; auto; done).
Qed.

(** X15.  For an export root that is a cleaned absolute path and an
    exported name that passes the check of [NewServer], [ExportPath] is a
    directory directly under the export root, named by the exported name;
    except for the name [..], which passes the check as well and for which
    [ExportPath] is the directory above the export root. *)
Theorem ExportPath_child env c :
  canonical (exportsDir env) →
  2 ≤ len (exportedName c) → Contains (exportedName c) "/" = false →
  if decide (exportedName c = "..")
  then ExportPath env c = Dir (exportsDir env)
  else Dir (ExportPath env c) = exportsDir env ∧
       ExportPath env c ≠ exportsDir env ∧
       (Split (ExportPath env c)).2 = exportedName c.
Proof.
  intros Hc Hl Hs. unfold ExportPath. case_decide as Hd.
  - rewrite Hd. by apply Join2_dotdot.
  - destruct (Join2_child (exportsDir env) (exportedName c)) as (? & ? & ? & ?);
      [done|by apply valid_name_proper|done].
Qed.

Lemma ExportPath_child_witness :
  if decide (exportedName server1 = "..")
  then ExportPath machine0 server1 = Dir (exportsDir machine0)
  else Dir (ExportPath machine0 server1) = exportsDir machine0 ∧
       ExportPath machine0 server1 ≠ exportsDir machine0 ∧
       (Split (ExportPath machine0 server1)).2 = exportedName server1.
Proof.
  apply (ExportPath_child machine0 server1).
  - split; reflexivity.
  - vm_compute. discriminate.
  - reflexivity.
Defined.

(** X16.  [hostsDeny] writes nothing but the access-deny file, at most
    once, and what it writes contains the block of defaults; when the file
    read contains that block already, nothing is written.  So a second run
    on the file a first run wrote leaves it alone. *)
Theorem hostsDeny_idempotent env c h r evs :
  hostsDeny env c h = (r, evs) →
  (∀ p content perm res,
     EvWriteFile p content perm res ∈ evs →
     p = etcHostsDeny env ∧ perm = perm0664 ∧ res = r ∧
     Contains content hostDenyDefaults = true) ∧
  (∀ s ev0, readFileIfExists env (etcHostsDeny env) h = ((s, None), ev0) →
            Contains s hostDenyDefaults = true → r = None ∧ evs = ev0).
Proof.
  intros Hd.
  destruct (readFileIfExists env (etcHostsDeny env) h) as [[s e] ev0] eqn:Hr.
  destruct e as [e|].
  - revert Hd. unfold hostsDeny. rewrite run_bind, Hr. cbn. intros [= <- <-].
    split; [|done]. intros p content perm res Hin. rewrite app_nil_r in Hin.
    revert Hr. unfold readFileIfExists, doesExists, os_Stat, ioutil_ReadFile.
    run_monad. break_matches; intros ?; simplify_eq; set_solver.
  - rewrite (hostsDeny_run env c h s ev0 Hr) in Hd.
    assert (∀ p content perm res, EvWriteFile p content perm res ∉ ev0) as Hno.
    { revert Hr. unfold readFileIfExists, doesExists, os_Stat, ioutil_ReadFile.
      run_monad. break_matches; intros ?; simplify_eq; set_solver. }
    destruct (Contains s hostDenyDefaults) eqn:Hc.
    + injection Hd as <- <-. split.
      * intros p content perm res Hin. by apply Hno in Hin.
      * by intros s' ev0' [= <- <-] _.
    + cbn zeta in Hd. injection Hd as <- <-. split.
      * intros p content perm res [Hin|Hin]%elem_of_app; [by apply Hno in Hin|].
        apply list_elem_of_singleton in Hin. simplify_eq.
        repeat split; try done. apply Contains_app_r.
      * intros s' ev0' [= <- <-] Hc'. congruence.
Qed.

Lemma hostsDeny_idempotent_witness :
  (∀ p content perm res,
     EvWriteFile p content perm res ∈
       [EvStat "/etc/hosts.deny" StatNotExist;
        EvWriteFile "/etc/hosts.deny" hostDenyDefaults perm0664 None] →
     p = etcHostsDeny machine0 ∧ perm = perm0664 ∧ res = None ∧
     Contains content hostDenyDefaults = true) ∧
  (∀ s ev0, readFileIfExists machine0 (etcHostsDeny machine0) [] = ((s, None), ev0) →
            Contains s hostDenyDefaults = true →
            (None : option error) = None ∧
            [EvStat "/etc/hosts.deny" StatNotExist;
             EvWriteFile "/etc/hosts.deny" hostDenyDefaults perm0664 None] = ev0).
Proof.
  apply (hostsDeny_idempotent machine0 server1 []). reflexivity.
Defined.

(** X17.  When the access-allow file does not start with the marker line,
    running [hostsAllow] again on the file it wrote, with the same clients,
    writes the same content: the managed block is replaced, not added a
    second time. *)
Theorem hostsAllow_rerun_same env c h s ev0 :
  readFileIfExists env (etcHostsAllow env) h = ((s, None), ev0) →
  Index s hostAllowMarker ≠ 0 →
  ∃ w r, hostsAllow env c h = (r, ev0 ++ [EvWriteFile (etcHostsAllow env) w perm0664 r]) ∧
    ∀ env' h' ev0',
      readFileIfExists env' (etcHostsAllow env') h' = ((w, None), ev0') →
      ∃ r', hostsAllow env' c h' =
            (r', ev0' ++ [EvWriteFile (etcHostsAllow env') w perm0664 r']).
Proof.
  intros Hr Hi. pose proof (hostsAllow_run env c h s ev0 Hr) as Hrun. cbn zeta in Hrun.
  eexists _, _. split; [exact Hrun|].
  intros env' h' ev0' Hr'. pose proof (hostsAllow_run env' c h' _ ev0' Hr') as Hrun'.
  cbn zeta in Hrun'. rewrite allow_rerun in Hrun' by (by apply allow_pre_no_marker).
  eexists. exact Hrun'.
Qed.

Lemma hostsAllow_rerun_same_witness :
  ∃ w r,
    hostsAllow machine_allow server1 [] =
    (r, [EvStat "/etc/hosts.allow" (StatInfo false 0x1A4);
         EvReadFile "/etc/hosts.allow" (inl allow_before)] ++
        [EvWriteFile (etcHostsAllow machine_allow) w perm0664 r]) ∧
    ∀ env' h' ev0',
      readFileIfExists env' (etcHostsAllow env') h' = ((w, None), ev0') →
      ∃ r', hostsAllow env' server1 h' =
            (r', ev0' ++ [EvWriteFile (etcHostsAllow env') w perm0664 r']).
Proof.
  apply (hostsAllow_rerun_same machine_allow server1 [] allow_before).
  - reflexivity.
  - vm_compute. discriminate.
Defined.

(** X18.  When the access-allow file starts with the marker line, nothing
    is cut off: [hostsAllow] adds the managed block at the end, and a second
    run on the file it wrote adds the block once more. *)
Theorem hostsAllow_marker_first_grows env c h s ev0 :
  readFileIfExists env (etcHostsAllow env) h = ((s, None), ev0) →
  HasPrefix s hostAllowMarker = true →
  let block := hostAllowDefaults +:+ " " +:+
               Join (sort_Strings (elements (clients c))) " " +:+ nl +:+ nl in
  (∃ r, hostsAllow env c h =
        (r, ev0 ++ [EvWriteFile (etcHostsAllow env) (s +:+ block) perm0664 r])) ∧
  ∀ env' h' ev0',
    readFileIfExists env' (etcHostsAllow env') h' = ((s +:+ block, None), ev0') →
    ∃ r', hostsAllow env' c h' =
          (r', ev0' ++ [EvWriteFile (etcHostsAllow env') (s +:+ block +:+ block)
                                     perm0664 r']).
Proof.
  intros Hr Hp. cbn zeta.
  assert (∀ x, HasPrefix x hostAllowMarker = true → Index x hostAllowMarker = 0) as Hz.
  { intros x Hx. unfold Index, HasPrefix in *. destruct x; cbn [index_nat]; by rewrite Hx. }
  split.
  - pose proof (hostsAllow_run env c h s ev0 Hr) as Hrun. cbn zeta in Hrun.
    rewrite (Hz s Hp) in Hrun. cbn in Hrun. by eexists.
  - intros env' h' ev0' Hr'.
    pose proof (hostsAllow_run env' c h' _ ev0' Hr') as Hrun. cbn zeta in Hrun.
    rewrite Hz in Hrun by (by apply prefix_app). cbn in Hrun.
    rewrite append_assoc in Hrun. by eexists.
Qed.

Lemma hostsAllow_marker_first_grows_witness :
  let block := hostAllowDefaults +:+ " " +:+
               Join (sort_Strings (elements (clients server1))) " " +:+ nl +:+ nl in
  (∃ r, hostsAllow machine_allow_first server1 [] =
        (r, [EvStat "/etc/hosts.allow" (StatInfo false 0x1A4);
             EvReadFile "/etc/hosts.allow" (inl allow_marker_first)] ++
            [EvWriteFile (etcHostsAllow machine_allow_first)
                         (allow_marker_first +:+ block) perm0664 r])) ∧
  ∀ env' h' ev0',
    readFileIfExists env' (etcHostsAllow env') h'
    = ((allow_marker_first +:+ block, None), ev0') →
    ∃ r', hostsAllow env' server1 h' =
          (r', ev0' ++ [EvWriteFile (etcHostsAllow env')
                                     (allow_marker_first +:+ block +:+ block)
                                     perm0664 r']).
Proof.
  apply (hostsAllow_marker_first_grows machine_allow_first server1 []
                                       allow_marker_first).
  - reflexivity.
  - reflexivity.
Defined.

(** X19.  [isBindMounted] reads the mount table once.  When the table can
    be read, the answer is whether one of its entries has the destination
    asked for.  When it cannot, the error is passed on, unless its message
    is [not found]: then the answer is "not mounted" and no error. *)
Theorem isBindMounted_table env dst h :
  (isBindMounted env dst h).2 = [EvReadMounts (env_ReadMounts env h)] ∧
  match env_ReadMounts env h with
  | inl mounts =>
      (isBindMounted env dst h).1 = (bool_decide (dst ∈ Dst <$> mounts), None)
  | inr e =>
      (isBindMounted env dst h).1 =
      (false, if decide (error_string e = "not found") then None else Some e)
  end.
Proof.
  destruct (isBindMounted_cases env dst h) as (r & -> & Hr). split; [done|].
  destruct (env_ReadMounts env h) as [mounts|e]; cbn [fst].
  - case_decide; subst r; [by rewrite bool_decide_eq_true_2|by rewrite bool_decide_eq_false_2].
  - by case_decide; subst r.
Qed.

(** X20.  The calls of [Sync] come in this order: those on the
    access-deny file, those on the access-allow file, those of
    [writeExports] (bind mounts, then the exports file), the service calls,
    and the clean-up.  When [Sync] succeeds the service calls are a start
    and then a reload, both successful.  When it fails there is no clean-up,
    and the service calls are none, a failed start, or a start and a failed
    reload; the service is never restarted or stopped. *)
Theorem Sync_phases env c h :
  ∃ deny allow exports services cleanup,
    phases env (Sync env c h).2 deny allow exports services cleanup ∧
    match (Sync env c h).1.1 with
    | None => services = [EvService ActStart None; EvService ActReload None]
    | Some e =>
        cleanup = [] ∧
        (services = [] ∨ services = [EvService ActStart (Some e)] ∨
         services = [EvService ActStart None; EvService ActReload (Some e)])
    end.
Proof. apply Sync_phases_aux. Qed.

(** X21.  A [Sync] or a [Restart] that returns an error has removed
    nothing and unmounted nothing. *)
Theorem Sync_failure_removes_nothing env c h :
  ((Sync env c h).1.1 ≠ None →
   Forall (fun ev => removes ev = false) (Sync env c h).2) ∧
  ((Restart env c h).1.1 ≠ None →
   Forall (fun ev => removes ev = false) (Restart env c h).2).
Proof.
  split.
  - destruct (Sync_phases_aux env c h) as (d & a & e & s & cl & Hph & Hs).
    destruct (Sync env c h).1.1 as [err|]; [|done]. intros _.
    destruct Hs as [-> Hs]. eapply phases_no_removal; [exact Hph|].
    destruct Hs as [->|[->| ->]]; by repeat constructor.
  - destruct (Restart_phases_aux env c h) as (d & a & e & s & cl & Hph & Hs).
    destruct (Restart env c h).1.1 as [err|]; [|done]. intros _.
    destruct Hs as [-> Hs]. eapply phases_no_removal; [exact Hph|].
    destruct Hs as [->| ->]; by repeat constructor.
Qed.

(** X22.  [Restart] makes the calls of [Sync] with one restart of the
    service in the place of the start and the reload: a successful
    [Restart] restarts the service once, after the three files are written
    and before the clean-up; a failed one has no clean-up and at most one
    service call, the failed restart. *)
Theorem Restart_phases env c h :
  ∃ deny allow exports services cleanup,
    phases env (Restart env c h).2 deny allow exports services cleanup ∧
    match (Restart env c h).1.1 with
    | None => services = [EvService ActRestart None]
    | Some e =>
        cleanup = [] ∧ (services = [] ∨ services = [EvService ActRestart (Some e)])
    end.
Proof. apply Restart_phases_aux. Qed.

(** X23.  After any series of [AddVolume] and [RemoveVolume], a path is in
    the desired set exactly when the last call that named it (as a string:
    paths are not cleaned) was [AddVolume], or no call named it and it was
    in the set before.  These calls change neither the clients nor the
    exported set, and [SetClients] replaces the clients and leaves the
    desired set alone. *)
Theorem desired_set_last_call c ops p :
  (p ∈ volumes (foldl apply_volume_op c ops) ↔
   match last (filter (fun op => op_path op = p) ops) with
   | Some (OpAddVolume _) => True
   | Some (OpRemoveVolume _) => False
   | None => p ∈ volumes c
   end) ∧
  clients (foldl apply_volume_op c ops) = clients c ∧
  exported (foldl apply_volume_op c ops) = exported c ∧
  ∀ addrs, volumes (SetClients addrs (foldl apply_volume_op c ops))
           = volumes (foldl apply_volume_op c ops) ∧
           clients (SetClients addrs (foldl apply_volume_op c ops)) = list_to_set addrs.
Proof.
  split; [|split; [|split]].
  - induction ops as [|op ops IH] using rev_ind; [done|].
    rewrite foldl_app. cbn [foldl]. rewrite volumes_apply_op, filter_app, filter_cons, filter_nil.
    case_decide as Hd.
    + rewrite last_snoc. by destruct op.
    + by rewrite app_nil_r.
  - apply apply_volume_ops_clients.
  - induction ops as [|op ops IH] using rev_ind; [done|].
    rewrite foldl_app. cbn [foldl]. by destruct op.
  - intros addrs. split; [done|]. apply SetClients_clients.
Qed.

(** X24.  When the export root is a cleaned absolute path and the entries
    listed in the export directory have the names of directory entries (no
    slash, not empty, neither [.] nor [..]), every removal and every
    unmounting of [cleanupBindMounts] is that of a path directly under the
    export directory whose name is not in the exported set. *)
Theorem cleanupBindMounts_inside env c h :
  let edir := Join2 (exportsDir env) (exportedName c) in
  canonical (exportsDir env) →
  (∀ entries, env_ReadDir env h edir = inl entries →
              Forall (fun file => proper (fi_Name file)) entries) →
  Forall (fun ev => ∀ p, cleanup_target ev = Some p →
                         Dir p = edir ∧ p ≠ edir ∧
                         (Split p).2 ∉ exported c)
         (cleanupBindMounts env c h).2.
Proof.
  intros edir Hcan Hnames. unfold cleanupBindMounts. fold edir.
  rewrite run_bind. unfold ioutil_ReadDir. cbn beta iota zeta.
  destruct (env_ReadDir env h edir) as [entries|e] eqn:Hrd.
  2:{ cbn. by repeat constructor. }
  specialize (Hnames entries eq_refl).
  match goal with
  | |- context [cleanup_loop env c edir entries ?h'] =>
      destruct (cleanup_loop_trace env c edir entries h') as (traces & HF & Ht);
      destruct (cleanup_loop env c edir entries h') as [[] evs']
  end.
  cbn in Ht. subst evs'. cbn [snd app]. constructor; [done|].
  apply Forall_forall. intros ev Hin p Hp.
  apply elem_of_concat in Hin as (tr & Hev & Htr).
  apply list_elem_of_lookup in Htr as [i Hi].
  destruct (Forall2_lookup_r _ _ _ _ _ HF Hi) as (file & Hfile & Htrace).
  apply list_elem_of_lookup_2 in Hfile.
  rewrite Forall_forall in Hnames. specialize (Hnames file Hfile).
  assert (canonical edir) as Hce by (by apply canonical_Join2).
  destruct (Join2_child edir (fi_Name file) Hce Hnames) as (Hd & Hne & Hs & _).
  assert (stale_entry c file → p = Join2 edir (fi_Name file) →
          Dir p = edir ∧ p ≠ edir ∧ (Split p).2 ∉ exported c) as Hgoal.
  { intros [Hst _] ->. by rewrite Hs. }
  destruct Htrace; set_unfold;
    repeat match goal with H : _ ∨ _ |- _ => destruct H end;
    subst; try done; cbn in Hp; simplify_eq; by apply Hgoal.
Qed.

Lemma cleanupBindMounts_inside_witness :
  Forall (fun ev => ∀ p, cleanup_target ev = Some p →
                         Dir p = Join2 (exportsDir machine_old_dir) (exportedName server2) ∧
                         p ≠ Join2 (exportsDir machine_old_dir) (exportedName server2) ∧
                         (Split p).2 ∉ exported server2)
         (cleanupBindMounts machine_old_dir server2 []).2.
Proof.
  apply (cleanupBindMounts_inside machine_old_dir server2 []).
  - split; reflexivity.
  - intros entries [= <-].
    repeat constructor; cbn; repeat split; (reflexivity || discriminate).
Defined.

(** X25.  [Create] of package dfs fails only when the driver cannot
    create the volume, and then it has touched nothing.  Otherwise it
    returns no error, whatever [AddVolume] and [Sync] return: the path of
    the new volume is in the desired set, the clients are unchanged, the
    calls made are those of one [Sync], and when that [Sync] succeeded the
    exported set holds the base names of the desired volumes, the new one
    included. *)
Theorem dfs_Create_outcome env disk net tenantID h :
  let res := Create env disk net tenantID h in
  match Volume.Create disk tenantID with
  | inr err => res = ((Some err, net), [])
  | inl vol =>
      let net1 := (AddVolume (Volume.vol_Path vol) net).2 in
      res.1.1 = None ∧
      res = ((None, (Sync env net1 h).1.2), (Sync env net1 h).2) ∧
      volumes res.1.2 = {[Volume.vol_Path vol]} ∪ volumes net ∧
      clients res.1.2 = clients net ∧
      ((Sync env net1 h).1.1 = None →
       exported res.1.2 = set_map baseName ({[Volume.vol_Path vol]} ∪ volumes net))
  end.
Proof.
  cbn zeta. unfold Create. destruct (Volume.Create disk tenantID) as [vol|err]; [|done].
  cbn [AddVolume snd]. rewrite run_bind.
  set (net1 := set_volumes net ({[Volume.vol_Path vol]} ∪ volumes net)).
  destruct (Sync env net1 h) as [[r net2] evs] eqn:HS. cbn.
  rewrite app_nil_r. split; [done|]. split; [done|].
  apply Sync_server in HS as [Hc Hok].
  split; [by destruct Hc as [->| ->]|]. split; [by destruct Hc as [->| ->]|].
  intros ->. by rewrite (Hok eq_refl).
Qed.

(** X27.  [mntArgs] asks for the user id once and returns the command
    [mount] for root and [sudo] with the first argument [mount] for any
    other user; the arguments that follow are [-o] and the option for every
    option, in order, then [-t] and the type if one is given, then the
    source if one is given, and the destination last. *)
Theorem mntArgs_shape env fs dst fsType options h :
  let uid := env_Getuid env h in
  let rest := flat_map (fun option => ["-o"; option]) options ++
              (if decide (fsType = "") then [] else ["-t"; fsType]) ++
              (if decide (fs = "") then [] else [fs]) ++ [dst] in
  mntArgs env fs dst fsType options h =
  ((if decide (uid = 0) then ("mount", rest) else ("sudo", "mount" :: rest)),
   [EvGetuid uid]).
Proof.
  cbn zeta. unfold mntArgs, syscall_Getuid. run_monad.
  by rewrite mount_cmdline_shape.
Qed.

(** X28.  The calls of [writeExports] are those of creating the two
    directories and bind-mounting, then those on the exports file.  When
    there is none of the latter, [writeExports] has failed and left the
    server as it was; when there is one, the exported set has been
    replaced.  The exports file is written at most once, by the last call
    made, and the outcome of that call is the outcome of [writeExports]. *)
Theorem writeExports_order env c h :
  let res := writeExports env c h in
  ∃ binds file,
    res.2 = binds ++ file ∧
    Forall (fun ev => bind_mount_step ev = true) binds ∧
    Forall (fun ev => on_file (etcExports env) ev = true) file ∧
    (file = [] → res.1.1 ≠ None ∧ res.1.2 = c) ∧
    (file ≠ [] → res.1.2 = set_exported c (set_map baseName (volumes c))) ∧
    (∀ p content perm r,
       EvWriteFile p content perm r ∈ res.2 →
       r = res.1.1 ∧
       ∃ before, res.2 = before ++ [EvWriteFile (etcExports env) content perm0664 r] ∧
                 ∀ p' content' perm' r', EvWriteFile p' content' perm' r' ∉ before).
Proof.
  cbn zeta. destruct (writeExports env c h) as [[r c'] evs] eqn:Hw. cbn [fst snd].
  apply writeExports_cases_steps in Hw. cbn zeta in Hw.
  assert (∀ l, Forall (fun ev => bind_mount_step ev = true) l →
               ∀ p content perm r, EvWriteFile p content perm r ∉ l) as Hnw.
  { intros l Hl p content perm r' Hin. rewrite Forall_forall in Hl.
    by apply Hl in Hin. }
  destruct Hw as [(e & -> & -> & Hb)|(vols & evs0 & rd & evs1 & _ & -> & Hb & Hrd & Hevs)].
  - exists evs, []. rewrite app_nil_r. split_and!; try done.
    intros p content perm r' Hin. by apply Hnw in Hin.
  - apply readFileIfExists_steps in Hrd as (Hne & Hf & Hnw1).
    destruct rd as [orig [e4|]].
    + destruct Hevs as [-> ->]. exists evs0, evs1. split_and!; try done.
      intros p content perm r' [Hin|Hin]%elem_of_app; [by apply Hnw in Hin|].
      by apply Hnw1 in Hin.
    + subst evs. eexists evs0, (evs1 ++ [_]). split_and!; try done.
      * apply Forall_app. split; [done|]. repeat constructor. cbn.
        by rewrite bool_decide_eq_true.
      * intros H. by destruct evs1.
      * intros p content perm r' [Hin|[Hin|Hin]%elem_of_app]%elem_of_app.
        { by apply Hnw in Hin. }
        { by apply Hnw1 in Hin. }
        apply list_elem_of_singleton in Hin. simplify_eq. split; [done|].
        eexists (evs0 ++ evs1). split; [by rewrite <- app_assoc|].
        intros p' content' perm' r'' [Hin|Hin]%elem_of_app;
          [by apply Hnw in Hin|by apply Hnw1 in Hin].
Qed.

End NFSExtras.

